(** * Bucardo-Docker: reconciliation controller and completion monitor

    A shallow embedding of the Go replication service (orchestrator
    service, Bucardo CLI adapter, log monitor, credential manager) and the
    properties of its specification.

    Go values are modelled as follows: [string] is a byte string
    ([Stdlib.Strings.String]), [int] is [Z], [*T] is [option T], [[]T] is
    [list T], [map[K]bool] is [gmap K bool] read with Go's zero value for
    absent keys, and [error] is [option string] ([None] is [nil]). *)

From Stdlib Require Import ZArith NArith List Ascii String DecimalString DecimalZ.
From stdpp Require Import base gmap strings list sorting.

Open Scope string_scope.
Open Scope list_scope.
Open Scope Z_scope.

(* ===================================================================== *)
(** ** Go runtime: strings, fmt, sort *)
(* ===================================================================== *)

Module Go.

(** Go's [error]: [None] is [nil], [Some msg] carries [err.Error()]. *)
Definition error := option string.

(** [strings.HasPrefix(s, prefix)]. *)
Definition HasPrefix (s prefix : string) : bool := String.prefix prefix s.

(** [strings.Contains(s, substr)]: some suffix of [s] starts with [substr]. *)
Fixpoint Contains (s substr : string) : bool :=
  String.prefix substr s ||
  match s with
  | EmptyString => false
  | String _ s' => Contains s' substr
  end.

(** [strings.Join(elems, sep)]. *)
Fixpoint Join (elems : list string) (sep : string) : string :=
  match elems with
  | [] => ""
  | [x] => x
  | x :: rest => x +:+ sep +:+ Join rest sep
  end.

(** [strings.Split(s, sep)] for a one-byte separator: the fields between
    consecutive separators, always at least one field. *)
Fixpoint SplitGo (sep : ascii) (cur : string) (s : string) : list string :=
  match s with
  | EmptyString => [String.rev cur]
  | String c s' =>
      if Ascii.eqb c sep then String.rev cur :: SplitGo sep EmptyString s'
      else SplitGo sep (String c cur) s'
  end.
Definition Split (s : string) (sep : ascii) : list string :=
  SplitGo sep EmptyString s.

(** [unicode.IsSpace], by the UTF-8 encoding of the rune.  One byte:
    [\t], [\n], [\v], [\f], [\r] and the space. *)
Definition isSpace (c : ascii) : bool := Ascii.is_space c.

(** Two bytes: U+0085 (C2 85) and U+00A0 (C2 A0). *)
Definition isSpace2 (a b : ascii) : bool :=
  Ascii.eqb a "194" && (Ascii.eqb b "133" || Ascii.eqb b "160").

(** Three bytes: U+1680 (E1 9A 80), U+2000 to U+200A (E2 80 80 to
    E2 80 8A), U+2028, U+2029 and U+202F (E2 80 A8, A9 and AF), U+205F
    (E2 81 9F) and U+3000 (E3 80 80). *)
Definition isSpace3 (a b c : ascii) : bool :=
  (Ascii.eqb a "225" && Ascii.eqb b "154" && Ascii.eqb c "128")
  || (Ascii.eqb a "226" && Ascii.eqb b "128"
      && ((128 <=? N_of_ascii c)%N && (N_of_ascii c <=? 138)%N
          || Ascii.eqb c "168" || Ascii.eqb c "169" || Ascii.eqb c "175"))
  || (Ascii.eqb a "226" && Ascii.eqb b "129" && Ascii.eqb c "159")
  || (Ascii.eqb a "227" && Ascii.eqb b "128" && Ascii.eqb c "128").

(** The leading runes of one, two or three bytes that [one], [two] or
    [three] accepts are removed. *)
Fixpoint TrimLeftRunes (one : ascii -> bool) (two : ascii -> ascii -> bool)
    (three : ascii -> ascii -> ascii -> bool) (s : string) : string :=
  match s with
  | String a s1 =>
      if one a then TrimLeftRunes one two three s1
      else
        match s1 with
        | String b s2 =>
            if two a b then TrimLeftRunes one two three s2
            else
              match s2 with
              | String c s3 =>
                  if three a b c then TrimLeftRunes one two three s3 else s
              | EmptyString => s
              end
        | EmptyString => s
        end
  | EmptyString => s
  end.

Fixpoint TrimLeftFunc (f : ascii -> bool) (s : string) : string :=
  match s with
  | EmptyString => EmptyString
  | String c s' => if f c then TrimLeftFunc f s' else s
  end.
Definition TrimRightFunc (f : ascii -> bool) (s : string) : string :=
  String.rev (TrimLeftFunc f (String.rev s)).

(** [strings.TrimSpace(s)]: the leading and the trailing white space
    of [unicode.IsSpace] is removed.  Bytes that are not the encoding of
    a rune decode to U+FFFD, which is no white space; at the end of the
    string a white-space rune is decoded exactly when its encoding ends
    the string, so the trailing runes are matched on the reversed
    bytes. *)
Definition TrimSpace (s : string) : string :=
  let s := TrimLeftRunes isSpace isSpace2 isSpace3 s in
  String.rev
    (TrimLeftRunes isSpace (fun b a => isSpace2 a b) (fun c b a => isSpace3 a b c)
       (String.rev s)).

(** [ss.SkipSpace] of package fmt, as [Sscanf] uses it: white space is
    passed over and a newline is an error ([None]). *)
Fixpoint SkipSpace (s : string) : option string :=
  match s with
  | String a s1 =>
      if Ascii.eqb a "010" then None
      else if isSpace a then SkipSpace s1
      else
        match s1 with
        | String b s2 =>
            if isSpace2 a b then SkipSpace s2
            else
              match s2 with
              | String c s3 => if isSpace3 a b c then SkipSpace s3 else Some s
              | EmptyString => Some s
              end
        | EmptyString => Some s
        end
  | EmptyString => Some s
  end.

Definition isDigit (c : ascii) : bool :=
  (48 <=? N_of_ascii c)%N && (N_of_ascii c <=? 57)%N.

(** The value of the decimal digits at the head of [s]. *)
Fixpoint scanNumber (acc : Z) (s : string) : Z :=
  match s with
  | String c s' =>
      if isDigit c then scanNumber (10 * acc + (Z.of_N (N_of_ascii c) - 48)) s'
      else acc
  | EmptyString => acc
  end.

(** [strings.TrimRight(s, cutset)] for a one-byte cutset. *)
Definition TrimRight (s : string) (cut : ascii) : string :=
  TrimRightFunc (Ascii.eqb cut) s.

(** [fmt.Sprintf("%d", z)]. *)
Definition fmt_d (z : Z) : string := NilZero.string_of_int (Z.to_int z).

(** [fmt.Sprintf("%t", b)]. *)
Definition fmt_t (b : bool) : string := if b then "true" else "false".

Definition hexDigit (n : N) : ascii :=
  match n with
  | 0 => "0" | 1 => "1" | 2 => "2" | 3 => "3" | 4 => "4" | 5 => "5"
  | 6 => "6" | 7 => "7" | 8 => "8" | 9 => "9" | 10 => "a" | 11 => "b"
  | 12 => "c" | 13 => "d" | 14 => "e" | _ => "f"
  end%N%char.

(** [fmt.Sprintf("%x", bytes)]: two lower-case hex digits per byte. *)
Fixpoint fmt_x (bs : list N) : string :=
  match bs with
  | [] => ""
  | b :: rest =>
      String (hexDigit (N.shiftr b 4)) (String (hexDigit (N.land b 15)) (fmt_x rest))
  end.

(** [sort.Strings]: ascending byte-wise order.  The order is total and
    antisymmetric, so the sorted arrangement of a slice is unique and any
    sorting algorithm computes it. *)
Definition sortStrings (l : list string) : list string :=
  merge_sort String.le l.

(** Go's zero value when reading an absent key of a [map[K]bool]. *)
Definition mapGet `{Countable K} (m : gmap K bool) (k : K) : bool :=
  default false (m !! k).

End Go.

(* ===================================================================== *)
(** ** crypto/sha1 *)
(* ===================================================================== *)

Module SHA1.
Local Open Scope N_scope.

Definition w32 (x : N) : N := N.land x 0xFFFFFFFF.
Definition add32 (x y : N) : N := w32 (x + y).
Definition rotl (n x : N) : N :=
  w32 (N.lor (N.shiftl x n) (N.shiftr x (32 - n))).
Definition not32 (x : N) : N := N.lxor x 0xFFFFFFFF.

(** Big-endian encoding of [x] on [n] bytes. *)
Fixpoint bytesBE (n : nat) (x : N) : list N :=
  match n with
  | O => []
  | S n' => N.land (N.shiftr x (8 * N.of_nat n')) 0xFF :: bytesBE n' x
  end.

(** Message padding: 0x80, zeros up to 56 mod 64, then the bit length. *)
Definition pad (msg : list N) : list N :=
  let len := N.of_nat (List.length msg) in
  let zeros := N.to_nat ((119 - len mod 64) mod 64) in
  msg ++ [0x80] ++ repeat 0 zeros ++ bytesBE 8 (8 * len).

Fixpoint words (fuel : nat) (bs : list N) : list N :=
  match fuel, bs with
  | S f, b0 :: b1 :: b2 :: b3 :: rest =>
      (N.shiftl b0 24 + N.shiftl b1 16 + N.shiftl b2 8 + b3) :: words f rest
  | _, _ => []
  end.

(** Message schedule: [w] holds the words computed so far, newest first. *)
Fixpoint schedule (n : nat) (w : list N) : list N :=
  match n with
  | O => w
  | S n' =>
      let x := N.lxor (N.lxor (nth 2 w 0) (nth 7 w 0))
                      (N.lxor (nth 13 w 0) (nth 15 w 0)) in
      schedule n' (rotl 1 x :: w)
  end.

Definition digest : Type := N * N * N * N * N.

Definition round (t : nat) (st : digest) (wt : N) : digest :=
  let '(a, b, c, d, e) := st in
  let '(f, k) :=
    if (t <? 20)%nat then
      (N.lor (N.land b c) (N.land (not32 b) d), 0x5A827999)
    else if (t <? 40)%nat then
      (N.lxor (N.lxor b c) d, 0x6ED9EBA1)
    else if (t <? 60)%nat then
      (N.lor (N.lor (N.land b c) (N.land b d)) (N.land c d), 0x8F1BBCDC)
    else
      (N.lxor (N.lxor b c) d, 0xCA62C1D6) in
  let tmp := add32 (add32 (add32 (add32 (rotl 5 a) f) e) k) wt in
  (tmp, a, rotl 30 b, c, d).

Fixpoint rounds (t : nat) (ws : list N) (st : digest) : digest :=
  match ws with
  | [] => st
  | wt :: rest => rounds (S t) rest (round t st wt)
  end.

Definition block (h : digest) (blk : list N) : digest :=
  let ws := List.rev (schedule 64 (List.rev (words 16 blk))) in
  let '(h0, h1, h2, h3, h4) := h in
  let '(a, b, c, d, e) := rounds 0 ws h in
  (add32 h0 a, add32 h1 b, add32 h2 c, add32 h3 d, add32 h4 e).

Fixpoint blocks (fuel : nat) (h : digest) (bs : list N) : digest :=
  match fuel with
  | O => h
  | S f =>
      match bs with
      | [] => h
      | _ => blocks f (block h (firstn 64 bs)) (skipn 64 bs)
      end
  end.

Definition init : digest :=
  (0x67452301, 0xEFCDAB89, 0x98BADCFE, 0x10325476, 0xC3D2E1F0).

(** [sha1.Sum(data)]: the 20 digest bytes. *)
Definition Sum (data : list N) : list N :=
  let p := pad data in
  let '(h0, h1, h2, h3, h4) := blocks (List.length p) init p in
  bytesBE 4 h0 ++ bytesBE 4 h1 ++ bytesBE 4 h2 ++ bytesBE 4 h3 ++ bytesBE 4 h4.

(** [[]byte(s)]. *)
Definition bytesOfString (s : string) : list N :=
  List.map N_of_ascii (list_ascii_of_string s).

End SHA1.

(* ===================================================================== *)
(** ** internal/core/domain *)
(* ===================================================================== *)

Module domain.

(** A PostgreSQL database connection for Bucardo. *)
Record Database := {
  ID : Z;
  DBName : string;
  Host : string;
  User : string;
  Pass : string;
  Port : option Z;
}.

(** A Bucardo synchronization task. *)
Record Sync := {
  Name : string;
  Sources : list Z;
  Targets : list Z;
  Bidirectional : list Z;
  Herd : string;
  Tables : string;
  Onetimecopy : Z;
  StrictChecking : option bool;
  ExitOnComplete : option bool;
  ExitOnCompleteTimeout : option Z;
  ConflictStrategy : string;
}.

(** Top-level structure of bucardo.json. *)
Record BucardoConfig := {
  Databases : list Database;
  Syncs : list Sync;
  LogLevel : string;
}.

End domain.
Import domain.

(* ===================================================================== *)
(** ** Service.validateConfig *)
(* ===================================================================== *)

Module validator.

(** One constructor per [fmt.Errorf] site of [validateConfig]. *)
Inductive ValidationError :=
| ErrDuplicateDatabaseID (id : Z)
| ErrMissingName
| ErrDuplicateSyncName (name : string)
| ErrBidirectionalTooFew (name : string)
| ErrBidirectionalUndefinedDb (name : string) (id : Z)
| ErrBidirectionalStaticStrategy (name strategy : string)
| ErrNoSource (name : string)
| ErrNoTarget (name : string)
| ErrNoHerdOrTables (name : string)
| ErrInvalidStrategy (name strategy : string).

(** [err.Error()].  The last message prints the keys of a Go map, whose
    iteration order is chosen by the runtime: [validKeys] is that order. *)
Definition Error (validKeys : list string) (e : ValidationError) : string :=
  match e with
  | ErrDuplicateDatabaseID id =>
      "database ID " +:+ Go.fmt_d id +:+ " is duplicated"
  | ErrMissingName =>
      "a sync is missing the required 'name' property"
  | ErrDuplicateSyncName n =>
      "sync name '" +:+ n +:+ "' is duplicated"
  | ErrBidirectionalTooFew n =>
      "sync '" +:+ n +:+ "': 'bidirectional' requires at least two database IDs"
  | ErrBidirectionalUndefinedDb n id =>
      "sync '" +:+ n +:+ "': 'bidirectional' database ID " +:+ Go.fmt_d id
        +:+ " is not defined in the 'databases' list"
  | ErrBidirectionalStaticStrategy n cs =>
      "sync '" +:+ n +:+ "': invalid conflict_strategy '" +:+ cs
        +:+ "' for a bidirectional sync. Use 'bucardo_latest' instead"
  | ErrNoSource n =>
      "sync '" +:+ n +:+ "': must have at least one source"
  | ErrNoTarget n =>
      "sync '" +:+ n +:+ "': must have at least one target"
  | ErrNoHerdOrTables n =>
      "sync '" +:+ n +:+ "': must define either 'herd' or 'tables'"
  | ErrInvalidStrategy n cs =>
      "sync '" +:+ n +:+ "': invalid conflict_strategy '" +:+ cs
        +:+ "'. Must be one of: [" +:+ Go.Join validKeys " " +:+ "]"
  end.

Definition validStrategies : gmap string bool :=
  list_to_map
    [("bucardo_source", true); ("bucardo_target", true); ("bucardo_skip", true);
     ("bucardo_random", true); ("bucardo_latest", true); ("bucardo_abort", true)].

(** First loop: duplicate database identities. *)
Definition validateDatabase (st : list ValidationError * gmap Z bool)
    (db : Database) : list ValidationError * gmap Z bool :=
  let '(errors, dbIDs) := st in
  let errors :=
    if Go.mapGet dbIDs (ID db) then errors ++ [ErrDuplicateDatabaseID (ID db)]
    else errors in
  (errors, <[ID db := true]> dbIDs).

(** The inner loop over the ids of a bidirectional sync. *)
Definition checkBidirectionalIDs (dbIDs : gmap Z bool) (name : string)
    (errors : list ValidationError) (ids : list Z) : list ValidationError :=
  foldl (fun errors id =>
           if negb (Go.mapGet dbIDs id)
           then errors ++ [ErrBidirectionalUndefinedDb name id]
           else errors) errors ids.

(** Body of the second loop, one sync. *)
Definition validateSync (dbIDs : gmap Z bool)
    (st : list ValidationError * gmap string bool)
    (sync : Sync) : list ValidationError * gmap string bool :=
  let '(errors, syncNames) := st in
  if String.eqb (Name sync) "" then
    (* continue: this sync cannot be validated further *)
    (errors ++ [ErrMissingName], syncNames)
  else
    let errors :=
      if Go.mapGet syncNames (Name sync)
      then errors ++ [ErrDuplicateSyncName (Name sync)] else errors in
    let syncNames := <[Name sync := true]> syncNames in
    let errors :=
      if (0 <? length (Bidirectional sync))%nat then
        let errors :=
          if (length (Bidirectional sync) <? 2)%nat
          then errors ++ [ErrBidirectionalTooFew (Name sync)] else errors in
        let errors :=
          checkBidirectionalIDs dbIDs (Name sync) errors (Bidirectional sync) in
        if String.eqb (ConflictStrategy sync) "bucardo_source"
           || String.eqb (ConflictStrategy sync) "bucardo_target"
        then errors ++ [ErrBidirectionalStaticStrategy (Name sync) (ConflictStrategy sync)]
        else errors
      else
        let errors :=
          if (length (Sources sync) =? 0)%nat
          then errors ++ [ErrNoSource (Name sync)] else errors in
        let errors :=
          if (length (Targets sync) =? 0)%nat
          then errors ++ [ErrNoTarget (Name sync)] else errors in
        if String.eqb (Herd sync) "" && String.eqb (Tables sync) ""
        then errors ++ [ErrNoHerdOrTables (Name sync)] else errors in
    let errors :=
      if negb (String.eqb (ConflictStrategy sync) "") then
        if negb (Go.mapGet validStrategies (ConflictStrategy sync))
        then errors ++ [ErrInvalidStrategy (Name sync) (ConflictStrategy sync)]
        else errors
      else errors in
    (errors, syncNames).

Definition validateConfig (config : BucardoConfig) : list ValidationError :=
  let '(errors, dbIDs) := foldl validateDatabase ([], ∅) (Databases config) in
  fst (foldl (validateSync dbIDs) (errors, ∅) (Syncs config)).

End validator.
Import validator.

(* ===================================================================== *)
(** ** internal/core/ports *)
(* ===================================================================== *)

Module ports.

(** The calls the service can make on its outbound ports
    ([BucardoExecutor] and [CredentialManager]), with their arguments. *)
Inductive Call :=
| CInstallBucardo (dbname host user pass : string)
| CEnsureBucardoUserPassword
    (dbhost dbuser dbpass bucardoUser bucardoPass : string) (dbport : Z)
| CSetLogLevel (level : string)
| CListDatabases
| CDatabaseExists (dbName : string)
| CRemoveDatabase (dbName : string)
| CListSyncs
| CSyncExists (syncName : string)
| CGetSyncRelgroup (syncDetailsOutput : string)
| CGetSyncTables (relgroupName : string)
| CRemoveSyncAndRelgroup
    (syncName relgroupName dbHost dbUser dbPass : string) (dbPort : Z)
| CExecuteBucardoCommand (args : list string)
| CStartBucardo
| CStopBucardo
| CSetupPgpass (dbs : list Database)
| CCleanupPgpass.

(** Go result tuple of each call. *)
Definition Resp (c : Call) : Type :=
  match c with
  | CListDatabases | CListSyncs | CGetSyncTables _ => (list string * Go.error)%type
  | CDatabaseExists _ => (bool * Go.error)%type
  | CSyncExists _ => (bool * string * Go.error)%type
  | CGetSyncRelgroup _ => (string * Go.error)%type
  | _ => Go.error
  end.

(** An implementation of the ports over an engine state [E]: every call
    answers and moves the engine to a new state. *)
Class Ports (E : Type) := perform : forall c : Call, E -> Resp c * E.

(** Content of the configuration file. *)
Inductive ConfigFile :=
| FileMissing
| FileMalformed
| FileContent (config : BucardoConfig).

(** What the service runs against. *)
Record World (E : Type) := {
  engine : E;                       (* the replication engine and credential store *)
  trace : list Call;                (* port calls made so far, oldest first *)
  configFile : ConfigFile;          (* bucardo.json *)
  writable : bool;                  (* whether bucardo.json can be written *)
  environ : string -> option string;    (* process environment *)
  validKeysOrder : list string;     (* runtime's iteration order of validStrategies *)
  tailStart : Go.error;             (* the error of starting tail -F on the log, if any *)
}.
Arguments engine {E}. Arguments trace {E}. Arguments configFile {E}.
Arguments writable {E}. Arguments environ {E}. Arguments validKeysOrder {E}.
Arguments tailStart {E}.

End ports.
Import ports.

(* ===================================================================== *)
(** ** Computations against the ports *)
(* ===================================================================== *)

Module effects.
Section effects.
Context {E : Type} `{!Ports E}.

(** Computations of the service: they read and change the world. *)
Definition M (A : Type) : Type := World E -> A * World E.

Definition ret {A} (a : A) : M A := fun w => (a, w).
Definition bind {A B} (m : M A) (k : A -> M B) : M B :=
  fun w => let '(a, w') := m w in k a w'.

(** The world after the engine has answered call [c] and moved to [e']. *)
Definition record (c : Call) (e' : E) (w : World E) : World E :=
  {| engine := e'; trace := trace w ++ [c]; configFile := configFile w;
     writable := writable w; environ := environ w;
     validKeysOrder := validKeysOrder w; tailStart := tailStart w |}.

(** A call on a port: recorded in the trace and answered by the engine. *)
Definition call (c : Call) : M (Resp c) :=
  fun w => let '(r, e') := perform c (engine w) in (r, record c e' w).

Definition getWorld : M (World E) := fun w => (w, w).

Definition setConfigFile (f : ConfigFile) : M unit :=
  fun w =>
    (tt, {| engine := engine w; trace := trace w; configFile := f;
            writable := writable w; environ := environ w;
            validKeysOrder := validKeysOrder w; tailStart := tailStart w |}).

#[local] Notation "'let*' p ':=' m 'in' k" := (bind m (fun p => k))
  (at level 10, p pattern, m at level 100, k at level 200).

(** [for _, x := range l { ... }] whose body may return an error from
    the enclosing function. *)
Fixpoint forRange {A} (l : list A) (body : A -> M Go.error) : M Go.error :=
  match l with
  | [] => ret None
  | x :: rest =>
      let* err := body x in
      match err with
      | Some e => ret (Some e)
      | None => forRange rest body
      end
  end.

End effects.
Arguments M : clear implicits.

Notation "'let*' p ':=' m 'in' k" := (bind m (fun p => k))
  (at level 10, p pattern, m at level 100, k at level 200).
End effects.
Import effects.

(* ===================================================================== *)
(** ** internal/adapters/bucardo/cli.go *)
(* ===================================================================== *)

Module cli.

(** A match of the regular expression `pass=[^ ]+` starts at the head of
    [cmd]: the bytes "pass=" followed by at least one byte that is not a
    space. *)
Definition startsMatch (cmd : string) : bool :=
  String.prefix "pass=" cmd
  && match String.get 5 cmd with
     | Some v => negb (Ascii.eqb v " ")
     | None => false
     end.

(** Automaton of [regexp.MustCompile(`pass=[^ ]+`).ReplaceAllString(cmd,
    "pass=*****")].  Matches are found leftmost and are greedy.  While
    scanning ([inMatch = false]) a match that starts at the current byte
    emits the replacement, any other byte is copied.  Inside a match
    ([inMatch = true]) bytes are dropped up to the next space, which
    ends the match and is copied ("pass=" itself holds no space, so
    dropping starts at its second byte). *)
Fixpoint redactGo (inMatch : bool) (cmd : string) : string :=
  match cmd with
  | EmptyString => EmptyString
  | String c rest =>
      if inMatch then
        if Ascii.eqb c " " then String c (redactGo false rest)
        else redactGo true rest
      else if startsMatch cmd then "pass=*****" +:+ redactGo true rest
      else String c (redactGo false rest)
  end.

(** [redactPassword] replaces the password in a command string with
    asterisks. *)
Definition redactPassword (cmd : string) : string := redactGo false cmd.

(** The text [runBucardoCommand] hands to the logger for [args]:
    [runCommand] receives [bucardoCmd + " " + strings.Join(args, " ")] as
    [logCmd] and logs [redactPassword(logCmd)]. *)
Definition loggedCommand (bucardoCmd : string) (args : list string) : string :=
  redactPassword (bucardoCmd +:+ " " +:+ Go.Join args " ").

(** [GetSyncTables], after the regular expression has produced its
    matches: [submatches] are the captured groups [match[1]] in order. *)
Definition tablesOfMatches (submatches : list string) : list string :=
  let tables :=
    foldl (fun tables m =>
             let tableName := Go.TrimRight m "," in
             let tableName := Go.TrimSpace (hd "" (Go.Split tableName "(")) in
             if negb (String.eqb tableName "") then tables ++ [tableName]
             else tables) [] submatches in
  Go.sortStrings tables.

End cli.

(* ===================================================================== *)
(** ** internal/adapters/postgres: PgpassManager *)
(* ===================================================================== *)

Module postgres.

(** [os.Getenv]: the empty string when the variable is unset. *)
Definition Getenv (environ : string -> option string) (key : string) : string :=
  default "" (environ key).

(** [PgpassManager.getDbPassword]. *)
Definition getDbPassword (environ : string -> option string) (db : Database)
  : string * Go.error :=
  if String.eqb (Pass db) "env" then
    let envVar := "BUCARDO_DB" +:+ Go.fmt_d (ID db) in
    let password := Getenv environ envVar in
    if String.eqb password "" then
      ("", Some ("environment variable " +:+ envVar +:+ " not set for db id "
                 +:+ Go.fmt_d (ID db)))
    else (password, None)
  else (Pass db, None).

End postgres.

(* ===================================================================== *)
(** ** internal/adapters/bucardo/monitor.go *)
(* ===================================================================== *)

Module monitor.

(** What the [select] statements of the monitor can receive. *)
Inductive Event :=
| LogLine (line : string)     (* lineChan delivers a line *)
| LogClosed                   (* lineChan is closed *)
| TimeoutElapsed              (* timeoutChannel fires *)
| ContextDone                 (* ctx.Done() *)
| SignalReceived.             (* SIGINT or SIGTERM on sigChan *)

Inductive MonitorState :=
| Watching (runOnceSyncs : gmap string bool)  (* the loop of MonitorSyncs *)
| SteadyState                                 (* inside MonitorBucardo *)
| Returned                                    (* the monitor has returned *)
| Exited (code : Z).                          (* os.Exit(code) *)

(** Values fixed by [MonitorSyncs] before its loop. *)
Record Setup := {
  allSyncsAreRunOnce : bool;
  timeoutChannel : option Z;   (* [None]: the nil channel, never ready *)
}.

Definition setup (config : BucardoConfig) (runOnceSyncs : gmap string bool)
    (maxTimeout : option Z) : Setup :=
  {| allSyncsAreRunOnce := (length (Syncs config) =? size runOnceSyncs)%nat;
     timeoutChannel :=
       match maxTimeout with
       | Some t => if 0 <? t then Some t else None
       | None => None
       end |}.

Section monitor.
Context {E : Type} `{!Ports E}.

(** [stopBucardoFunc] as [Service.Run] builds it: a failure is logged. *)
Definition stopBucardoFunc : M E unit :=
  let* _ := call CStopBucardo in ret tt.

(** The [select] of [MonitorBucardo].  Log lines are only republished
    by the goroutine of [streamBucardoLog]. *)
Definition monitorBucardoEvent (ev : Event) : M E MonitorState :=
  match ev with
  | SignalReceived | ContextDone => let* _ := stopBucardoFunc in ret Returned
  | LogLine _ | LogClosed | TimeoutElapsed => ret SteadyState
  end.

(** Body of [for syncName := range runOnceSyncs] on a completion line. *)
Definition checkCompletion (line : string) (runOnceSyncs : gmap string bool)
    (syncName : string) : M E (gmap string bool) :=
  if Go.Contains line ("KID (" +:+ syncName +:+ ")") then
    (* a failed stop is logged only *)
    let* _ := call (CExecuteBucardoCommand ["stop"; syncName]) in
    ret (delete syncName runOnceSyncs)
  else ret runOnceSyncs.

(** The range loop visits every key the map holds when the loop starts
    (the body deletes the current key only); Go leaves the order of
    the visits unspecified, [keys] is the order taken. *)
Fixpoint rangeRunOnce (line : string) (keys : list string)
    (runOnceSyncs : gmap string bool) : M E (gmap string bool) :=
  match keys with
  | [] => ret runOnceSyncs
  | syncName :: rest =>
      let* runOnceSyncs := checkCompletion line runOnceSyncs syncName in
      rangeRunOnce line rest runOnceSyncs
  end.

(** One iteration of the loop of [MonitorSyncs]. *)
Definition monitorSyncsEvent (s : Setup) (runOnceSyncs : gmap string bool)
    (ev : Event) : M E MonitorState :=
  match ev with
  | LogClosed => ret Returned
  | LogLine line =>
      let* runOnceSyncs :=
        (if Go.Contains line "Reason: Normal exit"
         then rangeRunOnce line (map fst (map_to_list runOnceSyncs)) runOnceSyncs
         else ret runOnceSyncs) in
      if (size runOnceSyncs =? 0)%nat then
        if allSyncsAreRunOnce s then
          let* _ := stopBucardoFunc in ret Returned
        else ret SteadyState  (* m.MonitorBucardo(ctx, stopBucardoFunc) *)
      else ret (Watching runOnceSyncs)
  | TimeoutElapsed =>
      match timeoutChannel s with
      | Some _ => let* _ := stopBucardoFunc in ret (Exited 1)
      | None => ret (Watching runOnceSyncs)   (* never received *)
      end
  | ContextDone => let* _ := stopBucardoFunc in ret Returned
  | SignalReceived => ret (Watching runOnceSyncs)  (* not selected on *)
  end.

Definition onEvent (s : Setup) (st : MonitorState) (ev : Event) : M E MonitorState :=
  match st with
  | Watching runOnceSyncs => monitorSyncsEvent s runOnceSyncs ev
  | SteadyState => monitorBucardoEvent ev
  | Returned | Exited _ => ret st
  end.

Fixpoint runEvents (s : Setup) (st : MonitorState) (events : list Event)
  : M E MonitorState :=
  match events with
  | [] => ret st
  | ev :: rest => let* st := onEvent s st ev in runEvents s st rest
  end.

(** [MonitorSyncs], fed with the events its loop receives.  When the
    pipe of the tail command cannot be created or the command cannot be
    started, the process exits with status 1 before the loop, and
    [stopBucardoFunc] is not called. *)
Definition MonitorSyncs (config : BucardoConfig) (runOnceSyncs : gmap string bool)
    (maxTimeout : option Z) (events : list Event) : M E MonitorState :=
  let* w := getWorld in
  match tailStart w with
  | Some _ => ret (Exited 1)   (* os.Exit(1) *)
  | None =>
      runEvents (setup config runOnceSyncs maxTimeout) (Watching runOnceSyncs) events
  end.

(** [MonitorBucardo], fed with the events its [select] receives. *)
Definition MonitorBucardo (events : list Event) : M E MonitorState :=
  runEvents {| allSyncsAreRunOnce := false; timeoutChannel := None |}
            SteadyState events.

End monitor.
End monitor.
Import monitor.

(* ===================================================================== *)
(** ** internal/core/services/orchestrator *)
(* ===================================================================== *)

Module orchestrator.

Definition configPath : string := "/media/bucardo/bucardo.json".

(** The copy of [getDbPassword] in the orchestrator package. *)
Definition getDbPassword (environ : string -> option string) (db : Database)
  : string * Go.error :=
  if String.eqb (Pass db) "env" then
    let envVar := "BUCARDO_DB" +:+ Go.fmt_d (ID db) in
    let password := postgres.Getenv environ envVar in
    if String.eqb password "" then
      ("", Some ("environment variable " +:+ envVar +:+ " not set for db id "
                 +:+ Go.fmt_d (ID db)))
    else (password, None)
  else (Pass db, None).

(** [var n int; fmt.Sscanf(s, "%d", &n)]: leading white space is
    skipped, then an optional sign and the decimal digits up to the
    first other byte are read; what follows them is ignored.  [n] keeps
    its zero value when the scan fails: on a newline in the leading
    white space, when no digit follows, and when the number does not
    fit 64 bits. *)
Definition Sscanf_d (s : string) : Z :=
  match Go.SkipSpace s with
  | None => 0
  | Some s =>
      let '(negative, digits) :=
        match s with
        | String "-" s' => (true, s')
        | String "+" s' => (false, s')
        | _ => (false, s)
        end in
      match digits with
      | String c _ =>
          if Go.isDigit c then
            let n := Go.scanNumber 0 digits in
            let n := if negative then - n else n in
            if (- 2 ^ 63 <=? n) && (n <=? 2 ^ 63 - 1) then n else 0
          else 0
      | EmptyString => 0
      end
  end.

(** The table list of the configuration, as compared with the engine's:
    split on commas, each entry trimmed, then sorted. *)
Definition configTables (sync : Sync) : list string :=
  Go.sortStrings (map Go.TrimSpace (Go.Split (Tables sync) ",")).

(** Role-annotated members of a source/target sync, sources first
    ([dbStrings]; [memberNames] before it is sorted). *)
Definition memberNames (sync : Sync) : list string :=
  map (fun sourceID => "db" +:+ Go.fmt_d sourceID +:+ ":source") (Sources sync)
  ++ map (fun targetID => "db" +:+ Go.fmt_d targetID +:+ ":target") (Targets sync).

(** What is hashed: the sorted members joined by commas. *)
Definition memberKey (sync : Sync) : string :=
  Go.Join (Go.sortStrings (memberNames sync)) ",".

(** [dbgroupName] of the sync: "bg_<name>" when bidirectional, otherwise
    "sg_<name>_<first four bytes of the SHA-1 of the member key, in hex>". *)
Definition dbgroupName (sync : Sync) : string :=
  if (0 <? length (Bidirectional sync))%nat then "bg_" +:+ Name sync
  else
    let hash := SHA1.Sum (SHA1.bytesOfString (memberKey sync)) in
    "sg_" +:+ Name sync +:+ "_" +:+ Go.fmt_x (firstn 4 hash).

(** Run-once syncs and the largest timeout among them ([Service.Run]). *)
Definition runOnceStep (st : gmap string bool * option Z) (sync : Sync)
  : gmap string bool * option Z :=
  let '(runOnceSyncs, maxTimeout) := st in
  match ExitOnComplete sync with
  | Some true =>
      (<[Name sync := true]> runOnceSyncs,
       match ExitOnCompleteTimeout sync with
       | Some t =>
           match maxTimeout with
           | None => Some t
           | Some cur => if cur <? t then Some t else maxTimeout
           end
       | None => maxTimeout
       end)
  | _ => st
  end.

Definition runOnceOf (config : BucardoConfig) : gmap string bool * option Z :=
  foldl runOnceStep (∅, None) (Syncs config).

Section service.
Context {E : Type} `{!Ports E}.

(** [getEnv(key, fallback)]. *)
Definition getEnv (key fallback : string) : M E string :=
  let* w := getWorld in ret (default fallback (environ w key)).

(** [JSONProvider.LoadConfig]. *)
Definition LoadConfig : M E (option BucardoConfig * Go.error) :=
  let* w := getWorld in
  match configFile w with
  | FileMissing => ret (None, Some ("failed to open " +:+ configPath))
  | FileMalformed => ret (None, Some ("failed to parse " +:+ configPath))
  | FileContent config => ret (Some config, None)
  end.

(** [JSONProvider.SaveConfig]. *)
Definition SaveConfig (config : BucardoConfig) : M E Go.error :=
  let* w := getWorld in
  if writable w then let* _ := setConfigFile (FileContent config) in ret None
  else ret (Some ("failed to write to " +:+ configPath)).

(** *** Administrative operations on the stored configuration *)

Definition UpdateConfig (config : BucardoConfig) : M E Go.error :=
  let* w := getWorld in
  let errs := validateConfig config in
  if (0 <? length errs)%nat then
    ret (Some ("invalid config: ["
               +:+ Go.Join (map (Error (validKeysOrder w)) errs) " " +:+ "]"))
  else SaveConfig config.

Definition ListSyncs : M E (list Sync * Go.error) :=
  let* (config, err) := LoadConfig in
  match config with
  | Some config => ret (Syncs config, None)
  | None => ret ([], err)
  end.

Definition GetSync (name : string) : M E (option Sync * Go.error) :=
  let* (config, err) := LoadConfig in
  match config with
  | None => ret (None, err)
  | Some config =>
      match List.find (fun sync => String.eqb (Name sync) name) (Syncs config) with
      | Some sync => ret (Some sync, None)
      | None => ret (None, Some ("sync not found: " +:+ name))
      end
  end.

Definition AddSync (sync : Sync) : M E Go.error :=
  let* (config, err) := LoadConfig in
  match config with
  | None => ret err
  | Some config =>
      if existsb (fun existing => String.eqb (Name existing) (Name sync))
                 (Syncs config)
      then ret (Some ("sync already exists: " +:+ Name sync))
      else
        UpdateConfig {| Databases := Databases config;
                        Syncs := Syncs config ++ [sync];
                        LogLevel := LogLevel config |}
  end.

(** [updated.Name = name]. *)
Definition withName (name : string) (updated : Sync) : Sync :=
  {| Name := name; Sources := Sources updated; Targets := Targets updated;
     Bidirectional := Bidirectional updated; Herd := Herd updated;
     Tables := Tables updated; Onetimecopy := Onetimecopy updated;
     StrictChecking := StrictChecking updated;
     ExitOnComplete := ExitOnComplete updated;
     ExitOnCompleteTimeout := ExitOnCompleteTimeout updated;
     ConflictStrategy := ConflictStrategy updated |}.

(** The loop of [UpdateSync]: the first sync called [name] is replaced
    and the loop breaks; the flag is [found]. *)
Fixpoint replaceFirst (name : string) (updated : Sync) (syncs : list Sync)
  : list Sync * bool :=
  match syncs with
  | [] => ([], false)
  | sync :: rest =>
      if String.eqb (Name sync) name then (withName name updated :: rest, true)
      else
        let '(rest', found) := replaceFirst name updated rest in
        (sync :: rest', found)
  end.

Definition UpdateSync (name : string) (updated : Sync) : M E Go.error :=
  let* (config, err) := LoadConfig in
  match config with
  | None => ret err
  | Some config =>
      let '(syncs, found) := replaceFirst name updated (Syncs config) in
      if negb found then ret (Some ("sync not found: " +:+ name))
      else
        UpdateConfig {| Databases := Databases config; Syncs := syncs;
                        LogLevel := LogLevel config |}
  end.

Definition DeleteSync (name : string) : M E Go.error :=
  let* (config, err) := LoadConfig in
  match config with
  | None => ret err
  | Some config =>
      let found := existsb (fun sync => String.eqb (Name sync) name) (Syncs config) in
      let newSyncs :=
        List.filter (fun sync => negb (String.eqb (Name sync) name)) (Syncs config) in
      if negb found then ret (Some ("sync not found: " +:+ name))
      else
        UpdateConfig {| Databases := Databases config; Syncs := newSyncs;
                        LogLevel := LogLevel config |}
  end.

(** *** Reconciliation *)

(** Database connection settings of the Bucardo core database. *)
Record Conn := { dbHost : string; dbUser : string; dbPass : string; dbPort : Z }.

Definition RemoveSyncAndRelgroup (syncName relgroupName : string) (c : Conn)
  : M E Go.error :=
  call (CRemoveSyncAndRelgroup syncName relgroupName
          (dbHost c) (dbUser c) (dbPass c) (dbPort c)).

Definition ExecuteBucardoCommand (args : list string) : M E Go.error :=
  call (CExecuteBucardoCommand args).

Definition setLogLevel (config : BucardoConfig) : M E Go.error :=
  if negb (String.eqb (LogLevel config) "") then call (CSetLogLevel (LogLevel config))
  else ret None.

Definition removeOrphanedDbs (config : BucardoConfig) : M E Go.error :=
  let configDbs : gmap string bool :=
    foldl (fun m db => <[("db" +:+ Go.fmt_d (ID db)) := true]> m) ∅
          (Databases config) in
  let* (bucardoDbs, err) := call CListDatabases in
  match err with
  | Some e =>
      ret (Some ("could not list existing Bucardo databases for cleanup: " +:+ e))
  | None =>
      forRange bucardoDbs (fun bucardoDbName =>
        if negb (Go.mapGet configDbs bucardoDbName) then
          (* a failed removal is logged only *)
          let* _ := call (CRemoveDatabase bucardoDbName) in ret None
        else ret None)
  end.

Definition removeOrphanedSyncs (config : BucardoConfig) (c : Conn) : M E Go.error :=
  let configSyncs : gmap string bool :=
    foldl (fun m sync => <[Name sync := true]> m) ∅ (Syncs config) in
  let* (bucardoSyncs, err) := call CListSyncs in
  match err with
  | Some e =>
      ret (Some ("could not list existing Bucardo syncs for cleanup: " +:+ e))
  | None =>
      forRange bucardoSyncs (fun bucardoSyncName =>
        if negb (Go.mapGet configSyncs bucardoSyncName) then
          let* (exists_, syncDetails, err) := call (CSyncExists bucardoSyncName) in
          if bool_decide (err <> None) || negb exists_ then ret None (* continue *)
          else
            let* (relgroupName, err) := call (CGetSyncRelgroup syncDetails) in
            let relgroupName :=
              match err with
              | Some _ => bucardoSyncName (* fallback *)
              | None => relgroupName
              end in
            (* a failed removal is logged only *)
            let* _ := RemoveSyncAndRelgroup bucardoSyncName relgroupName c in
            ret None
        else ret None)
  end.

Definition addDatabasesToBucardo (config : BucardoConfig) : M E Go.error :=
  forRange (Databases config) (fun db =>
    let dbName := "db" +:+ Go.fmt_d (ID db) in
    let* (exists_, err) := call (CDatabaseExists dbName) in
    match err with
    | Some e =>
        ret (Some ("could not check if database exists " +:+ dbName +:+ ": " +:+ e))
    | None =>
        let* w := getWorld in
        let '(password, err) := getDbPassword (environ w) db in
        match err with
        | Some e =>
            ret (Some ("error getting password for db " +:+ Go.fmt_d (ID db)
                       +:+ ": " +:+ e))
        | None =>
            let args :=
              if exists_ then
                ["update"; "db"; dbName;
                 "dbname=" +:+ DBName db; "host=" +:+ Host db;
                 "user=" +:+ User db; "pass=" +:+ password]
              else
                ["add"; "db"; dbName;
                 "dbname=" +:+ DBName db; "host=" +:+ Host db;
                 "user=" +:+ User db; "pass=" +:+ password] in
            let args :=
              match Port db with
              | Some port => args ++ ["port=" +:+ Go.fmt_d port]
              | None => args
              end in
            let* err := ExecuteBucardoCommand args in
            match err with
            | Some e =>
                ret (Some ("failed to modify database " +:+ dbName +:+ ": " +:+ e))
            | None => ret None
            end
        end
    end).

(** First half of the body of the loop of [addSyncsToBucardo], for a
    sync the engine already has: decides [shouldRecreate] and deletes
    the sync when the table lists differ. *)
Definition checkTables (sync : Sync) (syncDetailsOutput : string) (c : Conn)
  : M E (bool * Go.error) :=
  if negb (String.eqb (Tables sync) "") then
    let* (relgroupName, err) := call (CGetSyncRelgroup syncDetailsOutput) in
    let relgroupName :=
      match err with
      | Some _ => Name sync
      | None => relgroupName
      end in
    (* an error of GetSyncTables is logged and the returned slice is
       used as it is *)
    let* (currentTables, _) := call (CGetSyncTables relgroupName) in
    if negb (String.eqb (Go.Join currentTables ",")
                        (Go.Join (configTables sync) ",")) then
      let* err := RemoveSyncAndRelgroup (Name sync) relgroupName c in
      match err with
      | Some e =>
          ret (true, Some ("failed to delete sync for recreation " +:+ Name sync
                           +:+ ": " +:+ e))
      | None => ret (true, None)
      end
    else ret (false, None)
  else ret (false, None).

(** Non-destructive update of an existing sync. *)
Definition updateSync (sync : Sync) : M E Go.error :=
  let updateArgs := ["update"; "sync"; Name sync] in
  let updateArgs :=
    match StrictChecking sync with
    | Some b => updateArgs ++ ["strict_checking=" +:+ Go.fmt_t b]
    | None => updateArgs
    end in
  let updateArgs :=
    if negb (String.eqb (ConflictStrategy sync) "")
    then updateArgs ++ ["conflict_strategy=" +:+ ConflictStrategy sync]
    else updateArgs in
  let* err := ExecuteBucardoCommand updateArgs in
  match err with
  | Some e => ret (Some ("failed to update sync " +:+ Name sync +:+ ": " +:+ e))
  | None => ret None
  end.

(** Second half of the body: the sync is created with its group.  The
    source reads [sync.Sources[0]] for a herd; on an empty slice that
    read panics, which ends the cycle like an error here. *)
Definition addSync (sync : Sync) : M E Go.error :=
  let args := ["add"; "sync"; Name sync;
               "onetimecopy=" +:+ Go.fmt_d (Onetimecopy sync)] in
  let* args :=
    (if (0 <? length (Bidirectional sync))%nat then
       let dbgroupName := dbgroupName sync in
       let dbgroupMembers :=
         map (fun dbID => "db" +:+ Go.fmt_d dbID +:+ ":source") (Bidirectional sync) in
       let* _ := ExecuteBucardoCommand ["del"; "dbgroup"; dbgroupName] in
       let* _ := ExecuteBucardoCommand (["add"; "dbgroup"; dbgroupName] ++ dbgroupMembers) in
       ret (args ++ ["dbs=" +:+ dbgroupName])
     else
       let dbStrings := memberNames sync in
       let dbgroupName := dbgroupName sync in
       let* _ := ExecuteBucardoCommand ["del"; "dbgroup"; dbgroupName] in
       let* _ := ExecuteBucardoCommand (["add"; "dbgroup"; dbgroupName] ++ dbStrings) in
       ret (args ++ ["dbs=" +:+ dbgroupName])) in
  let* args :=
    (if negb (String.eqb (Herd sync) "") then
       match Sources sync with
       | [] => ret (inl "runtime error: index out of range [0] with length 0")
       | source0 :: _ =>
           let sourceDB := "db" +:+ Go.fmt_d source0 in
           let* _ := ExecuteBucardoCommand ["del"; "herd"; Herd sync; "--force"] in
           let* _ := ExecuteBucardoCommand ["add"; "herd"; Herd sync] in
           let* _ := ExecuteBucardoCommand
                       ["add"; "all"; "tables"; "--herd=" +:+ Herd sync;
                        "db=" +:+ sourceDB] in
           ret (inr (args ++ ["herd=" +:+ Herd sync]))
       end
     else if negb (String.eqb (Tables sync) "") then
       ret (inr (args ++ ["tables=" +:+ Tables sync]))
     else ret (inr args)) in
  match args with
  | inl panic => ret (Some panic)
  | inr args =>
      let args :=
        match ExitOnComplete sync with
        | Some true => args ++ ["stayalive=0"; "kidsalive=0"]
        | _ => args
        end in
      let args :=
        match StrictChecking sync with
        | Some b => args ++ ["strict_checking=" +:+ Go.fmt_t b]
        | None => args
        end in
      let args :=
        if negb (String.eqb (ConflictStrategy sync) "")
        then args ++ ["conflict_strategy=" +:+ ConflictStrategy sync]
        else args in
      let* err := ExecuteBucardoCommand args in
      match err with
      | Some e => ret (Some ("failed to add sync " +:+ Name sync +:+ ": " +:+ e))
      | None => ret None
      end
  end.

(** Body of the loop of [addSyncsToBucardo]. *)
Definition reconcileSync (c : Conn) (sync : Sync) : M E Go.error :=
  let* (exists_, syncDetailsOutput, err) := call (CSyncExists (Name sync)) in
  match err with
  | Some e =>
      ret (Some ("could not check sync existence for " +:+ Name sync +:+ ": " +:+ e))
  | None =>
      if exists_ then
        let* (shouldRecreate, err) := checkTables sync syncDetailsOutput c in
        match err with
        | Some e => ret (Some e)
        | None =>
            if negb shouldRecreate then updateSync sync (* continue *)
            else addSync sync
        end
      else addSync sync
  end.

Definition addSyncsToBucardo (config : BucardoConfig) (c : Conn) : M E Go.error :=
  forRange (Syncs config) (reconcileSync c).

(** The part of [ReloadAndRestart] that follows a successful validation. *)
Definition reconcile (config : BucardoConfig) : M E Go.error :=
  (* Stop Bucardo before making changes *)
  let* _ := call CStopBucardo in
  let* dbName := getEnv "BUCARDO_DB_NAME" "bucardo" in
  let* dbHost := getEnv "BUCARDO_DB_HOST" "postgres" in
  let* dbUser := getEnv "BUCARDO_DB_USER" "postgres" in
  let* dbPass := getEnv "BUCARDO_DB_PASS" "changeme" in
  let* dbPortStr := getEnv "BUCARDO_DB_PORT" "5432" in
  let dbPort := Sscanf_d dbPortStr in
  let c := {| dbHost := dbHost; dbUser := dbUser; dbPass := dbPass; dbPort := dbPort |} in
  let systemDB :=
    {| ID := 0; DBName := dbName; Host := dbHost; User := dbName;
       Pass := dbPass; Port := Some dbPort |} in
  let superuserDB :=
    {| ID := -1; DBName := dbName; Host := dbHost; User := dbUser;
       Pass := dbPass; Port := Some dbPort |} in
  let allDBsForPass := [systemDB; superuserDB] ++ Databases config in
  let* err := call (CSetupPgpass allDBsForPass) in
  match err with
  | Some e => ret (Some e)
  | None =>
      (* defer s.creds.CleanupPgpass(ctx) *)
      let* result :=
        (let* _ := call (CEnsureBucardoUserPassword dbHost dbUser dbPass dbName dbPass dbPort) in
         let* err := call (CInstallBucardo dbName dbHost dbUser dbPass) in
         match err with
         | Some e => ret (Some e)
         | None =>
             let* _ := setLogLevel config in
             let* _ := removeOrphanedDbs config in
             let* _ := removeOrphanedSyncs config c in
             let* err := addDatabasesToBucardo config in
             match err with
             | Some e => ret (Some e)
             | None =>
                 let* err := addSyncsToBucardo config c in
                 match err with
                 | Some e => ret (Some e)
                 | None => call CStartBucardo
                 end
             end
         end) in
      let* _ := call CCleanupPgpass in
      ret result
  end.

Definition ReloadAndRestart : M E Go.error :=
  let* w := getWorld in
  match configFile w with
  | FileMissing => ret (Some ("stat " +:+ configPath +:+ ": no such file or directory"))
  | _ =>
      let* (config, err) := LoadConfig in
      match config with
      | None => ret err
      | Some config =>
          if (0 <? length (validateConfig config))%nat
          then ret (Some "configuration validation failed")
          else reconcile config
      end
  end.

(** *** Service.Run and the exit status of the process *)

Definition Run (events : list Event) : M E (Go.error * option MonitorState) :=
  let* err := ReloadAndRestart in
  match err with
  | Some e => ret (Some e, None)
  | None =>
      let* (config, err) := LoadConfig in
      match config with
      | None => ret (err, None)
      | Some config =>
          let '(runOnceSyncs, maxTimeout) := runOnceOf config in
          if (0 <? size runOnceSyncs)%nat then
            let* st := MonitorSyncs config runOnceSyncs maxTimeout events in
            ret (None, Some st)
          else
            let* st := MonitorBucardo events in
            ret (None, Some st)
      end
  end.

End service.

(** Exit status of the process, from what [main] gets back from [Run]:
    an error is status 1, a normal return is status 0, and [os.Exit]
    inside the monitor fixes the status itself.  [None]: still running. *)
Definition exitStatus (r : Go.error * option MonitorState) : option Z :=
  match r with
  | (Some _, _) => Some 1
  | (None, Some (Exited code)) => Some code
  | (None, Some Returned) => Some 0
  | (None, _) => None
  end.

End orchestrator.
Import orchestrator.

(* ===================================================================== *)
(** ** A scripted engine *)
(* ===================================================================== *)

(** An implementation of the ports that answers from a snapshot of the
    engine: the databases it knows and, for each sync, its name, its
    relgroup and the tables of that relgroup.  Removals update the
    snapshot; every other command succeeds and leaves it as it is. *)
Module scripted.

Record Snapshot := {
  dbs : list string;
  syncs : list (string * (string * list string));
}.

Definition findSync (name : string) (e : Snapshot) : option (string * list string) :=
  snd <$> List.find (fun s => String.eqb (fst s) name) (syncs e).

Definition findRelgroup (relgroup : string) (e : Snapshot) : option (list string) :=
  (fun s => snd (snd s)) <$>
    List.find (fun s => String.eqb (fst (snd s)) relgroup) (syncs e).

(** Sync details as printed by the engine, and their parsing. *)
Definition details (relgroup : string) : string := "Relgroup: " +:+ relgroup.
Definition parseRelgroup (out : string) : string * Go.error :=
  if Go.HasPrefix out "Relgroup: "
  then (String.substring 10 (String.length out - 10) out, None)
  else ("", Some "could not find relgroup in sync details").

Definition answer (c : Call) (e : Snapshot) : Resp c * Snapshot :=
  match c return Resp c * Snapshot with
  | CListDatabases => ((dbs e, None), e)
  | CDatabaseExists n => ((existsb (String.eqb n) (dbs e), None), e)
  | CRemoveDatabase n =>
      (None, {| dbs := List.filter (fun d => negb (String.eqb d n)) (dbs e);
                syncs := syncs e |})
  | CListSyncs => ((map fst (syncs e), None), e)
  | CSyncExists n =>
      match findSync n e with
      | Some (relgroup, _) => ((true, details relgroup, None), e)
      | None => ((false, "", None), e)
      end
  | CGetSyncRelgroup out => (parseRelgroup out, e)
  | CGetSyncTables relgroup =>
      match findRelgroup relgroup e with
      | Some tables => ((tables, None), e)
      | None => (([], Some ("failed to list relgroup " +:+ relgroup)), e)
      end
  | CRemoveSyncAndRelgroup n _ _ _ _ _ =>
      (None, {| dbs := dbs e;
                syncs := List.filter (fun s => negb (String.eqb (fst s) n)) (syncs e) |})
  | CInstallBucardo _ _ _ _ => (None, e)
  | CEnsureBucardoUserPassword _ _ _ _ _ _ => (None, e)
  | CSetLogLevel _ => (None, e)
  | CExecuteBucardoCommand _ => (None, e)
  | CStartBucardo => (None, e)
  | CStopBucardo => (None, e)
  | CSetupPgpass _ => (None, e)
  | CCleanupPgpass => (None, e)
  end.

#[export] Instance snapshotPorts : Ports Snapshot := answer.

(** A world with the given engine and configuration file, an empty
    trace and an empty environment, in which the log can be tailed. *)
Definition world (e : Snapshot) (f : ConfigFile) : World Snapshot :=
  {| engine := e; trace := []; configFile := f; writable := true;
     environ := fun _ => None;
     validKeysOrder := ["bucardo_source"; "bucardo_target"; "bucardo_skip";
                        "bucardo_random"; "bucardo_latest"; "bucardo_abort"];
     tailStart := None |}.

End scripted.

(* ===================================================================== *)
(** ** Vocabulary of the specification *)
(* ===================================================================== *)

Module spec.

(** *** Strings *)

(** A string is free of the byte [c]. *)
Fixpoint freeOf (c : ascii) (s : string) : Prop :=
  match s with
  | EmptyString => True
  | String a s' => a <> c /\ freeOf c s'
  end.

(** The bytes of a rendered number are digits and a sign. *)
Definition numeric (c : ascii) : bool :=
  existsb (Ascii.eqb c) ["0"; "1"; "2"; "3"; "4"; "5"; "6"; "7"; "8"; "9"; "-"]%char.

(** *** Members of a group, as the service renders them *)

Definition sourceMember (id : Z) : string := "db" +:+ Go.fmt_d id +:+ ":source".
Definition targetMember (id : Z) : string := "db" +:+ Go.fmt_d id +:+ ":target".

(** Tells a source member from a target member: its last byte. *)
Fixpoint lastByte (s : string) : ascii :=
  match s with
  | EmptyString => "000"%char
  | String c EmptyString => c
  | String _ s' => lastByte s'
  end.

Definition isSource (m : string) : bool := Ascii.eqb (lastByte m) "e".

(** The engine's name of a declared database. *)
Definition dbNameOf (db : Database) : string := "db" +:+ Go.fmt_d (ID db).

(** A call that deletes an entity the configuration does not declare. *)
Definition isOrphanDelete (config : BucardoConfig) (c : Call) : Prop :=
  match c with
  | CRemoveDatabase dbName => ~ In dbName (map dbNameOf (Databases config))
  | CRemoveSyncAndRelgroup syncName _ _ _ _ _ =>
      ~ In syncName (map Name (Syncs config))
  | _ => False
  end.

(** A command of the engine's command line: those are the calls through
    which declared databases and syncs are created and updated, together
    with the group and herd commands of a sync being created. *)
Definition isCommand (c : Call) : Prop :=
  match c with
  | CExecuteBucardoCommand _ => True
  | _ => False
  end.

Section traces.
Context {E : Type} `{!Ports E}.

(** The calls a computation adds to the trace. *)
Definition newCalls {A} (m : M E A) (w : World E) : list Call :=
  drop (length (trace w)) (trace (snd (m w))).

(** Every call [m] makes satisfies [P], and [m] leaves the
    configuration file alone. *)
Definition emits {A} (P : Call -> Prop) (m : M E A) : Prop :=
  forall w, exists calls,
    trace (snd (m w)) = trace w ++ calls /\ Forall P calls
    /\ configFile (snd (m w)) = configFile w.

(** The calls [m] makes fall in two phases: first calls that satisfy
    [P], then calls that satisfy [Q]. *)
Definition phased {A} (P Q : Call -> Prop) (m : M E A) : Prop :=
  forall w, exists first second,
    trace (snd (m w)) = trace w ++ first ++ second
    /\ Forall P first /\ Forall Q second.

End traces.
End spec.
Import spec.

Module monitor_spec.

(** The line names the worker of sync [name]. *)
Definition names (line name : string) : bool :=
  Go.Contains line ("KID (" +:+ name +:+ ")").

(** The pending run-once syncs once [line] has been handled: on a
    completion line the syncs it names are gone. *)
Definition pendingAfter (line : string) (pending : gmap string bool)
  : gmap string bool :=
  if Go.Contains line "Reason: Normal exit"
  then filter (fun kv => names line (fst kv) = false) pending
  else pending.

(** One iteration of the range loop over the pending syncs, as a map
    operation. *)
Definition dropNamed (line : string) (m : gmap string bool) (k : string)
  : gmap string bool :=
  if names line k then delete k m else m.

Definition stopCommand (name : string) : Call :=
  CExecuteBucardoCommand ["stop"; name].

Definition isRunOnce (sync : Sync) : bool :=
  match ExitOnComplete sync with
  | Some true => true
  | _ => false
  end.



End monitor_spec.
Import monitor_spec.

(** The creation of a sync, as calls. *)
Module recreation_spec.

(** The members of the sync's dbgroup as the creation lists them. *)
Definition dbgroupMembers (sync : Sync) : list string :=
  match Bidirectional sync with
  | [] => memberNames sync
  | ids => map (fun dbID => "db" +:+ Go.fmt_d dbID +:+ ":source") ids
  end.



End recreation_spec.
Import recreation_spec.

(* ===================================================================== *)
(** ** Sample configurations and engine states *)
(* ===================================================================== *)

Module sample.

Definition db1 : Database :=
  {| ID := 1; DBName := "app"; Host := "h1"; User := "u"; Pass := "secret";
     Port := Some 5432 |}.
Definition db2 : Database :=
  {| ID := 2; DBName := "app"; Host := "h2"; User := "u"; Pass := "secret";
     Port := None |}.

(** A source/target sync with an explicit table list. *)
Definition sourceTarget (name : string) (sources targets : list Z) (tables : string)
  : Sync :=
  {| Name := name; Sources := sources; Targets := targets; Bidirectional := [];
     Herd := ""; Tables := tables; Onetimecopy := 2; StrictChecking := None;
     ExitOnComplete := None; ExitOnCompleteTimeout := None;
     ConflictStrategy := "" |}.

(** A bidirectional sync. *)
Definition bidirectional (name : string) (ids : list Z) (strategy : string) : Sync :=
  {| Name := name; Sources := []; Targets := []; Bidirectional := ids;
     Herd := ""; Tables := "public.t1"; Onetimecopy := 0; StrictChecking := None;
     ExitOnComplete := None; ExitOnCompleteTimeout := None;
     ConflictStrategy := strategy |}.

(** A run-once source/target sync with an optional timeout. *)
Definition runOnce (name : string) (timeout : option Z) : Sync :=
  {| Name := name; Sources := [1]; Targets := [2]; Bidirectional := [];
     Herd := ""; Tables := "public.t1"; Onetimecopy := 2; StrictChecking := None;
     ExitOnComplete := Some true; ExitOnCompleteTimeout := timeout;
     ConflictStrategy := "" |}.

Definition configOf (syncs : list Sync) : BucardoConfig :=
  {| Databases := [db1; db2]; Syncs := syncs; LogLevel := "" |}.

Definition orders : Sync := sourceTarget "orders" [1] [2] "public.t1, public.t2".

(** The same table listed twice. *)
Definition repeated : Sync := sourceTarget "orders" [1] [2] "public.t1,public.t1".

(** An engine that knows an undeclared database db9 and an undeclared
    sync "stale" besides the declared db1 and "orders". *)
Definition engineWith (ordersTables : list string) : scripted.Snapshot :=
  {| scripted.dbs := ["db9"; "db1"];
     scripted.syncs := [("orders", ("orders", ordersTables));
                        ("stale", ("stale", ["public.x"]))] |}.

Definition conn : Conn :=
  {| dbHost := "postgres"; dbUser := "postgres"; dbPass := "changeme"; dbPort := 5432 |}.

(** A completion line of the engine's log for sync "orders". *)
Definition ordersDone : string :=
  "(4711) [Mon Jan  5 10:00:00 2026] KID (orders) Kid 4711 exiting at cleanup_kid. Reason: Normal exit".

End sample.

(* ===================================================================== *)
(** ** regexp: the fragment used by the command-line adapter *)
(* ===================================================================== *)

Module regexp.

(** The regular expressions of the adapter are sequences of literal
    bytes and of greedy repetitions [c+] of a byte class, with one
    capture group. *)
Inductive Item :=
| Byte (c : ascii)                  (* a literal byte *)
| OneOrMore (cls : ascii -> bool)   (* [cls+], greedy *)
| Open                              (* ( *)
| Close.                            (* ) *)

Definition literal (s : string) : list Item := map Byte (list_ascii_of_string s).

(** [\s]: the bytes [\t\n\f\r ] and no other. *)
Definition space (c : ascii) : bool :=
  existsb (Ascii.eqb c) [" "; "009"; "010"; "012"; "013"]%char.

(** [\S]. *)
Definition nonSpace (c : ascii) : bool := negb (space c).

(** [[^x]]. *)
Definition notByte (x c : ascii) : bool := negb (Ascii.eqb c x).

(** The double quote. *)
Definition quote : ascii := "034"%char.

(** A match is the text of the capture group and the input that
    follows the match. *)
Definition Match : Type := string * string.

Definition keep (inGroup : bool) (c : ascii) (r : option Match) : option Match :=
  match r with
  | Some (group, rest) => Some (if inGroup then String c group else group, rest)
  | None => None
  end.

(** [cls+] followed by what [k] matches: the longest repetition is
    tried first and shorter ones after it. *)
Fixpoint oneOrMore (cls : ascii -> bool) (inGroup : bool)
    (k : string -> option Match) (s : string) : option Match :=
  match s with
  | EmptyString => None
  | String c s' =>
      if cls c then
        match oneOrMore cls inGroup k s' with
        | Some r => keep inGroup c (Some r)
        | None => keep inGroup c (k s')
        end
      else None
  end.

(** A match of [re] that starts at the head of [s]. *)
Fixpoint matchAt (re : list Item) (inGroup : bool) (s : string) : option Match :=
  match re with
  | [] => Some (EmptyString, s)
  | Byte c :: re' =>
      match s with
      | String a s' =>
          if Ascii.eqb a c then keep inGroup a (matchAt re' inGroup s') else None
      | EmptyString => None
      end
  | OneOrMore cls :: re' => oneOrMore cls inGroup (matchAt re' inGroup) s
  | Open :: re' => matchAt re' true s
  | Close :: re' => matchAt re' false s
  end.

(** [FindAllStringSubmatch(s, -1)], the groups [match[1]]: successive
    leftmost matches that do not overlap; the search resumes where a
    match ends ([skip] counts the bytes of the match still to pass).
    No expression of the adapter matches the empty string. *)
Fixpoint findAll (re : list Item) (skip : nat) (s : string) : list string :=
  match s with
  | EmptyString => []
  | String _ s' =>
      match skip with
      | S skip' => findAll re skip' s'
      | O =>
          match matchAt re false s with
          | Some (group, rest) =>
              group :: findAll re (String.length s - String.length rest - 1) s'
          | None => findAll re 0 s'
          end
      end
  end.

(** [FindStringSubmatch(s)], the group [matches[1]] of the leftmost
    match; [None] when [len(matches) < 2]. *)
Fixpoint findFirst (re : list Item) (s : string) : option string :=
  match s with
  | EmptyString => None
  | String _ s' =>
      match matchAt re false s with
      | Some (group, _) => Some group
      | None => findFirst re s'
      end
  end.

(** Every byte of [s] is in the class [cls]. *)
Fixpoint allOf (cls : ascii -> bool) (s : string) : Prop :=
  match s with
  | EmptyString => True
  | String c s' => cls c = true /\ allOf cls s'
  end.

End regexp.

(* ===================================================================== *)
(** ** internal/adapters/bucardo/cli.go: the executor *)
(* ===================================================================== *)

Module executor.
Import regexp.

(** How a process started through [os/exec] ends. *)
Inductive Outcome :=
| StartFailed (e : string)
| Ran (stdout stderr combined : string) (exit : Go.error).

(** What [cmd.CombinedOutput()] returns for an outcome. *)
Definition combinedOutput (o : Outcome) : string * Go.error :=
  match o with
  | StartFailed e => (EmptyString, Some e)
  | Ran _ _ combined exit => (combined, exit)
  end.

(** The machine the adapter runs on: it runs a command line [argv] and
    resolves the path of a program. *)
Class Host (H : Type) := {
  run : list string -> H -> Outcome * H;
  lookPath : string -> string;
}.

Inductive Level := LevelDebug | LevelInfo | LevelWarn | LevelError.

(** A structured log entry: level, message, attributes in order. *)
Record Entry := {
  level : Level;
  msg : string;
  attrs : list (string * string);
}.

(** The adapter on its machine, with what it has done so far. *)
Record Machine (H : Type) := {
  host : H;
  ran : list (list string);   (* command lines run, oldest first *)
  logs : list Entry;          (* entries handed to the logger *)
  stderrOut : list string;    (* lines written to os.Stderr *)
}.
Arguments host {H}. Arguments ran {H}. Arguments logs {H}. Arguments stderrOut {H}.

(** The fields of a [CLIExecutor]. *)
Record CLIExecutor := { bucardoUser : string; bucardoCmd : string }.

(** [bufio.Scanner] with [ScanLines]: the lines of [s] without their
    end-of-line marker, a last line without marker included.  The
    scanner gives up at a line that exceeds its buffer (64 KiB); such
    lines are outside the model. *)
Definition dropCR (line : string) : string :=
  match String.rev line with
  | String "013" r => String.rev r
  | _ => line
  end.

Definition scanLines (s : string) : list string :=
  let fields := Go.Split s "010" in
  let fields :=
    match List.rev fields with
    | EmptyString :: before => List.rev before
    | _ => fields
    end in
  map dropCR fields.

Definition reDatabase : list Item :=
  literal "Database: " ++ [Open; OneOrMore nonSpace; Close].
Definition reSync : list Item :=
  literal "Sync " ++ [Byte quote; Open; OneOrMore (notByte quote); Close; Byte quote].
Definition reRelgroup : list Item :=
  literal "Relgroup: " ++ [Open; OneOrMore nonSpace; Close].
Definition reTable : list Item :=
  [OneOrMore space; Open; OneOrMore nonSpace; Byte "."; OneOrMore nonSpace; Close].

Section executor.
Context {H : Type} `{!Host H}.

Definition Sh (A : Type) : Type := Machine H -> A * Machine H.

Definition log (l : Level) (m : string) (a : list (string * string)) : Sh unit :=
  fun s => (tt, {| host := host s; ran := ran s;
                   logs := logs s ++ [{| level := l; msg := m; attrs := a |}];
                   stderrOut := stderrOut s |}).

(** Starts [argv] and waits for it. *)
Definition start (argv : list string) : Sh Outcome :=
  fun s => let '(o, h') := run argv (host s) in
           (o, {| host := h'; ran := ran s ++ [argv]; logs := logs s;
                  stderrOut := stderrOut s |}).

Definition printStderr (lines : list string) : Sh unit :=
  fun s => (tt, {| host := host s; ran := ran s; logs := logs s;
                   stderrOut := stderrOut s ++ lines |}).

(** [cmd.CombinedOutput()]. *)
Definition CombinedOutput (argv : list string) : Sh (string * Go.error) :=
  fun s => let '(o, s') := start argv s in (combinedOutput o, s').

(** [cmd.String()]. *)
Definition cmdString (name : string) (arg : list string) : string :=
  Go.Join (lookPath name :: arg) " ".

(** The known harmless messages [runCommand] keeps from os.Stderr. *)
Definition harmless (line : string) : bool :=
  Go.HasPrefix line "No such dbgroup:" || Go.HasPrefix line "No such sync:".

(** [runCommand].  [StderrPipe] does not fail on a command that has not
    been started.  What the command writes to its standard output goes
    to os.Stdout and is not recorded; its standard error is read to the
    end before the command is waited for. *)
Definition runCommand (logCmd name : string) (arg : list string) : Sh Go.error :=
  fun s =>
    let logCmd := if String.eqb logCmd "" then cmdString name arg else logCmd in
    let redactedLogCmd := cli.redactPassword logCmd in
    let '(_, s) := log LevelInfo "Running command"
                     [("component", "command_runner"); ("command", redactedLogCmd)] s in
    let '(o, s) := start (name :: arg) s in
    match o with
    | StartFailed e => (Some ("failed to start command: " +:+ e), s)
    | Ran _ stderr _ exit =>
        let '(_, s) :=
          printStderr (List.filter (fun line => negb (harmless line)) (scanLines stderr)) s in
        (exit, s)
    end.

Definition su (e : CLIExecutor) (cmdStr : string) : list string :=
  ["su"; "-"; bucardoUser e; "-c"; cmdStr].

Definition runBucardoCommand (e : CLIExecutor) (args : list string) : Sh Go.error :=
  let bucardoCmdWithArgs := bucardoCmd e +:+ " " +:+ Go.Join args " " in
  runCommand bucardoCmdWithArgs "su" ["-"; bucardoUser e; "-c"; bucardoCmdWithArgs].

Definition runBucardoCommandWithOutput (e : CLIExecutor) (args : list string)
  : Sh (string * Go.error) :=
  fun s =>
    let cmdStr := bucardoCmd e +:+ " " +:+ Go.Join args " " in
    let '(_, s) := log LevelDebug "Running command for output" [("command", cmdStr)] s in
    CombinedOutput (su e cmdStr) s.

Definition EnsureBucardoUserPassword (e : CLIExecutor)
    (dbhost dbuser dbpass bucardoUser bucardoPass : string) (dbport : Z) : Sh Go.error :=
  fun s =>
    let sql := "ALTER USER " +:+ bucardoUser +:+ " WITH PASSWORD '" +:+ bucardoPass +:+ "';" in
    let cmdStr :=
      "PGPASSWORD=" +:+ dbpass +:+ " psql -h " +:+ dbhost +:+ " -p " +:+ Go.fmt_d dbport
      +:+ " -U " +:+ dbuser +:+ " -d postgres -c " +:+ String quote sql
      +:+ String quote EmptyString in
    let '(_, s) := log LevelInfo "Ensuring 'bucardo' user password is correct"
                     [("component", "auth_fixer"); ("host", dbhost);
                      ("user", bucardoUser)] s in
    let '((output, err), s) := CombinedOutput (su e cmdStr) s in
    match err with
    | Some err =>
        if Go.Contains output "does not exist" then
          let '(_, s) := log LevelInfo "User 'bucardo' does not exist yet, skipping password reset."
                           [("component", "auth_fixer")] s in
          (None, s)
        else
          (Some ("failed to reset bucardo user password: " +:+ err +:+ ". Output: "
                 +:+ output), s)
    | None =>
        let '(_, s) := log LevelInfo "Successfully updated 'bucardo' user password."
                         [("component", "auth_fixer")] s in
        (None, s)
    end.

Definition InstallBucardo (e : CLIExecutor) (dbname host_ user pass : string)
  : Sh Go.error :=
  fun s =>
    let '((_, err), s) := runBucardoCommandWithOutput e ["list"; "dbs"] s in
    match err with
    | None =>
        let '(_, s) := log LevelInfo "Bucardo appears to be already installed and operational."
                         [("component", "bucardo_installer")] s in
        (None, s)
    | Some _ =>
        let logCmd :=
          "bucardo install --batch --dbname=" +:+ dbname +:+ " --dbhost=" +:+ host_
          +:+ " --dbuser=" +:+ user +:+ " --dbpass=****" in
        let cmdStr :=
          "PGPASSWORD=" +:+ pass +:+ " bucardo install --batch --dbname=" +:+ dbname
          +:+ " --dbhost=" +:+ host_ +:+ " --dbuser=" +:+ user in
        let '(_, s) := log LevelInfo "Running Bucardo installation"
                         [("component", "bucardo_installer"); ("command", logCmd)] s in
        let '((output, err), s) := CombinedOutput (su e cmdStr) s in
        match err with
        | Some err =>
            let failure :=
              Some ("bucardo install failed: " +:+ err +:+ ". Output: " +:+ output) in
            if Go.Contains output "already exists" then
              let '(_, s) :=
                log LevelInfo "Installation reported 'already exists'. Verifying installation state..."
                    [("component", "bucardo_installer")] s in
              let '((_, checkErr), s) := runBucardoCommandWithOutput e ["list"; "dbs"] s in
              match checkErr with
              | None =>
                  let '(_, s) :=
                    log LevelInfo "Bucardo is operational despite install error. Assuming success."
                        [("component", "bucardo_installer")] s in
                  (None, s)
              | Some _ => (failure, s)
              end
            else (failure, s)
        | None =>
            let '(_, s) := log LevelInfo "Bucardo installation command finished."
                             [("output", output)] s in
            (None, s)
        end
    end.

Definition SetLogLevel (e : CLIExecutor) (level_ : string) : Sh Go.error :=
  runBucardoCommand e ["set"; "log_level=" +:+ level_].

Definition ListDatabases (e : CLIExecutor) : Sh (list string * Go.error) :=
  fun s =>
    let '((outputStr, err), s) := runBucardoCommandWithOutput e ["list"; "dbs"] s in
    match err with
    | Some err =>
        if Go.Contains outputStr "No databases found" then ([], None, s)
        else ([], Some ("failed to execute 'bucardo list dbs': " +:+ err
                        +:+ ". Output: " +:+ outputStr), s)
    | None => (findAll reDatabase 0 outputStr, None, s)
    end.

Definition DatabaseExists (e : CLIExecutor) (dbName : string) : Sh (bool * Go.error) :=
  fun s =>
    let '((allDbs, err), s) := ListDatabases e s in
    match err with
    | Some err =>
        let '(_, s) := log LevelWarn "Could not list Bucardo databases to check for existence"
                         [("error", err)] s in
        (false, Some err, s)
    | None => (existsb (fun bdb => String.eqb bdb dbName) allDbs, None, s)
    end.

Definition ExecuteBucardoCommand (e : CLIExecutor) (args : list string) : Sh Go.error :=
  runBucardoCommand e args.

Definition RemoveDatabase (e : CLIExecutor) (dbName : string) : Sh Go.error :=
  runBucardoCommand e ["del"; "dbs"; dbName].

Definition ListSyncs (e : CLIExecutor) : Sh (list string * Go.error) :=
  fun s =>
    let '((outputStr, err), s) := runBucardoCommandWithOutput e ["list"; "syncs"] s in
    match err with
    | Some err =>
        if Go.Contains outputStr "No syncs found" then ([], None, s)
        else ([], Some ("failed to execute 'bucardo list syncs': " +:+ err
                        +:+ ". Output: " +:+ outputStr), s)
    | None => (findAll reSync 0 outputStr, None, s)
    end.

Definition SyncExists (e : CLIExecutor) (syncName : string) : Sh (bool * string * Go.error) :=
  fun s =>
    let '(o, s) := start (su e ("bucardo list sync " +:+ syncName)) s in
    let '(stdoutString, err) :=
      match o with
      | StartFailed err => (EmptyString, Some err)
      | Ran stdout _ _ exit => (stdout, exit)
      end in
    let exists_ :=
      bool_decide (err = None) && negb (String.eqb stdoutString "")
      && negb (Go.Contains stdoutString "No such sync") in
    (exists_, stdoutString, None, s).

Definition GetSyncRelgroup (syncDetailsOutput : string) : string * Go.error :=
  match findFirst reRelgroup syncDetailsOutput with
  | None => (EmptyString, Some "could not find relgroup in sync details")
  | Some relgroup => (relgroup, None)
  end.

Definition GetSyncTables (e : CLIExecutor) (relgroupName : string)
  : Sh (list string * Go.error) :=
  fun s =>
    if String.eqb relgroupName "" then ([], None, s)
    else
      let '((output, err), s) :=
        runBucardoCommandWithOutput e ["list"; "relgroup"; relgroupName; "--verbose"] s in
      match err with
      | Some err =>
          ([], Some ("failed to list relgroup " +:+ relgroupName +:+ ": " +:+ err
                     +:+ ". Output: " +:+ output), s)
      | None => (cli.tablesOfMatches (findAll reTable 0 output), None, s)
      end.

Definition RemoveSyncAndRelgroup (e : CLIExecutor)
    (syncName relgroupName dbHost dbUser dbPass : string) (dbPort : Z) : Sh Go.error :=
  fun s =>
    let '(cliErr, s) := runBucardoCommand e ["del"; "sync"; syncName; "--force"] s in
    let '(failed, s) :=
      match cliErr with
      | None => (false, s)
      | Some err =>
          let '(_, s) :=
            log LevelWarn "Standard 'del sync' failed, attempting direct SQL cleanup as fallback"
                [("error", err)] s in
          let sql :=
            "DELETE FROM bucardo.sync WHERE name = '" +:+ syncName
            +:+ "'; DELETE FROM bucardo.herd WHERE name = '" +:+ relgroupName +:+ "';" in
          let cmdStr :=
            "PGPASSWORD=" +:+ dbPass +:+ " psql -h " +:+ dbHost +:+ " -p " +:+ Go.fmt_d dbPort
            +:+ " -U " +:+ dbUser +:+ " -d bucardo -c " +:+ String quote sql
            +:+ String quote EmptyString in
          let '((output, sqlErr), s) := CombinedOutput (su e cmdStr) s in
          match sqlErr with
          | Some sqlErr =>
              let '(_, s) := log LevelError "Fallback SQL cleanup also failed"
                               [("error", sqlErr); ("output", output)] s in
              (true, s)
          | None =>
              let '(_, s) := log LevelInfo "Fallback SQL cleanup succeeded" [] s in
              (false, s)
          end
      end in
    if failed then (cliErr, s)
    else
      (* best effort: the error is dropped *)
      let '(_, s) := runBucardoCommand e ["del"; "relgroup"; relgroupName] s in
      (None, s).

End executor.
End executor.

(* ===================================================================== *)
(** ** internal/adapters/logger/writer.go and the log broadcaster *)
(* ===================================================================== *)

Module logger.

(** An [io.Writer] that acts on a state [S]: the number of bytes it
    took, its error, and the state it leaves. *)
Definition Writer (S : Type) : Type := list N -> S -> (Z * Go.error) * S.

(** [io.ErrShortWrite]. *)
Definition ErrShortWrite : string := "short write".

Definition len (p : list N) : Z := Z.of_nat (length p).

(** [MultiWriter.Write]. *)
Fixpoint Write {S : Type} (writers : list (Writer S)) (p : list N) (s : S)
  : (Z * Go.error) * S :=
  match writers with
  | [] => ((len p, None), s)
  | w :: rest =>
      let '((n, err), s) := w p s in
      match err with
      | Some e => ((n, Some e), s)
      | None =>
          if negb (n =? len p) then ((n, Some ErrShortWrite), s)
          else Write rest p s
      end
  end.

(** The writer takes all of [p] in state [s]. *)
Definition accepts {S : Type} (w : Writer S) (p : list N) (s : S) : Prop :=
  fst (w p s) = (len p, None).

(** The state in which the writer at index [i] is reached when all
    writers before it have been run on [p]. *)
Definition stateAt {S : Type} (writers : list (Writer S)) (p : list N) (s : S) (i : nat) : S :=
  foldl (fun s w => snd (w p s)) s (take i writers).

End logger.

Module broadcaster.
Import logger.

(** Capacity of the [broadcast] channel. *)
Definition capacity : nat := 256.

(** A [LogBroadcaster]: the connected clients, by connection, and the
    messages waiting in the [broadcast] channel, oldest first. *)
Record LogBroadcaster := {
  clients : gset nat;
  broadcast : list (list N);
}.

Definition NewLogBroadcaster : LogBroadcaster :=
  {| clients := ∅; broadcast := [] |}.

(** [LogBroadcaster.Write]: the message is sent unless the channel is
    full, and the write is reported as complete in both cases. *)
Definition Write : Writer LogBroadcaster :=
  fun p b =>
    let msg := p in
    ((len p, None),
     if (length (broadcast b) <? capacity)%nat
     then {| clients := clients b; broadcast := broadcast b ++ [msg] |}
     else b).

(** What happens to a broadcaster, in the order the mutex and the
    channel put it. *)
Inductive Action :=
| Written (p : list N)            (* a call of [Write] *)
| Delivered (failed : gset nat)   (* one turn of the loop of [Start];
                                     [failed]: the clients whose
                                     [WriteMessage] returns an error *)
| Connected (conn : nat)          (* [HandleWebsocket] after the upgrade *)
| Disconnected (conn : nat).      (* the reader of [conn] ends *)

(** The state after an event, and the message each client has been
    sent by it. *)
Definition act (b : LogBroadcaster) (ev : Action)
  : LogBroadcaster * list (nat * list N) :=
  match ev with
  | Written p => (snd (Write p b), [])
  | Delivered failed =>
      match broadcast b with
      | [] => (b, [])   (* the loop waits for a message *)
      | message :: rest =>
          ({| clients := clients b ∖ failed; broadcast := rest |},
           map (fun conn => (conn, message)) (elements (clients b ∖ failed)))
      end
  | Connected conn => ({| clients := {[conn]} ∪ clients b; broadcast := broadcast b |}, [])
  | Disconnected conn => ({| clients := clients b ∖ {[conn]}; broadcast := broadcast b |}, [])
  end.

(** A run: the final state and everything sent to clients, in order. *)
Fixpoint runActions (b : LogBroadcaster) (events : list Action)
  : LogBroadcaster * list (nat * list N) :=
  match events with
  | [] => (b, [])
  | ev :: rest =>
      let '(b', sent) := act b ev in
      let '(b'', sent') := runActions b' rest in
      (b'', sent ++ sent')
  end.

(** The messages written during a run. *)
Definition written (events : list Action) : list (list N) :=
  omap (fun ev => match ev with Written p => Some p | _ => None end) events.

(** The messages sent to one client during a run. *)
Definition received (conn : nat) (sent : list (nat * list N)) : list (list N) :=
  map snd (List.filter (fun m => Nat.eqb (fst m) conn) sent).

End broadcaster.

Module entrypoint.
Import logger broadcaster.

(** The writers of [main]: standard output, then the broadcaster. *)
Definition multiWriter {O : Type} (stdout : Writer O) : list (Writer (O * LogBroadcaster)) :=
  [fun p s => let '(r, o) := stdout p (fst s) in (r, (o, snd s));
   fun p s => let '(r, b) := broadcaster.Write p (snd s) in (r, (fst s, b))].

End entrypoint.

(* ===================================================================== *)
(** ** internal/adapters/postgres: the .pgpass file *)
(* ===================================================================== *)

Module pgpass.

(** The .pgpass file and what the operating system answers when it is
    opened or written. *)
Record Disk := {
  pgpassFile : option string;   (* the content; [None]: there is no file *)
  openError : Go.error;         (* the error of [os.OpenFile], if any *)
  writeError : Go.error;        (* the error of [WriteString], if any *)
}.

(** [os.Remove(m.pgpassPath)]. *)
Definition Remove (d : Disk) : Go.error * Disk :=
  match pgpassFile d with
  | None => (Some "remove .pgpass: no such file or directory", d)
  | Some _ =>
      (None, {| pgpassFile := None; openError := openError d;
                writeError := writeError d |})
  end.

(** The line of a database in the file. *)
Definition pgpassEntry (db : Database) (password : string) : string :=
  let port :=
    match Port db with
    | Some p => Go.fmt_d p
    | None => "*"
    end in
  Host db +:+ ":" +:+ port +:+ ":" +:+ DBName db +:+ ":" +:+ User db +:+ ":"
  +:+ password +:+ String "010" EmptyString.

(** [appendPgpassEntry]: the file is opened for appending and created
    when missing; a write that fails is taken to add nothing.  The
    change of owner that follows can only fail with a warning. *)
Definition appendPgpassEntry (db : Database) (password : string) (d : Disk)
  : Go.error * Disk :=
  match openError d with
  | Some err => (Some ("failed to open .pgpass file: " +:+ err), d)
  | None =>
      let content := default EmptyString (pgpassFile d) in
      match writeError d with
      | Some err =>
          (Some ("failed to write to .pgpass file: " +:+ err),
           {| pgpassFile := Some content; openError := openError d;
              writeError := writeError d |})
      | None =>
          (None, {| pgpassFile := Some (content +:+ pgpassEntry db password);
                    openError := openError d; writeError := writeError d |})
      end
  end.

Fixpoint appendAll (environ : string -> option string) (dbs : list Database) (d : Disk)
  : Go.error * Disk :=
  match dbs with
  | [] => (None, d)
  | db :: rest =>
      let '(password, err) := postgres.getDbPassword environ db in
      match err with
      | Some err =>
          (Some ("failed to get password for .pgpass setup for db " +:+ Go.fmt_d (ID db)
                 +:+ ": " +:+ err), d)
      | None =>
          let '(err, d) := appendPgpassEntry db password d in
          match err with
          | Some err =>
              (Some ("failed to write entry to .pgpass file for db " +:+ Go.fmt_d (ID db)
                     +:+ ": " +:+ err), d)
          | None => appendAll environ rest d
          end
      end
  end.

(** [SetupPgpass]: the old file is removed (an error of the removal is
    ignored) and one entry per database is appended. *)
Definition SetupPgpass (environ : string -> option string) (dbs : list Database)
    (d : Disk) : Go.error * Disk :=
  let '(_, d) := Remove d in
  appendAll environ dbs d.

(** [CleanupPgpass]. *)
Definition CleanupPgpass (d : Disk) : Go.error * Disk := Remove d.

(** The password of the database can be resolved. *)
Definition resolves (environ : string -> option string) (db : Database) : bool :=
  bool_decide (snd (postgres.getDbPassword environ db) = None).

(** The entries of the databases up to the first one whose password
    cannot be resolved. *)
Fixpoint resolvedEntries (environ : string -> option string) (dbs : list Database)
  : string :=
  match dbs with
  | [] => EmptyString
  | db :: rest =>
      if resolves environ db
      then pgpassEntry db (fst (postgres.getDbPassword environ db))
           +:+ resolvedEntries environ rest
      else EmptyString
  end.

End pgpass.

(* ===================================================================== *)
(** ** Vocabulary of the further properties *)
(* ===================================================================== *)

(** Configurations that pass validation. *)
Module accepted.

Definition knownStrategies : list string :=
  ["bucardo_source"; "bucardo_target"; "bucardo_skip";
   "bucardo_random"; "bucardo_latest"; "bucardo_abort"].

(** What [validateConfig] asks of one sync, [declared] being the ids of
    the configured databases. *)
Definition wellFormedSync (declared : list Z) (sync : Sync) : Prop :=
  Name sync <> ""
  /\ match Bidirectional sync with
     | [] =>
         Sources sync <> [] /\ Targets sync <> []
         /\ (Herd sync <> "" \/ Tables sync <> "")
     | ids =>
         (2 <= length ids)%nat
         /\ (forall id, In id ids -> In id declared)
         /\ ConflictStrategy sync <> "bucardo_source"
         /\ ConflictStrategy sync <> "bucardo_target"
     end
  /\ (ConflictStrategy sync = "" \/ In (ConflictStrategy sync) knownStrategies).

(** What [validateConfig] asks of a configuration. *)
Definition wellFormed (config : BucardoConfig) : Prop :=
  List.NoDup (map ID (Databases config))
  /\ List.NoDup (map Name (Syncs config))
  /\ Forall (wellFormedSync (map ID (Databases config))) (Syncs config).

End accepted.

(** Operations that work on the stored configuration only. *)
Module admin_spec.
Section admin_spec.
Context {E : Type} `{!Ports E}.

(** A computation that makes no call on a port and leaves the engine
    and the environment as they are. *)
Definition leavesEngine {A} (m : M E A) : Prop :=
  forall w, trace (snd (m w)) = trace w
            /\ engine (snd (m w)) = engine w
            /\ environ (snd (m w)) = environ w.

(** The configuration with another list of syncs. *)
Definition withSyncs (config : BucardoConfig) (syncs : list Sync) : BucardoConfig :=
  {| Databases := Databases config; Syncs := syncs; LogLevel := LogLevel config |}.

End admin_spec.
End admin_spec.

(** The frame of a reconciliation cycle. *)
Module cycle_spec.

(** The calls that frame a reconciliation cycle. *)
Definition isBracket (c : Call) : Prop :=
  match c with
  | CStopBucardo | CStartBucardo | CSetupPgpass _ | CCleanupPgpass => True
  | _ => False
  end.

Section cycle_spec.
Context {E : Type} `{!Ports E}.

(** [m] makes calls that do not frame a cycle and then either starts
    the engine as its last call or returns an error. *)
Definition startsEngineLast (m : M E Go.error) : Prop :=
  forall w, exists steps tail,
    trace (snd (m w)) = trace w ++ steps ++ tail
    /\ Forall (fun c => ~ isBracket c) steps
    /\ (tail = [CStartBucardo] \/ (tail = [] /\ fst (m w) <> None)).

End cycle_spec.
End cycle_spec.

(** Reconciliation of the databases. *)
Module reconcile_spec.

(** The command that creates ([verb] "add") or updates ([verb]
    "update") a declared database with the resolved [password]. *)
Definition dbArgs (verb password : string) (db : Database) : list string :=
  [verb; "db"; dbNameOf db;
   "dbname=" +:+ DBName db; "host=" +:+ Host db;
   "user=" +:+ User db; "pass=" +:+ password]
  ++ match Port db with
     | Some port => ["port=" +:+ Go.fmt_d port]
     | None => []
     end.

(** The engine's database [name] is not declared by the configuration. *)
Definition undeclaredDb (config : BucardoConfig) (name : string) : Prop :=
  name ∉ map dbNameOf (Databases config).

#[export] Instance undeclaredDb_dec config name : Decision (undeclaredDb config name).
Proof. unfold undeclaredDb. apply _. Defined.

End reconcile_spec.

(** Completion lines. *)
Module monitor_run_spec.

(** The syncs whose completion [line] announces among the [pending]
    ones, in the order the range loop visits them. *)
Definition completedBy (line : string) (pending : gmap string bool) : list string :=
  if Go.Contains line "Reason: Normal exit"
  then List.filter (names line) (map fst (map_to_list pending))
  else [].

End monitor_run_spec.

(* ===================================================================== *)
(** * Properties *)
(* ===================================================================== *)

(** ** SHA-1 test vectors (FIPS 180) *)

Example sha1_abc :
  Go.fmt_x (SHA1.Sum (SHA1.bytesOfString "abc"))
  = "a9993e364706816aba3e25717850c26c9cd0d89d".
Proof. vm_compute. reflexivity. Qed.

Example sha1_empty :
  Go.fmt_x (SHA1.Sum (SHA1.bytesOfString ""))
  = "da39a3ee5e6b4b0d3255bfef95601890afd80709".
Proof. vm_compute. reflexivity. Qed.

Example sha1_two_blocks :
  Go.fmt_x (SHA1.Sum (SHA1.bytesOfString
    "abcdbcdecdefdefgefghfghighijhijkijkljklmklmnlmnomnopnopq"))
  = "84983e441c3bd26ebaae4aa1f95129e5e54670f1".
Proof. vm_compute. reflexivity. Qed.

(** ** White space and scanned numbers *)

(** U+2003 and a space before the name, a space and U+00A0 after it. *)
Example TrimSpace_unicode :
  Go.TrimSpace (String "226" (String "128" (String "131"
                  (" public.t1 " +:+ String "194" (String "160" "")))))
  = "public.t1".
Proof. vm_compute. reflexivity. Qed.

(** A byte that is no rune is no white space. *)
Example TrimSpace_stray_byte :
  Go.TrimSpace (String "160" " public.t1") = String "160" " public.t1".
Proof. vm_compute. reflexivity. Qed.

(** A desired table followed by U+00A0 is the engine's table. *)
Example configTables_unicode :
  configTables (sample.sourceTarget "orders" [1] [2]
                  ("public.t1" +:+ String "194" (String "160" "")))
  = ["public.t1"].
Proof. vm_compute. reflexivity. Qed.

Example Sscanf_d_samples :
  Sscanf_d "5432" = 5432 /\ Sscanf_d "5432abc" = 5432 /\ Sscanf_d "  -17" = -17
  /\ Sscanf_d "+8 9" = 8 /\ Sscanf_d "port" = 0 /\ Sscanf_d "" = 0 /\ Sscanf_d "-" = 0
  /\ Sscanf_d (String "010" "5432") = 0
  /\ Sscanf_d "9223372036854775807" = 9223372036854775807
  /\ Sscanf_d "9223372036854775808" = 0.
Proof. vm_compute. repeat split; reflexivity. Qed.

(* ===================================================================== *)
(** ** Facts about the Go runtime model *)
(* ===================================================================== *)

Section go_facts.

Lemma append_cons (a : ascii) (s1 s2 : string) :
  String a s1 +:+ s2 = String a (s1 +:+ s2).
Proof. done. Qed.

Lemma append_nil_l (s : string) : "" +:+ s = s.
Proof. done. Qed.

Lemma append_nil_r (s : string) : s +:+ "" = s.
Proof. induction s as [|a s IH]; [done|]. by rewrite append_cons, IH. Qed.

Lemma append_assoc (s1 s2 s3 : string) : (s1 +:+ s2) +:+ s3 = s1 +:+ (s2 +:+ s3).
Proof.
  induction s1 as [|a s1 IH]; [done|]. by rewrite !append_cons, IH.
Qed.

Lemma freeOf_append c s1 s2 : freeOf c (s1 +:+ s2) <-> freeOf c s1 /\ freeOf c s2.
Proof.
  induction s1 as [|a s1 IH].
  - rewrite append_nil_l. simpl. tauto.
  - rewrite append_cons. simpl. tauto.
Qed.

(** Two strings cut at the first occurrence of a separator they do not
    hold before it are cut at the same place. *)
Lemma split_at_separator c x y r1 r2 :
  freeOf c x -> freeOf c y ->
  x +:+ String c r1 = y +:+ String c r2 -> x = y /\ r1 = r2.
Proof.
  revert y. induction x as [|a x IH]; intros [|b y] Hx Hy Heq;
    rewrite ?append_cons, ?append_nil_l in Heq; simpl in *.
  - by inversion Heq.
  - inversion Heq; subst. by destruct Hy.
  - inversion Heq; subst. by destruct Hx.
  - inversion Heq; subst. destruct Hx as [_ Hx], Hy as [_ Hy].
    destruct (IH y Hx Hy) as [-> ->]; done.
Qed.

(** A string free of the separator is not one that holds it. *)
Lemma separator_absent c x y r :
  freeOf c x -> x <> y +:+ String c r.
Proof.
  revert y. induction x as [|a x IH]; intros [|b y] Hx Heq;
    rewrite ?append_cons, ?append_nil_l in Heq; simpl in *;
    try discriminate.
  - inversion Heq; subst. by destruct Hx.
  - inversion Heq; subst. destruct Hx as [_ Hx]. by eapply IH.
Qed.

End go_facts.

(* ===================================================================== *)
(** ** Credential resolution *)
(* ===================================================================== *)

Lemma getDbPassword_copies_agree environ db :
  orchestrator.getDbPassword environ db = postgres.getDbPassword environ db.
Proof. reflexivity. Qed.


Example getDbPassword_env_set :
  orchestrator.getDbPassword
    (fun k => if String.eqb k "BUCARDO_DB7" then Some "s3cret" else None)
    {| ID := 7; DBName := "app"; Host := "h"; User := "u"; Pass := "env"; Port := None |}
  = ("s3cret", None).
Proof. reflexivity. Qed.

Example getDbPassword_env_unset :
  orchestrator.getDbPassword (fun _ => None)
    {| ID := 7; DBName := "app"; Host := "h"; User := "u"; Pass := "env"; Port := None |}
  = ("", Some "environment variable BUCARDO_DB7 not set for db id 7").
Proof. reflexivity. Qed.

Example getDbPassword_literal :
  orchestrator.getDbPassword (fun _ => Some "ignored")
    {| ID := 7; DBName := "app"; Host := "h"; User := "u"; Pass := "pw"; Port := None |}
  = ("pw", None).
Proof. reflexivity. Qed.

(* ===================================================================== *)
(** ** Password redaction *)
(* ===================================================================== *)

(** C10, at a password that holds a space: only the bytes up to the space
    are replaced, the rest of the password reaches the log, and two
    commands that differ in nothing but the password are logged
    differently. *)
Theorem C10_redaction_stops_at_space :
  let args p := ["add"; "db"; "db1"; "dbname=app"; "host=h1"; "user=u"; "pass=" +:+ p] in
  cli.loggedCommand "bucardo" (args "hunter2 extra")
    = "bucardo add db db1 dbname=app host=h1 user=u pass=***** extra"
  /\ cli.loggedCommand "bucardo" (args "hunter2 other")
    = "bucardo add db db1 dbname=app host=h1 user=u pass=***** other"
  /\ cli.loggedCommand "bucardo" (args "hunter2 extra")
     <> cli.loggedCommand "bucardo" (args "hunter2 other").
Proof. vm_compute. repeat split; congruence. Qed.

(* ===================================================================== *)
(** ** Administrative operations *)
(* ===================================================================== *)

Section admin_facts.
Context {E : Type} `{!Ports E}.

(** [UpdateConfig] either stores the configuration it is given or fails
    and leaves the world as it was. *)
Lemma UpdateConfig_cases (config : BucardoConfig) (w : World E) :
  (UpdateConfig config w = (None, snd (setConfigFile (FileContent config) w))
   /\ validateConfig config = [])
  \/ (exists msg, UpdateConfig config w = (Some msg, w)).
Proof.
  unfold UpdateConfig, SaveConfig, bind, getWorld, ret.
  destruct (validateConfig config) as [|e errs]; simpl.
  - destruct (writable w) eqn:Hw; simpl; [left; rewrite Hw; done|right; eauto].
  - right; eauto.
Qed.

Lemma LoadConfig_content (config : BucardoConfig) (w : World E) :
  configFile w = FileContent config -> LoadConfig w = ((Some config, None), w).
Proof. intros Hfile. unfold LoadConfig, bind, getWorld, ret. by rewrite Hfile. Qed.

Lemma existsb_name_In (name : string) (syncs : list Sync) :
  existsb (fun s => String.eqb (Name s) name) syncs = true
  <-> In name (map Name syncs).
Proof.
  rewrite existsb_exists, in_map_iff. split.
  - intros (s & Hs & Heq). apply String.eqb_eq in Heq. eauto.
  - intros (s & Heq & Hs). exists s. split; [done|]. by apply String.eqb_eq.
Qed.

Lemma replaceFirst_names name updated syncs :
  map Name (fst (replaceFirst name updated syncs)) = map Name syncs.
Proof.
  induction syncs as [|s syncs IH]; simpl; [done|].
  destruct (String.eqb_spec (Name s) name) as [->|Hne]; simpl; [done|].
  destruct (replaceFirst name updated syncs) as [rest found]; simpl in *.
  by rewrite IH.
Qed.

Lemma replaceFirst_found name updated syncs :
  snd (replaceFirst name updated syncs) = true <-> In name (map Name syncs).
Proof.
  induction syncs as [|s syncs IH]; simpl; [split; [done|tauto]|].
  destruct (String.eqb_spec (Name s) name) as [->|Hne]; simpl; [tauto|].
  destruct (replaceFirst name updated syncs) as [rest found]; simpl in *.
  rewrite IH. tauto.
Qed.

Lemma replaceFirst_holds name updated syncs :
  snd (replaceFirst name updated syncs) = true ->
  In (withName name updated) (fst (replaceFirst name updated syncs)).
Proof.
  induction syncs as [|s syncs IH]; simpl; [done|].
  destruct (String.eqb_spec (Name s) name) as [Heq|Hne]; simpl; [tauto|].
  destruct (replaceFirst name updated syncs) as [rest found]; simpl in *. tauto.
Qed.

Lemma NoDup_names_filter (f : Sync -> bool) (syncs : list Sync) :
  List.NoDup (map Name syncs) -> List.NoDup (map Name (List.filter f syncs)).
Proof.
  induction syncs as [|s syncs IH]; simpl; [done|].
  intros Hnd. inversion Hnd as [|? ? Hnotin Hnd']; subst.
  destruct (f s); simpl; [|by auto].
  constructor; [|by auto].
  intros Hin. apply Hnotin. apply in_map_iff in Hin as (s' & <- & Hs').
  apply filter_In in Hs' as [Hs' _]. by apply in_map.
Qed.

Lemma NoDup_names_snoc (sync : Sync) (syncs : list Sync) :
  ~ In (Name sync) (map Name syncs) ->
  List.NoDup (map Name syncs) -> List.NoDup (map Name (syncs ++ [sync])).
Proof.
  intros Hnotin Hnd. rewrite map_app. simpl.
  apply NoDup_ListNoDup, NoDup_app. repeat split.
  - by apply NoDup_ListNoDup.
  - intros x Hx Hin. apply list_elem_of_singleton in Hin. subst x.
    by apply Hnotin, list_elem_of_In.
  - apply NoDup_singleton.
Qed.

End admin_facts.

(** C9. The administrative sync operations keep sync names unique in the
    stored configuration: [AddSync] fails and stores nothing when the name
    is taken; [UpdateSync] stores the supplied sync under the name of the
    request path and leaves the list of names as it was; [UpdateSync] and
    [DeleteSync] fail and store nothing when no sync has the name. *)
Theorem C9_sync_names_stay_unique {E : Type} `{!Ports E}
    (w : World E) (config : BucardoConfig)
    (Hfile : configFile w = FileContent config) :
  let names (c : BucardoConfig) := map Name (Syncs c) in
  (forall sync,
     (In (Name sync) (names config) ->
        fst (AddSync sync w) <> None /\ snd (AddSync sync w) = w)
     /\ exists config', configFile (snd (AddSync sync w)) = FileContent config'
          /\ (List.NoDup (names config) -> List.NoDup (names config')))
  /\ (forall name updated,
     (~ In name (names config) ->
        fst (UpdateSync name updated w) <> None /\ snd (UpdateSync name updated w) = w)
     /\ exists config',
          configFile (snd (UpdateSync name updated w)) = FileContent config'
          /\ names config' = names config
          /\ (fst (UpdateSync name updated w) = None ->
                In (withName name updated) (Syncs config')
                /\ Name (withName name updated) = name))
  /\ (forall name,
     (~ In name (names config) ->
        fst (DeleteSync name w) <> None /\ snd (DeleteSync name w) = w)
     /\ exists config', configFile (snd (DeleteSync name w)) = FileContent config'
          /\ (List.NoDup (names config) -> List.NoDup (names config'))).
Proof.
  intros names. split; [|split].
  - intros sync.
    unfold AddSync, bind. rewrite (LoadConfig_content _ _ Hfile).
    destruct (existsb _ (Syncs config)) eqn:Hex.
    + simpl. split; [done|]. exists config. done.
    + assert (~ In (Name sync) (names config)) as Hnotin.
      { intros Hin%existsb_name_In. unfold names in *. congruence. }
      split; [done|].
      match goal with |- context [UpdateConfig ?c w] =>
        destruct (UpdateConfig_cases c w) as [[-> _]|[msg ->]] end; simpl.
      * eexists. split; [done|]. simpl. intros Hnd. by apply NoDup_names_snoc.
      * exists config. done.
  - intros name updated.
    unfold UpdateSync, bind. rewrite (LoadConfig_content _ _ Hfile).
    pose proof (replaceFirst_names name updated (Syncs config)) as Hnames.
    pose proof (replaceFirst_found name updated (Syncs config)) as Hfound.
    pose proof (replaceFirst_holds name updated (Syncs config)) as Hholds.
    destruct (replaceFirst name updated (Syncs config)) as [syncs found]; simpl in *.
    destruct found; simpl.
    + split; [intros Hn; exfalso; apply Hn, Hfound; done|].
      match goal with |- context [UpdateConfig ?c w] =>
        destruct (UpdateConfig_cases c w) as [[-> _]|[msg ->]] end; simpl.
      * eexists. split; [done|]. simpl. auto.
      * exists config. done.
    + split; [done|]. exists config. done.
  - intros name.
    unfold DeleteSync, bind. rewrite (LoadConfig_content _ _ Hfile).
    destruct (existsb _ (Syncs config)) eqn:Hex; simpl.
    + split; [intros Hn; exfalso; apply Hn, existsb_name_In; done|].
      match goal with |- context [UpdateConfig ?c w] =>
        destruct (UpdateConfig_cases c w) as [[-> _]|[msg ->]] end; simpl.
      * eexists. split; [done|]. simpl. apply NoDup_names_filter.
      * exists config. done.
    + split; [done|]. exists config. done.
Qed.

(* ===================================================================== *)
(** ** Validation *)
(* ===================================================================== *)

Lemma checkBidirectionalIDs_app dbIDs name errors ids :
  checkBidirectionalIDs dbIDs name errors ids
  = errors ++ checkBidirectionalIDs dbIDs name [] ids.
Proof.
  unfold checkBidirectionalIDs. revert errors.
  induction ids as [|id ids IH]; intros errors; simpl.
  - by rewrite app_nil_r.
  - destruct (negb (Go.mapGet dbIDs id)); simpl; [|by apply IH].
    rewrite IH, (IH [_]). by rewrite <- app_assoc.
Qed.

Ltac normalize_checks :=
  repeat match goal with
         | |- context [checkBidirectionalIDs ?d ?n ?X ?ids] =>
             lazymatch X with
             | [] => fail
             | _ => rewrite (checkBidirectionalIDs_app d n X ids)
             end
         end.

(** Errors are only ever appended: one iteration of the sync loop adds
    its own errors behind those collected before. *)
Lemma validateSync_app dbIDs errors syncNames sync :
  fst (validateSync dbIDs (errors, syncNames) sync)
  = errors ++ fst (validateSync dbIDs ([], syncNames) sync).
Proof.
  unfold validateSync.
  destruct (String.eqb (Name sync) ""); [done|]. cbn [fst].
  repeat match goal with
         | |- context [if ?b then _ else _] => destruct b
         end;
    normalize_checks; cbn [app]; rewrite ?app_nil_r, <- ?app_assoc; reflexivity.
Qed.

Lemma validateSync_names dbIDs errors1 errors2 syncNames sync :
  snd (validateSync dbIDs (errors1, syncNames) sync)
  = snd (validateSync dbIDs (errors2, syncNames) sync).
Proof. unfold validateSync. destruct (String.eqb (Name sync) ""); done. Qed.

(** The errors of the whole sync loop hold those of every iteration. *)
Lemma validateSyncs_errors dbIDs (syncs : list Sync) st sync :
  In sync syncs ->
  exists before syncNames after,
    fst (foldl (validateSync dbIDs) st syncs)
    = before ++ fst (validateSync dbIDs ([], syncNames) sync) ++ after.
Proof.
  revert st. induction syncs as [|s syncs IH]; intros st Hin; [done|].
  simpl. destruct Hin as [->|Hin]; [|by apply IH].
  clear IH. destruct st as [errors syncNames].
  exists errors, syncNames.
  assert (forall l st', exists after,
             fst (foldl (validateSync dbIDs) st' l) = fst st' ++ after) as Hgrow.
  { clear. induction l as [|s l IH]; intros st'; simpl.
    - exists []. by rewrite app_nil_r.
    - destruct (IH (validateSync dbIDs st' s)) as [after ->].
      destruct st' as [e n]. rewrite validateSync_app. simpl.
      eexists. by rewrite <- app_assoc. }
  destruct (Hgrow syncs (validateSync dbIDs (errors, syncNames) sync)) as [after ->].
  exists after. by rewrite validateSync_app, <- app_assoc.
Qed.

Lemma validateConfig_errors (config : BucardoConfig) (sync : Sync) :
  In sync (Syncs config) ->
  exists dbIDs syncNames,
    forall e, In e (fst (validateSync dbIDs ([], syncNames) sync)) ->
              In e (validateConfig config).
Proof.
  intros Hin. unfold validateConfig.
  destruct (foldl validateDatabase _ _) as [errors dbIDs].
  destruct (validateSyncs_errors dbIDs (Syncs config) (errors, ∅) sync Hin)
    as (before & syncNames & after & ->).
  exists dbIDs, syncNames. intros e He. rewrite !in_app_iff. tauto.
Qed.

(** What one iteration reports for a named bidirectional sync that lists
    a single database and asks for a static-priority strategy. *)
Lemma validateSync_single_static dbIDs syncNames (sync : Sync) :
  Name sync <> "" ->
  length (Bidirectional sync) = 1%nat ->
  ConflictStrategy sync = "bucardo_source" \/ ConflictStrategy sync = "bucardo_target" ->
  let errs := fst (validateSync dbIDs ([], syncNames) sync) in
  In (ErrBidirectionalTooFew (Name sync)) errs
  /\ In (ErrBidirectionalStaticStrategy (Name sync) (ConflictStrategy sync)) errs.
Proof.
  intros Hname Hlen Hcs. unfold validateSync.
  destruct (String.eqb_spec (Name sync) ""); [done|].
  rewrite Hlen. cbn [Nat.ltb Nat.leb fst].
  assert (String.eqb (ConflictStrategy sync) "bucardo_source"
          || String.eqb (ConflictStrategy sync) "bucardo_target" = true) as ->.
  { destruct Hcs as [-> | ->]; reflexivity. }
  assert (Go.mapGet validStrategies (ConflictStrategy sync) = true) as ->.
  { destruct Hcs as [-> | ->]; reflexivity. }
  assert (negb (String.eqb (ConflictStrategy sync) "") = true) as ->.
  { destruct Hcs as [-> | ->]; reflexivity. }
  cbn [negb]. destruct (Go.mapGet syncNames (Name sync));
    normalize_checks; rewrite !in_app_iff; simpl; tauto.
Qed.

(** The two messages differ whatever the name and the strategy. *)
Lemma single_static_messages_differ validKeys name strategy :
  Error validKeys (ErrBidirectionalTooFew name)
  <> Error validKeys (ErrBidirectionalStaticStrategy name strategy).
Proof.
  unfold Error. intros Heq.
  apply (inj (String.app "sync '")) in Heq.
  apply (inj (String.app name)) in Heq. discriminate.
Qed.

Section gate_facts.
Context {E : Type} `{!Ports E}.

(** Reconciliation is gated by validation: with a configuration that
    has validation errors [ReloadAndRestart] returns before any port is
    called and leaves the world as it found it. *)
Lemma ReloadAndRestart_refuses_invalid (w : World E) (config : BucardoConfig) :
  configFile w = FileContent config ->
  validateConfig config <> [] ->
  ReloadAndRestart w = (Some "configuration validation failed", w).
Proof.
  intros Hfile Hinvalid. unfold ReloadAndRestart, bind, getWorld. rewrite Hfile.
  rewrite (LoadConfig_content _ _ Hfile).
  destruct (validateConfig config); done.
Qed.

Lemma UpdateConfig_refuses_invalid (w : World E) (config : BucardoConfig) :
  validateConfig config <> [] ->
  exists msg, UpdateConfig config w = (Some msg, w).
Proof.
  intros Hinvalid. destruct (UpdateConfig_cases config w) as [[_ Hv]|?]; done.
Qed.

End gate_facts.

Lemma two_distinct_members {A} (a b : A) (l : list A) :
  In a l -> In b l -> a <> b -> (2 <= length l)%nat.
Proof.
  intros Ha Hb Hne. destruct l as [|x [|y l]]; simpl in *; [done| |lia].
  destruct Ha as [->|[]], Hb as [->|[]]. done.
Qed.

(** C4 (amended). A configuration that holds a named bidirectional sync
    with exactly one participant and a static-priority conflict strategy
    gets at least two distinct validation errors for that sync, one for
    the participant count and one for the strategy; with such a
    configuration [ReloadAndRestart] calls no port and [UpdateConfig]
    stores nothing. *)
Theorem C4_single_static_bidirectional_rejected {E : Type} `{!Ports E}
    (w : World E) (config : BucardoConfig) (sync : Sync)
    (Hfile : configFile w = FileContent config)
    (Hin : In sync (Syncs config))
    (Hname : Name sync <> "")
    (Hone : length (Bidirectional sync) = 1%nat)
    (Hstatic : ConflictStrategy sync = "bucardo_source"
               \/ ConflictStrategy sync = "bucardo_target") :
  let tooFew := ErrBidirectionalTooFew (Name sync) in
  let static := ErrBidirectionalStaticStrategy (Name sync) (ConflictStrategy sync) in
  In tooFew (validateConfig config)
  /\ In static (validateConfig config)
  /\ tooFew <> static
  /\ (forall validKeys, Error validKeys tooFew <> Error validKeys static)
  /\ (2 <= length (validateConfig config))%nat
  /\ ReloadAndRestart w = (Some "configuration validation failed", w)
  /\ exists msg, UpdateConfig config w = (Some msg, w).
Proof.
  intros tooFew static.
  destruct (validateConfig_errors config sync Hin) as (dbIDs & syncNames & Hsub).
  destruct (validateSync_single_static dbIDs syncNames sync Hname Hone Hstatic)
    as [Hfew Hst].
  apply Hsub in Hfew, Hst.
  assert (validateConfig config <> []) as Hinvalid.
  { intros Hnil. rewrite Hnil in Hfew. done. }
  repeat split; try done.
  - intros validKeys. apply single_static_messages_differ.
  - by apply (two_distinct_members tooFew static).
  - by apply (ReloadAndRestart_refuses_invalid w config).
  - by apply UpdateConfig_refuses_invalid.
Qed.

(* ===================================================================== *)
(** ** Membership groups *)
(* ===================================================================== *)

Section group_facts.

(** *** Decimal rendering *)

Lemma to_int_proper (z : Z) : Z.to_int z <> Decimal.Pos Decimal.Nil
                              /\ Z.to_int z <> Decimal.Neg Decimal.Nil.
Proof.
  destruct z as [|p|p]; simpl; split; try done;
    intros [= Hp]; by apply (DecimalPos.Unsigned.to_uint_nonnil p).
Qed.

Lemma fmt_d_inj (a b : Z) : Go.fmt_d a = Go.fmt_d b -> a = b.
Proof.
  unfold Go.fmt_d. intros Heq.
  destruct (to_int_proper a) as [Ha1 Ha2], (to_int_proper b) as [Hb1 Hb2].
  pose proof (NilZero.isi _ Ha1 Ha2) as Hia.
  pose proof (NilZero.isi _ Hb1 Hb2) as Hib.
  rewrite Heq, Hib in Hia. apply DecimalZ.to_int_inj. congruence.
Qed.

Lemma string_of_uint_free c (d : Decimal.uint) :
  numeric c = false -> freeOf c (NilEmpty.string_of_uint d).
Proof.
  intros Hc. induction d; simpl; [done|..]; (split; [|done]);
    intros <-; discriminate.
Qed.

Lemma fmt_d_free c (z : Z) : numeric c = false -> freeOf c (Go.fmt_d z).
Proof.
  intros Hc. unfold Go.fmt_d, NilZero.string_of_int, NilZero.string_of_uint.
  destruct (Z.to_int z) as [d|d].
  - destruct d; try (by apply (string_of_uint_free c _ Hc)).
    simpl. split; [|done]. intros <-. discriminate.
  - simpl. split; [intros <-; discriminate|].
    destruct d; try (by apply (string_of_uint_free c _ Hc)).
    simpl. split; [|done]. intros <-. discriminate.
Qed.

(** *** Members *)

Lemma memberNames_eq (sync : Sync) :
  memberNames sync = map sourceMember (Sources sync) ++ map targetMember (Targets sync).
Proof. reflexivity. Qed.

Lemma member_cut (a b : Z) (r1 r2 : string) :
  "db" +:+ Go.fmt_d a +:+ String ":" r1 = "db" +:+ Go.fmt_d b +:+ String ":" r2 ->
  a = b /\ r1 = r2.
Proof.
  intros Heq. apply (inj (String.app "db")) in Heq.
  apply split_at_separator in Heq as [Hd Hr]; try (by apply fmt_d_free).
  split; [by apply fmt_d_inj|done].
Qed.

Lemma sourceMember_inj : Inj (=) (=) sourceMember.
Proof. intros a b Heq. by apply member_cut in Heq as [? _]. Qed.

Lemma targetMember_inj : Inj (=) (=) targetMember.
Proof. intros a b Heq. by apply member_cut in Heq as [? _]. Qed.

Lemma source_target_differ (a b : Z) : sourceMember a <> targetMember b.
Proof. intros Heq. by apply member_cut in Heq as [_ ?]. Qed.

Lemma lastByte_append (s : string) (c : ascii) (t : string) :
  lastByte (s +:+ String c t) = lastByte (String c t).
Proof.
  induction s as [|a s IH]; [done|]. rewrite append_cons.
  change (lastByte (String a (s +:+ String c t)))
    with (match s +:+ String c t with
          | EmptyString => a
          | _ => lastByte (s +:+ String c t)
          end).
  rewrite IH. destruct s; done.
Qed.

Lemma isSource_source id : isSource (sourceMember id) = true.
Proof.
  unfold isSource, sourceMember. rewrite <- append_assoc.
  by rewrite (lastByte_append _ ":" "source").
Qed.

Lemma isSource_target id : isSource (targetMember id) = false.
Proof.
  unfold isSource, targetMember. rewrite <- append_assoc.
  by rewrite (lastByte_append _ ":" "target").
Qed.

Lemma member_free_of_comma (sync : Sync) :
  Forall (fun m => freeOf "," m /\ m <> "") (memberNames sync).
Proof.
  rewrite memberNames_eq. apply Forall_app. split; apply Forall_forall;
    intros m (id & -> & _)%list_elem_of_fmap; (split; [|done]);
    unfold sourceMember, targetMember;
    rewrite !freeOf_append; repeat split; try apply fmt_d_free; simpl;
    repeat split; try done; intros [=].
Qed.

(** *** Joining and sorting *)

Lemma Join_cons2 x y rest sep :
  Go.Join (x :: y :: rest) sep = x +:+ sep +:+ Go.Join (y :: rest) sep.
Proof. reflexivity. Qed.

(** Joining non-empty lists of comma-free fields with commas is
    injective. *)
Lemma Join_comma_inj (l1 l2 : list string) :
  l1 <> [] -> l2 <> [] ->
  Forall (freeOf ",") l1 -> Forall (freeOf ",") l2 ->
  Go.Join l1 "," = Go.Join l2 "," -> l1 = l2.
Proof.
  revert l2. induction l1 as [|x [|x' l1] IH]; intros [|y [|y' l2]] Hn1 Hn2 H1 H2 Heq;
    try done.
  - simpl in Heq. by subst.
  - rewrite Join_cons2 in Heq. simpl in Heq. exfalso.
    apply Forall_cons in H1 as [Hx _].
    by apply (separator_absent "," x y (Go.Join (y' :: l2) ",")).
  - rewrite Join_cons2 in Heq. simpl in Heq. exfalso.
    apply Forall_cons in H2 as [Hy _].
    by apply (separator_absent "," y x (Go.Join (x' :: l1) ",")).
  - rewrite !Join_cons2 in Heq.
    apply Forall_cons in H1 as [Hx H1]. apply Forall_cons in H2 as [Hy H2].
    apply (split_at_separator "," x y) in Heq as [-> Heq]; [|done..].
    f_equal. by apply IH.
Qed.

Lemma Join_nonempty (l : list string) (sep : string) :
  l <> [] -> Forall (fun m => m <> "") l -> Go.Join l sep <> "".
Proof.
  destruct l as [|x [|y l]]; intros Hn Hall; [done| |].
  - simpl. by apply Forall_cons in Hall as [? _].
  - rewrite Join_cons2. apply Forall_cons in Hall as [Hx _].
    destruct x; [done|]. by rewrite append_cons.
Qed.

Lemma Join_members_inj (l1 l2 : list string) :
  Forall (fun m => freeOf "," m /\ m <> "") l1 ->
  Forall (fun m => freeOf "," m /\ m <> "") l2 ->
  Go.Join l1 "," = Go.Join l2 "," -> l1 = l2.
Proof.
  intros H1 H2 Heq.
  assert (forall l, Forall (fun m => freeOf "," m /\ m <> "") l ->
                    Forall (freeOf ",") l /\ Forall (fun m => m <> "") l) as Hsplit.
  { intros l Hl. split; (eapply Forall_impl; [exact Hl|]); by intros m [? ?]. }
  destruct (Hsplit _ H1) as [Hf1 He1], (Hsplit _ H2) as [Hf2 He2].
  destruct l1 as [|x l1], l2 as [|y l2]; [done| | |].
  - exfalso. symmetry in Heq. revert Heq. by apply Join_nonempty.
  - exfalso. revert Heq. by apply Join_nonempty.
  - by apply Join_comma_inj.
Qed.

Lemma sortStrings_Permutation (l : list string) : Go.sortStrings l ≡ₚ l.
Proof. apply merge_sort_Permutation. Qed.

(** Sorting forgets the order of a slice and nothing else. *)
Lemma sortStrings_eq_iff (l1 l2 : list string) :
  Go.sortStrings l1 = Go.sortStrings l2 <-> l1 ≡ₚ l2.
Proof.
  split.
  - intros Heq. by rewrite <- (sortStrings_Permutation l1), Heq, sortStrings_Permutation.
  - intros Hperm. apply (Sorted_unique String.le).
    + apply (Sorted_merge_sort String.le).
    + apply (Sorted_merge_sort String.le).
    + by rewrite !sortStrings_Permutation.
Qed.

(** The hashed key determines the members up to their order. *)
Lemma memberKey_eq_iff (sync1 sync2 : Sync) :
  memberKey sync1 = memberKey sync2 <-> memberNames sync1 ≡ₚ memberNames sync2.
Proof.
  unfold memberKey. split.
  - intros Heq. apply sortStrings_eq_iff. apply Join_members_inj; [| |done].
    + rewrite sortStrings_Permutation. apply member_free_of_comma.
    + rewrite sortStrings_Permutation. apply member_free_of_comma.
  - intros Hperm. apply sortStrings_eq_iff in Hperm. by rewrite Hperm.
Qed.

Lemma filter_sources (S T : list Z) :
  filter (fun m => isSource m = true) (map sourceMember S ++ map targetMember T)
  = map sourceMember S.
Proof.
  rewrite filter_app.
  assert (filter (fun m => isSource m = true) (map targetMember T) = []) as ->.
  { induction T as [|t T IH]; [done|]. simpl.
    rewrite filter_cons_False; [done|]. by rewrite isSource_target. }
  rewrite app_nil_r. induction S as [|s S IH]; [done|]. simpl.
  rewrite filter_cons_True by apply isSource_source. by rewrite IH.
Qed.

Lemma filter_targets (S T : list Z) :
  filter (fun m => isSource m = false) (map sourceMember S ++ map targetMember T)
  = map targetMember T.
Proof.
  rewrite filter_app.
  assert (filter (fun m => isSource m = false) (map sourceMember S) = []) as ->.
  { induction S as [|s S IH]; [done|]. simpl.
    rewrite filter_cons_False; [done|]. by rewrite isSource_source. }
  simpl. induction T as [|t T IH]; [done|]. simpl.
  rewrite filter_cons_True by apply isSource_target. by rewrite IH.
Qed.

Lemma map_Permutation_inj {A B} (f : A -> B) `{!Inj (=) (=) f} (l1 l2 : list A) :
  map f l1 ≡ₚ map f l2 -> l1 ≡ₚ l2.
Proof.
  intros Hperm. apply Permutation_map_inv in Hperm as (l3 & Heq & Hperm).
  apply (inj (fmap f)) in Heq. by subst.
Qed.

(** The members, up to order, are the sources and the targets, each up
    to order. *)
Lemma memberNames_Permutation_iff (sync1 sync2 : Sync) :
  memberNames sync1 ≡ₚ memberNames sync2
  <-> Sources sync1 ≡ₚ Sources sync2 /\ Targets sync1 ≡ₚ Targets sync2.
Proof.
  rewrite !memberNames_eq. split.
  - intros Hperm. split.
    + apply (map_Permutation_inj sourceMember (Inj0 := sourceMember_inj)).
      rewrite <- (filter_sources (Sources sync1) (Targets sync1)).
      rewrite <- (filter_sources (Sources sync2) (Targets sync2)).
      by apply filter_Permutation.
    + apply (map_Permutation_inj targetMember (Inj0 := targetMember_inj)).
      rewrite <- (filter_targets (Sources sync1) (Targets sync1)).
      rewrite <- (filter_targets (Sources sync2) (Targets sync2)).
      by apply filter_Permutation.
  - intros [Hs Ht]. by rewrite Hs, Ht.
Qed.

End group_facts.

(** C3 (amended). For source/target syncs of one name the group identity
    is "sg_<name>_" followed by the first four bytes of the SHA-1 of the
    member key, the sorted role-annotated members joined by commas.  It
    is the same for any two source and target lists that are equal up to
    order (repetitions count); the member key differs whenever the
    members differ other than by order, while the identity itself keeps
    32 bits of the hash and can coincide for different members.  For a
    bidirectional sync the identity is "bg_<name>". *)
Theorem C3_group_identity (sync1 sync2 : Sync)
    (Hname : Name sync1 = Name sync2)
    (Hst1 : Bidirectional sync1 = [])
    (Hst2 : Bidirectional sync2 = []) :
  (Sources sync1 ≡ₚ Sources sync2 -> Targets sync1 ≡ₚ Targets sync2 ->
     dbgroupName sync1 = dbgroupName sync2)
  /\ (memberKey sync1 = memberKey sync2
      <-> Sources sync1 ≡ₚ Sources sync2 /\ Targets sync1 ≡ₚ Targets sync2)
  /\ dbgroupName sync1
     = "sg_" +:+ Name sync1 +:+ "_"
       +:+ Go.fmt_x (firstn 4 (SHA1.Sum (SHA1.bytesOfString (memberKey sync1))))
  /\ (forall sync : Sync,
        Bidirectional sync <> [] -> dbgroupName sync = "bg_" +:+ Name sync).
Proof.
  assert (memberKey sync1 = memberKey sync2
          <-> Sources sync1 ≡ₚ Sources sync2 /\ Targets sync1 ≡ₚ Targets sync2) as Hkey.
  { by rewrite memberKey_eq_iff, memberNames_Permutation_iff. }
  split; [|split; [done|split]].
  - intros Hs Ht. unfold dbgroupName. rewrite Hst1, Hst2, Hname. simpl.
    by rewrite (proj2 Hkey (conj Hs Ht)).
  - unfold dbgroupName. by rewrite Hst1.
  - intros sync Hb. unfold dbgroupName. destruct (Bidirectional sync); done.
Qed.

(* ===================================================================== *)
(** ** Traces of port calls *)
(* ===================================================================== *)

Section trace_facts.
Context {E : Type} `{!Ports E}.

Lemma newCalls_spec {A} (m : M E A) (w : World E) (calls : list Call) :
  trace (snd (m w)) = trace w ++ calls -> newCalls m w = calls.
Proof. intros Heq. unfold newCalls. rewrite Heq. by rewrite drop_app_length. Qed.

Lemma emits_ret {A} (P : Call -> Prop) (a : A) : emits P (ret a : M E A).
Proof. intros w. exists []. by rewrite app_nil_r. Qed.

Lemma emits_getWorld (P : Call -> Prop) : emits P (getWorld : M E _).
Proof. intros w. exists []. by rewrite app_nil_r. Qed.

Lemma emits_call (P : Call -> Prop) (c : Call) : P c -> emits P (call c : M E _).
Proof.
  intros Hc w. exists [c]. unfold call.
  destruct (perform c (engine w)) as [r e']. simpl. split; [done|].
  split; [by constructor|done].
Qed.

Lemma emits_bind {A B} (P : Call -> Prop) (m : M E A) (k : A -> M E B) :
  emits P m -> (forall a, emits P (k a)) -> emits P (bind m k).
Proof.
  intros Hm Hk w. unfold bind. destruct (Hm w) as (c1 & Heq1 & H1 & Hf1).
  destruct (m w) as [a w1]. simpl in Heq1, Hf1.
  destruct (Hk a w1) as (c2 & Heq2 & H2 & Hf2).
  exists (c1 ++ c2). rewrite Heq2, Heq1, <- app_assoc. split; [done|].
  split; [by apply Forall_app|congruence].
Qed.

Lemma emits_impl {A} (P Q : Call -> Prop) (m : M E A) :
  (forall c, P c -> Q c) -> emits P m -> emits Q m.
Proof.
  intros HPQ Hm w. destruct (Hm w) as (calls & Heq & Hcalls & Hframe).
  exists calls. split; [done|]. split; [|done].
  eapply Forall_impl; [exact Hcalls|done].
Qed.

Lemma emits_forRange {A} (P : Call -> Prop) (l : list A) (body : A -> M E Go.error) :
  (forall x, In x l -> emits P (body x)) -> emits P (forRange l body).
Proof.
  induction l as [|x l IH]; intros Hbody; simpl.
  - apply emits_ret.
  - apply emits_bind; [apply Hbody; by left|].
    intros [e|]; [apply emits_ret|]. apply IH. intros y Hy. apply Hbody. by right.
Qed.

Lemma emits_phased_first {A} (P Q : Call -> Prop) (m : M E A) :
  emits P m -> phased P Q m.
Proof.
  intros Hm w. destruct (Hm w) as (c & Heq & Hc & _).
  exists c, []. by rewrite app_nil_r.
Qed.

Lemma emits_phased_second {A} (P Q : Call -> Prop) (m : M E A) :
  emits Q m -> phased P Q m.
Proof.
  intros Hm w. destruct (Hm w) as (c & Heq & Hc & _). by exists [], c.
Qed.

Lemma phased_bind_first {A B} (P Q : Call -> Prop) (m : M E A) (k : A -> M E B) :
  emits P m -> (forall a, phased P Q (k a)) -> phased P Q (bind m k).
Proof.
  intros Hm Hk w. unfold bind. destruct (Hm w) as (c1 & Heq1 & H1 & _).
  destruct (m w) as [a w1]. simpl in Heq1.
  destruct (Hk a w1) as (c2 & c3 & Heq2 & H2 & H3).
  exists (c1 ++ c2), c3. rewrite Heq2, Heq1, <- !app_assoc.
  split; [done|]. split; [by apply Forall_app|done].
Qed.

Lemma phased_bind_second {A B} (P Q : Call -> Prop) (m : M E A) (k : A -> M E B) :
  phased P Q m -> (forall a, emits Q (k a)) -> phased P Q (bind m k).
Proof.
  intros Hm Hk w. unfold bind. destruct (Hm w) as (c1 & c2 & Heq1 & H1 & H2).
  destruct (m w) as [a w1]. simpl in Heq1.
  destruct (Hk a w1) as (c3 & Heq2 & H3 & _).
  exists c1, (c2 ++ c3). rewrite Heq2, Heq1, <- !app_assoc.
  split; [done|]. split; [done|by apply Forall_app].
Qed.

End trace_facts.

(** Breaks a goal [emits P m] down along the structure of [m]. *)
Ltac emits_steps :=
  repeat match goal with
         | |- emits _ (match ?x with _ => _ end) => destruct x
         | |- emits ?P ?m =>
             lazymatch m with
             | call ?c => refine (emits_call P c _); simpl
             | ret _ => apply emits_ret
             | getWorld => apply emits_getWorld
             | bind _ _ => apply emits_bind; [|intros ?]
             end
         end.

Section reconcile_facts.
Context {E : Type} `{!Ports E}.

Lemma removeOrphanedDbs_emits (config : BucardoConfig) :
  emits (fun c => ~ isCommand c) (removeOrphanedDbs config : M E _).
Proof.
  unfold removeOrphanedDbs. emits_steps; try tauto.
  apply emits_forRange. intros x _. emits_steps; tauto.
Qed.

Lemma removeOrphanedSyncs_emits (config : BucardoConfig) (c : Conn) :
  emits (fun c => ~ isCommand c) (removeOrphanedSyncs config c : M E _).
Proof.
  unfold removeOrphanedSyncs, RemoveSyncAndRelgroup. emits_steps; try tauto.
  apply emits_forRange. intros x _. emits_steps; tauto.
Qed.

Lemma addDatabasesToBucardo_emits (config : BucardoConfig) :
  emits (fun c => ~ isOrphanDelete config c) (addDatabasesToBucardo config : M E _).
Proof.
  unfold addDatabasesToBucardo, ExecuteBucardoCommand.
  apply emits_forRange. intros x _. emits_steps; tauto.
Qed.

Lemma addSync_emits (P : Call -> Prop) (sync : Sync) :
  (forall args, P (CExecuteBucardoCommand args)) -> emits P (addSync sync : M E _).
Proof.
  intros HP. unfold addSync, ExecuteBucardoCommand.
  emits_steps; apply HP.
Qed.

Lemma updateSync_emits (P : Call -> Prop) (sync : Sync) :
  (forall args, P (CExecuteBucardoCommand args)) -> emits P (updateSync sync : M E _).
Proof.
  intros HP. unfold updateSync, ExecuteBucardoCommand.
  emits_steps; apply HP.
Qed.

Lemma reconcileSync_emits (config : BucardoConfig) (c : Conn) (sync : Sync) :
  In sync (Syncs config) ->
  emits (fun c => ~ isOrphanDelete config c) (reconcileSync c sync : M E _).
Proof.
  intros Hin.
  unfold reconcileSync, checkTables, RemoveSyncAndRelgroup, addSync, updateSync,
    ExecuteBucardoCommand.
  emits_steps; try tauto.
  all: intros Hn; apply Hn; by apply in_map.
Qed.

Lemma addSyncsToBucardo_emits (config : BucardoConfig) (c : Conn) :
  emits (fun c => ~ isOrphanDelete config c) (addSyncsToBucardo config c : M E _).
Proof.
  unfold addSyncsToBucardo. apply emits_forRange. intros sync Hin.
  by apply reconcileSync_emits.
Qed.

End reconcile_facts.

Section cycle_facts.
Context {E : Type} `{!Ports E}.

Lemma getEnv_emits (P : Call -> Prop) (key fallback : string) :
  emits P (getEnv key fallback : M E _).
Proof. unfold getEnv. emits_steps. Qed.

Lemma setLogLevel_emits (config : BucardoConfig) :
  emits (fun c => ~ isCommand c) (setLogLevel config : M E _).
Proof. unfold setLogLevel. emits_steps. tauto. Qed.

(** A reconciliation cycle makes its calls in two phases: up to the end
    of orphan pruning no engine command is issued, and from the
    reconciliation of the declared databases on nothing undeclared is
    deleted. *)
Lemma reconcile_phased (config : BucardoConfig) :
  phased (fun c => ~ isCommand c) (fun c => ~ isOrphanDelete config c)
         (reconcile config : M E _).
Proof.
  unfold reconcile.
  apply phased_bind_first; [emits_steps; tauto|intros _].
  do 5 (apply phased_bind_first; [apply getEnv_emits|intros ?]).
  apply phased_bind_first; [emits_steps; tauto|intros [e|]].
  { apply emits_phased_first. emits_steps. }
  apply phased_bind_second; [|intros ?; emits_steps; tauto].
  apply phased_bind_first; [emits_steps; tauto|intros _].
  apply phased_bind_first; [emits_steps; tauto|intros [e|]].
  { apply emits_phased_first. emits_steps. }
  apply phased_bind_first; [apply setLogLevel_emits|intros _].
  apply phased_bind_first; [apply removeOrphanedDbs_emits|intros _].
  apply phased_bind_first; [apply removeOrphanedSyncs_emits|intros _].
  apply emits_phased_second.
  apply emits_bind; [apply addDatabasesToBucardo_emits|intros [e|]].
  { emits_steps. }
  apply emits_bind; [apply addSyncsToBucardo_emits|intros [e|]].
  { emits_steps. }
  emits_steps. tauto.
Qed.

Lemma ReloadAndRestart_phased (w : World E) (config : BucardoConfig) :
  configFile w = FileContent config ->
  exists pruning reconciling,
    newCalls ReloadAndRestart w = pruning ++ reconciling
    /\ Forall (fun c => ~ isCommand c) pruning
    /\ Forall (fun c => ~ isOrphanDelete config c) reconciling.
Proof.
  intros Hfile.
  assert (ReloadAndRestart w
          = if (0 <? length (validateConfig config))%nat
            then (Some "configuration validation failed", w)
            else reconcile config w) as Hrun.
  { unfold ReloadAndRestart, bind, getWorld. rewrite Hfile.
    rewrite (LoadConfig_content _ _ Hfile).
    by destruct (0 <? length (validateConfig config))%nat. }
  destruct (0 <? length (validateConfig config))%nat.
  - exists [], []. split; [|done]. apply newCalls_spec. rewrite Hrun. simpl.
    by rewrite app_nil_r.
  - destruct (reconcile_phased config w) as (c1 & c2 & Heq & H1 & H2).
    exists c1, c2. split; [|done]. apply newCalls_spec. by rewrite Hrun.
Qed.

End cycle_facts.

(** C1 (amended). In every reconciliation cycle orphan pruning comes
    first: each call that deletes a database or sync the configuration
    does not declare is made before every engine command that creates or
    updates a declared database or sync. *)
Theorem C1_pruning_precedes_declared {E : Type} `{!Ports E}
    (w : World E) (config : BucardoConfig)
    (Hfile : configFile w = FileContent config) :
  forall (i j : nat) (prune command : Call),
    newCalls ReloadAndRestart w !! i = Some prune ->
    newCalls ReloadAndRestart w !! j = Some command ->
    isOrphanDelete config prune ->
    isCommand command ->
    (i < j)%nat.
Proof.
  intros i j prune command Hi Hj Hprune Hcommand.
  destruct (ReloadAndRestart_phased w config Hfile) as (c1 & c2 & Heq & H1 & H2).
  rewrite Heq in Hi, Hj.
  assert (i < length c1)%nat as Hlt.
  { destruct (decide (i < length c1)%nat) as [|Hge]; [done|]. exfalso.
    rewrite lookup_app_r in Hi by lia.
    rewrite Forall_lookup in H2. by apply (H2 _ _ Hi). }
  assert (length c1 <= j)%nat as Hle.
  { destruct (decide (length c1 <= j)%nat) as [|Hlt']; [done|]. exfalso.
    rewrite lookup_app_l in Hj by lia.
    rewrite Forall_lookup in H1. by apply (H1 _ _ Hj). }
  lia.
Qed.

(* ===================================================================== *)
(** ** Destructive recreation *)
(* ===================================================================== *)

Section tables_facts.

Lemma freeOf_rev_app c (s t : string) :
  freeOf c (String.rev_app s t) <-> freeOf c s /\ freeOf c t.
Proof.
  revert t. induction s as [|a s IH]; intros t; simpl; [tauto|].
  rewrite IH. simpl. tauto.
Qed.

Lemma freeOf_rev c (s : string) : freeOf c (String.rev s) <-> freeOf c s.
Proof. unfold String.rev. rewrite freeOf_rev_app. simpl. tauto. Qed.

Lemma TrimLeftFunc_free c f (s : string) :
  freeOf c s -> freeOf c (Go.TrimLeftFunc f s).
Proof.
  induction s as [|a s IH]; simpl; [done|]. intros [Ha Hs].
  destruct (f a); simpl; auto.
Qed.

Lemma TrimLeftRunes_free c one two three (s : string) :
  freeOf c s -> freeOf c (Go.TrimLeftRunes one two three s).
Proof.
  assert (forall n s, (String.length s <= n)%nat -> freeOf c s ->
                      freeOf c (Go.TrimLeftRunes one two three s)) as Hlen.
  { induction n as [|n IH]; intros [|a1 s1] Hn Hs; cbn in Hn; try done; try lia.
    cbn [Go.TrimLeftRunes]. pose proof Hs as [Ha1 Hs1].
    destruct (one a1); [apply IH; [lia|done]|].
    destruct s1 as [|a2 s2]; [done|]. pose proof Hs1 as [Ha2 Hs2]. cbn in Hn.
    destruct (two a1 a2); [apply IH; [lia|done]|].
    destruct s2 as [|a3 s3]; [done|]. pose proof Hs2 as [Ha3 Hs3]. cbn in Hn.
    destruct (three a1 a2 a3); [apply IH; [lia|done]|]. done. }
  intros Hs. by apply (Hlen (String.length s)).
Qed.

Lemma TrimSpace_free c (s : string) : freeOf c s -> freeOf c (Go.TrimSpace s).
Proof.
  intros Hs. unfold Go.TrimSpace. cbv zeta.
  apply freeOf_rev, TrimLeftRunes_free, freeOf_rev. by apply TrimLeftRunes_free.
Qed.

Lemma SplitGo_free sep (cur s : string) :
  freeOf sep cur -> Forall (freeOf sep) (Go.SplitGo sep cur s).
Proof.
  revert cur. induction s as [|a s IH]; intros cur Hcur; simpl.
  - constructor; [|done]. by apply freeOf_rev.
  - destruct (Ascii.eqb_spec a sep) as [->|Hne].
    + constructor; [by apply freeOf_rev|]. by apply IH.
    + apply IH. simpl. done.
Qed.

Lemma SplitGo_nonempty sep (cur s : string) : Go.SplitGo sep cur s <> [].
Proof.
  revert cur. induction s as [|a s IH]; intros cur; simpl; [done|].
  destruct (Ascii.eqb a sep); [done|apply IH].
Qed.



(** What the adapter returns for a relgroup is sorted. *)
Lemma tablesOfMatches_sorted (submatches : list string) :
  Sorted String.le (cli.tablesOfMatches submatches).
Proof. apply (Sorted_merge_sort String.le). Qed.

End tables_facts.

Section recreation_facts.
Context {E : Type} `{!Ports E}.

Lemma call_perform (c : Call) (w : World E) (r : Resp c) (e' : E) :
  perform c (engine w) = (r, e') -> call c w = (r, record c e' w).
Proof. intros Heq. unfold call. by rewrite Heq. Qed.

Lemma trace_record (c : Call) (e' : E) (w : World E) :
  trace (record c e' w) = trace w ++ [c].
Proof. reflexivity. Qed.


Lemma run_bind {A B} (m : M E A) (k : A -> M E B) (w : World E) :
  bind m k w = k (fst (m w)) (snd (m w)).
Proof. unfold bind. by destruct (m w). Qed.

Lemma run_call (c : Call) (w : World E) :
  call c w = (fst (perform c (engine w)), record c (snd (perform c (engine w))) w).
Proof. unfold call. by destruct (perform c (engine w)). Qed.



End recreation_facts.


(* ===================================================================== *)
(** ** Completion monitor *)
(* ===================================================================== *)

Section monitor_facts.
Context {E : Type} `{!Ports E}.

Lemma rangeRunOnce_spec (line : string) (keys : list string)
    (m : gmap string bool) (w : World E) :
  fst (rangeRunOnce line keys m w) = foldl (dropNamed line) m keys
  /\ trace (snd (rangeRunOnce line keys m w))
     = trace w ++ map stopCommand (List.filter (names line) keys).
Proof.
  revert m w. induction keys as [|k keys IH]; intros m w; simpl.
  - by rewrite app_nil_r.
  - unfold bind, checkCompletion, dropNamed. fold (names line k).
    destruct (names line k); simpl.
    + unfold bind, call.
      destruct (perform (CExecuteBucardoCommand ["stop"; k]) (engine w)) as [r e'].
      simpl.
      destruct (IH (delete k m) (record (CExecuteBucardoCommand ["stop"; k]) e' w))
        as [-> ->].
      split; [done|]. rewrite trace_record. by rewrite <- app_assoc.
    + apply IH.
Qed.

Lemma foldl_dropNamed_lookup (line : string) (keys : list string)
    (m : gmap string bool) (k : string) :
  foldl (dropNamed line) m keys !! k
  = if decide (k ∈ keys /\ names line k = true) then None else m !! k.
Proof.
  revert m. induction keys as [|k' keys IH]; intros m; cbn [foldl].
  - case_decide as Hd; [|done]. destruct Hd as [Hin _]. by apply elem_of_nil in Hin.
  - rewrite IH. unfold dropNamed.
    destruct (decide (k' = k)) as [->|Hne].
    + destruct (names line k) eqn:Hn.
      * rewrite lookup_delete_eq. repeat case_decide; try done.
        all: exfalso; match goal with H : ~ (_ /\ _) |- _ => apply H end.
        all: split; [by left|done].
      * repeat case_decide; try done;
          match goal with H : _ /\ _ |- _ => destruct H; congruence end.
    + assert (k ∈ k' :: keys <-> k ∈ keys) as Hiff.
      { rewrite elem_of_cons. split; [intros [?|?]; done|by right]. }
      destruct (names line k'); rewrite ?lookup_delete_ne by done;
        repeat case_decide; try done; exfalso; tauto.
Qed.

(** The range loop leaves exactly the pending syncs the line does not
    name. *)
Lemma foldl_dropNamed_keys (line : string) (m : gmap string bool) :
  foldl (dropNamed line) m (map fst (map_to_list m))
  = filter (fun kv => names line (fst kv) = false) m.
Proof.
  apply map_eq. intros k. rewrite foldl_dropNamed_lookup.
  apply option_eq. intros v. rewrite map_lookup_filter_Some. simpl.
  destruct (decide _) as [[Hin Hn]|Hno].
  - split; [done|]. intros [_ Hf]. congruence.
  - split.
    + intros Hk. split; [done|]. destruct (names line k) eqn:Hn; [|done].
      exfalso. apply Hno. split; [|done].
      apply list_elem_of_In, in_map_iff. exists (k, v). split; [done|].
      by apply list_elem_of_In, elem_of_map_to_list.
    + by intros [? _].
Qed.

Lemma stopCommand_In_keys (line : string) (m : gmap string bool) (name : string) :
  In (stopCommand name) (map stopCommand (List.filter (names line) (map fst (map_to_list m))))
  <-> is_Some (m !! name) /\ names line name = true.
Proof.
  rewrite in_map_iff. split.
  - intros (k & [= ->] & Hk). apply filter_In in Hk as [Hk Hn]. split; [|done].
    apply in_map_iff in Hk as ([k' v] & <- & Hkv).
    apply list_elem_of_In, elem_of_map_to_list in Hkv. eauto.
  - intros [[v Hv] Hn]. exists name. split; [done|]. apply filter_In. split; [|done].
    apply in_map_iff. exists (name, v). split; [done|].
    by apply list_elem_of_In, elem_of_map_to_list.
Qed.

(** What the monitor does with one log line. *)
Lemma monitorSyncsEvent_LogLine (s : Setup) (pending : gmap string bool)
    (line : string) (w : World E) :
  let pending' := pendingAfter line pending in
  let stops :=
    if Go.Contains line "Reason: Normal exit"
    then map stopCommand (List.filter (names line) (map fst (map_to_list pending)))
    else [] in
  fst (monitorSyncsEvent s pending (LogLine line) w)
  = (if (size pending' =? 0)%nat
     then if allSyncsAreRunOnce s then Returned else SteadyState
     else Watching pending')
  /\ newCalls (monitorSyncsEvent s pending (LogLine line)) w
     = stops ++ (if (size pending' =? 0)%nat && allSyncsAreRunOnce s
                 then [CStopBucardo] else []).
Proof.
  intros pending' stops.
  assert (exists w2,
             monitorSyncsEvent s pending (LogLine line) w
             = (if (size pending' =? 0)%nat
                then if allSyncsAreRunOnce s then Returned else SteadyState
                else Watching pending', w2)
             /\ trace w2
                = trace w ++ stops
                  ++ (if (size pending' =? 0)%nat && allSyncsAreRunOnce s
                      then [CStopBucardo] else [])) as (w2 & Hrun & Htrace2).
  { unfold monitorSyncsEvent, bind.
    assert (exists w1,
               (if Go.Contains line "Reason: Normal exit"
                then rangeRunOnce line (map fst (map_to_list pending)) pending
                else ret pending) w = (pending', w1)
               /\ trace w1 = trace w ++ stops) as (w1 & -> & Htrace).
    { subst pending' stops. unfold pendingAfter.
      destruct (Go.Contains line "Reason: Normal exit").
      - destruct (rangeRunOnce_spec line (map fst (map_to_list pending)) pending w)
          as [Hfst Hsnd].
        destruct (rangeRunOnce _ _ _ _) as [m w1]. simpl in *.
        exists w1. by rewrite Hfst, foldl_dropNamed_keys.
      - exists w. unfold ret. by rewrite app_nil_r. }
    destruct (size pending' =? 0)%nat; cbn [andb].
    - destruct (allSyncsAreRunOnce s).
      + unfold stopBucardoFunc, bind.
        destruct (perform CStopBucardo (engine w1)) as [r e'] eqn:Hp.
        rewrite (call_perform _ _ _ _ Hp). eexists. split; [done|].
        by rewrite trace_record, Htrace, <- app_assoc.
      + exists w1. split; [done|]. by rewrite app_nil_r.
    - exists w1. split; [done|]. by rewrite app_nil_r. }
  split; [by rewrite Hrun|]. apply newCalls_spec. by rewrite Hrun.
Qed.

End monitor_facts.

(** C5. In the watching state a log line that holds the completion phrase
    is tested against every pending run-once sync by the bracketed worker
    form "KID (<name>)" of its name: the syncs it names leave the pending
    set, the others stay, and one stop command is issued for each sync it
    names.  The next state is fixed by the line and the pending set alone:
    whatever the engine answers to a stop command, monitoring goes on and
    no other entry is removed. *)
Theorem C5_completion_line_handling {E : Type} `{!Ports E}
    (s : Setup) (pending : gmap string bool) (line : string) (w : World E)
    (Hphrase : Go.Contains line "Reason: Normal exit" = true) :
  let named (name : string) := Go.Contains line ("KID (" +:+ name +:+ ")") = true in
  let pending' := pendingAfter line pending in
  let calls := newCalls (monitorSyncsEvent s pending (LogLine line)) w in
  (forall name, pending' !! name = if decide (named name) then None else pending !! name)
  /\ fst (monitorSyncsEvent s pending (LogLine line) w)
     = (if decide (pending' = ∅)
        then if allSyncsAreRunOnce s then Returned else SteadyState
        else Watching pending')
  /\ (forall name,
        In (CExecuteBucardoCommand ["stop"; name]) calls
        <-> is_Some (pending !! name) /\ named name).
Proof.
  intros named pending' calls.
  destruct (monitorSyncsEvent_LogLine s pending line w) as [Hstate Hcalls].
  fold pending' in Hstate, Hcalls. fold calls in Hcalls. rewrite Hphrase in Hcalls.
  split; [|split].
  - intros name. subst pending'. unfold pendingAfter. rewrite Hphrase.
    apply option_eq. intros v. rewrite map_lookup_filter_Some. simpl.
    unfold named, names. case_decide as Hn.
    + split; [intros [_ Hf]; congruence|done].
    + split; [by intros [? _]|]. intros Hv. split; [done|].
      by destruct (Go.Contains line ("KID (" +:+ name +:+ ")")).
  - rewrite Hstate. case_decide as He.
    + rewrite He. by rewrite map_size_empty.
    + destruct (size pending' =? 0)%nat eqn:Hsz; [|done].
      apply Nat.eqb_eq, map_size_empty_iff in Hsz. done.
  - intros name. rewrite Hcalls, in_app_iff.
    rewrite (stopCommand_In_keys line pending name). split.
    + intros [Hin|Hin]; [done|].
      destruct (_ && _); simpl in Hin; [|done]. by destruct Hin as [|[]].
    + tauto.
Qed.

Section run_once_facts.






(** With unique sync names the map of run-once syncs has one entry per
    run-once sync. *)
Lemma runOnceOf_size (syncs : list Sync) (m : gmap string bool) (mt : option Z) :
  List.NoDup (map Name syncs) ->
  (forall sync, In sync syncs -> m !! Name sync = None) ->
  size (fst (foldl runOnceStep (m, mt) syncs))
  = (size m + length (List.filter isRunOnce syncs))%nat.
Proof.
  revert m mt. induction syncs as [|sync syncs IH]; intros m mt Hnd Hfresh.
  - simpl. lia.
  - inversion Hnd as [|? ? Hnotin Hnd']; subst.
    cbn [foldl List.filter].
    destruct (runOnceStep (m, mt) sync) as [m' mt'] eqn:Hstep.
    destruct (isRunOnce sync) eqn:Hro; unfold runOnceStep, isRunOnce in Hstep, Hro;
      destruct (ExitOnComplete sync) as [[|]|]; simplify_eq.
    + rewrite IH; [|done|].
      * rewrite map_size_insert_None by (apply Hfresh; by left). simpl. lia.
      * intros sync' Hin'. rewrite lookup_insert_ne.
        -- apply Hfresh. by right.
        -- intros Heq. apply Hnotin. rewrite Heq. by apply in_map.
    + apply IH; [done|]. intros ? ?. apply Hfresh. by right.
    + apply IH; [done|]. intros ? ?. apply Hfresh. by right.
Qed.

Lemma filter_length_all {A} (f : A -> bool) (l : list A) :
  length (List.filter f l) = length l <-> forall x, In x l -> f x = true.
Proof.
  induction l as [|x l IH]; simpl; [split; [done|done]|].
  pose proof (List.filter_length_le f l) as Hle.
  destruct (f x) eqn:Hfx; simpl.
  - split.
    + intros Hlen x' [<-|Hin]; [done|]. apply IH; [lia|done].
    + intros Hall. f_equal. apply IH. auto.
  - split; [lia|]. intros Hall. specialize (Hall x (or_introl eq_refl)). congruence.
Qed.

(** The flag the monitor computes from the two lengths says that every
    sync is run-once, as long as sync names are unique. *)
Lemma allSyncsAreRunOnce_iff (config : BucardoConfig) :
  List.NoDup (map Name (Syncs config)) ->
  allSyncsAreRunOnce
    (setup config (fst (runOnceOf config)) (snd (runOnceOf config))) = true
  <-> forall sync, In sync (Syncs config) -> ExitOnComplete sync = Some true.
Proof.
  intros Hnd. unfold setup, allSyncsAreRunOnce, runOnceOf.
  rewrite (runOnceOf_size _ ∅ None Hnd) by (intros; apply lookup_empty).
  rewrite map_size_empty, Nat.eqb_eq, Nat.add_0_l.
  split.
  - intros Hlen sync Hin. symmetry in Hlen.
    pose proof (proj1 (filter_length_all isRunOnce _) Hlen sync Hin) as Hro.
    unfold isRunOnce in Hro. by destruct (ExitOnComplete sync) as [[|]|].
  - intros Hall. symmetry. apply filter_length_all. intros sync Hin.
    unfold isRunOnce. by rewrite (Hall sync Hin).
Qed.

End run_once_facts.

Section steady_facts.
Context {E : Type} `{!Ports E}.

(** In steady state nothing read from the log or the clock changes
    anything: only a signal or a cancellation ends supervision, with a
    stop of the engine. *)
Lemma steady_state_events (s : Setup) (ev : Event) (w : World E) :
  match ev with
  | SignalReceived | ContextDone =>
      fst (onEvent s SteadyState ev w) = Returned
      /\ newCalls (onEvent s SteadyState ev) w = [CStopBucardo]
  | LogLine _ | LogClosed | TimeoutElapsed =>
      onEvent s SteadyState ev w = (SteadyState, w)
  end.
Proof.
  destruct ev; try done; unfold onEvent, monitorBucardoEvent, stopBucardoFunc, bind;
    destruct (perform CStopBucardo (engine w)) as [r e'] eqn:Hp;
    (split; [by rewrite (call_perform _ _ _ _ Hp)|]);
    apply newCalls_spec; by rewrite (call_perform _ _ _ _ Hp).
Qed.

Lemma stopCommand_not_StopBucardo (keys : list string) :
  ~ In CStopBucardo (map stopCommand keys).
Proof. intros (k & Hk & _)%in_map_iff. discriminate. Qed.

End steady_facts.

(** C6. When a log line empties the pending run-once set: if every sync
    of the configuration is run-once the monitor stops the engine and
    returns, and the process ends with status 0; otherwise the monitor
    goes to steady state without stopping the engine.  In steady state
    log lines, the end of the log and the deadline change nothing, and a
    signal or a cancellation stops the engine and ends supervision. *)
Theorem C6_pending_set_emptied {E : Type} `{!Ports E}
    (config : BucardoConfig) (pending : gmap string bool) (line : string)
    (w : World E)
    (Hunique : List.NoDup (map Name (Syncs config)))
    (Hempty : pendingAfter line pending = ∅) :
  let s := setup config (fst (runOnceOf config)) (snd (runOnceOf config)) in
  let allRunOnce :=
    forall sync, In sync (Syncs config) -> ExitOnComplete sync = Some true in
  let next := fst (monitorSyncsEvent s pending (LogLine line) w) in
  let calls := newCalls (monitorSyncsEvent s pending (LogLine line)) w in
  (allRunOnce ->
     next = Returned /\ last calls = Some CStopBucardo
     /\ exitStatus (None, Some next) = Some 0)
  /\ (~ allRunOnce -> next = SteadyState /\ ~ In CStopBucardo calls)
  /\ (forall (ev : Event) (w' : World E),
        match ev with
        | SignalReceived | ContextDone =>
            fst (onEvent s SteadyState ev w') = Returned
            /\ newCalls (onEvent s SteadyState ev) w' = [CStopBucardo]
        | LogLine _ | LogClosed | TimeoutElapsed =>
            onEvent s SteadyState ev w' = (SteadyState, w')
        end).
Proof.
  intros s allRunOnce next calls.
  destruct (monitorSyncsEvent_LogLine s pending line w) as [Hstate Hcalls].
  fold next in Hstate. fold calls in Hcalls.
  rewrite Hempty, map_size_empty in Hstate, Hcalls. cbn [Nat.eqb andb] in Hstate, Hcalls.
  pose proof (allSyncsAreRunOnce_iff config Hunique) as Hflag. fold s allRunOnce in Hflag.
  split; [|split].
  - intros Hall. apply Hflag in Hall. rewrite Hall in Hstate, Hcalls.
    rewrite Hstate, Hcalls. split; [done|]. split; [apply last_snoc|reflexivity].
  - intros Hnot. destruct (allSyncsAreRunOnce s) eqn:Hb.
    + exfalso. by apply Hnot, Hflag.
    + split; [done|]. rewrite Hcalls, app_nil_r.
      destruct (Go.Contains line "Reason: Normal exit"); [|by intros []].
      apply stopCommand_not_StopBucardo.
  - intros ev w'. apply steady_state_events.
Qed.


(* ===================================================================== *)
(** ** What the monitor is handed *)
(* ===================================================================== *)

Lemma validateSync_clean dbIDs syncNames (sync : Sync) :
  fst (validateSync dbIDs ([], syncNames) sync) = [] ->
  Name sync <> "" /\ Go.mapGet syncNames (Name sync) = false.
Proof.
  unfold validateSync.
  destruct (String.eqb_spec (Name sync) "") as [|Hname]; [done|].
  destruct (Go.mapGet syncNames (Name sync)); [|done].
  cbn [fst]. intros Hnil. exfalso. revert Hnil.
  repeat match goal with
         | |- context [if ?b then _ else _] => destruct b
         end;
    normalize_checks; simpl; discriminate.
Qed.

Lemma validateSync_seen dbIDs errors syncNames (sync : Sync) :
  Name sync <> "" ->
  snd (validateSync dbIDs (errors, syncNames) sync) = <[Name sync := true]> syncNames.
Proof.
  intros Hname. unfold validateSync.
  by destruct (String.eqb_spec (Name sync) "").
Qed.

Lemma validateSyncs_clean dbIDs (syncs : list Sync) errors syncNames :
  fst (foldl (validateSync dbIDs) (errors, syncNames) syncs) = [] ->
  errors = []
  /\ List.NoDup (map Name syncs)
  /\ forall sync, In sync syncs ->
       Name sync <> "" /\ Go.mapGet syncNames (Name sync) = false.
Proof.
  revert errors syncNames.
  induction syncs as [|sync syncs IH]; intros errors syncNames Hnil.
  - simpl in Hnil. subst. split; [done|]. split; [constructor|done].
  - cbn [foldl] in Hnil.
    destruct (validateSync dbIDs (errors, syncNames) sync) as [errors' syncNames'] eqn:Hstep.
    apply IH in Hnil as (-> & Hnd & Hrest).
    pose proof (validateSync_app dbIDs errors syncNames sync) as Happ.
    rewrite Hstep in Happ. cbn [fst] in Happ. symmetry in Happ.
    apply app_eq_nil in Happ as [-> Hown].
    apply validateSync_clean in Hown as [Hname Hfresh].
    pose proof (validateSync_seen dbIDs [] syncNames sync Hname) as Hseen.
    rewrite Hstep in Hseen. cbn [snd] in Hseen. subst syncNames'.
    assert (forall sync', In sync' syncs ->
              Name sync' <> Name sync /\ Go.mapGet syncNames (Name sync') = false)
      as Hother.
    { intros sync' Hin'. destruct (Hrest sync' Hin') as [_ Hget].
      unfold Go.mapGet in Hget.
      destruct (decide (Name sync = Name sync')) as [Heq|Hne].
      - rewrite Heq, lookup_insert_eq in Hget. done.
      - rewrite lookup_insert_ne in Hget by done. split; [congruence|done]. }
    split; [done|]. split.
    + simpl. constructor; [|done].
      intros (sync' & Heq & Hin')%in_map_iff.
      by destruct (Hother sync' Hin') as [Hne _].
    + intros sync' [<-|Hin']; [done|].
      destruct (Hrest sync' Hin') as [Hn _]. destruct (Hother sync' Hin') as [_ Hg].
      done.
Qed.

(** A configuration without validation errors names every sync, and no
    two syncs alike. *)
Lemma validated_names_unique (config : BucardoConfig) :
  validateConfig config = [] ->
  List.NoDup (map Name (Syncs config))
  /\ forall sync, In sync (Syncs config) -> Name sync <> "".
Proof.
  unfold validateConfig. destruct (foldl validateDatabase _ _) as [errors dbIDs].
  intros Hnil. apply validateSyncs_clean in Hnil as (_ & Hnd & Hnames).
  split; [done|]. intros sync Hin. by destruct (Hnames sync Hin).
Qed.

Section run_facts.
Context {E : Type} `{!Ports E}.

Lemma reconcile_emits (config : BucardoConfig) :
  emits (fun _ => True) (reconcile config : M E _).
Proof.
  unfold reconcile, getEnv, setLogLevel. emits_steps; try done.
  all: first
         [ by eapply emits_impl; [|apply removeOrphanedDbs_emits]
         | by eapply emits_impl; [|apply removeOrphanedSyncs_emits]
         | by eapply emits_impl; [|apply addDatabasesToBucardo_emits]
         | by eapply emits_impl; [|apply addSyncsToBucardo_emits] ].
Qed.

(** [Service.Run] starts a monitor only on a configuration that passed
    validation, and hands it the run-once syncs and the timeout computed
    from that configuration. *)
Lemma Run_monitors_validated (events : list Event) (w : World E) (st : MonitorState) :
  fst (Run events w) = (None, Some st) ->
  exists config w1,
    configFile w = FileContent config
    /\ validateConfig config = []
    /\ List.NoDup (map Name (Syncs config))
    /\ ReloadAndRestart w = (None, w1)
    /\ st = fst ((if (0 <? size (fst (runOnceOf config)))%nat
                  then MonitorSyncs config (fst (runOnceOf config))
                         (snd (runOnceOf config)) events
                  else MonitorBucardo events) w1).
Proof.
  unfold Run, bind. destruct (ReloadAndRestart w) as [[e|] w1] eqn:Hreload; [done|].
  assert (exists config, configFile w = FileContent config
                         /\ validateConfig config = []
                         /\ configFile w1 = configFile w) as (config & Hfile & Hvalid & Hframe).
  { unfold ReloadAndRestart, bind, getWorld in Hreload.
    destruct (configFile w) as [| |config] eqn:Hfile; [done| |].
    - unfold LoadConfig, bind, getWorld, ret in Hreload. rewrite Hfile in Hreload. done.
    - rewrite (LoadConfig_content _ _ Hfile) in Hreload.
      destruct (validateConfig config) as [|e errs] eqn:Hvalid; [|done].
      exists config. split; [done|]. split; [done|]. cbn [length Nat.ltb Nat.leb] in Hreload.
      destruct (reconcile_emits config w) as (calls & _ & _ & Hframe).
      rewrite Hreload in Hframe. cbn [snd] in Hframe. by rewrite Hframe. }
  rewrite Hfile in Hframe. rewrite (LoadConfig_content _ _ Hframe).
  destruct (runOnceOf config) as [pending mt] eqn:Hro. cbn [fst snd].
  intros Hrun. exists config, w1. split; [done|]. split; [done|].
  split; [by apply validated_names_unique|]. split; [done|].
  rewrite Hro. cbn [fst snd].
  destruct (0 <? size pending)%nat; unfold bind in Hrun.
  - destruct (MonitorSyncs config pending mt events w1). by simplify_eq/=.
  - destruct (MonitorBucardo events w1). by simplify_eq/=.
Qed.

End run_facts.

Section redaction_facts.

Lemma redactGo_skip (q post : string) :
  freeOf " " q -> cli.redactGo true (q +:+ post) = cli.redactGo true post.
Proof.
  induction q as [|c q IH]; [done|]. intros [Hc Hq]. rewrite append_cons.
  cbn [cli.redactGo]. destruct (Ascii.eqb_spec c " "); [done|]. by apply IH.
Qed.

(** Whether a match starts at a byte before "pass=" does not depend on
    what follows "pass=": the six bytes looked at end inside it. *)
Lemma startsMatch_window (c : ascii) (pre x y : string) :
  cli.startsMatch (String c (pre +:+ "pass=" +:+ x))
  = cli.startsMatch (String c (pre +:+ "pass=" +:+ y)).
Proof.
  destruct pre as [|c1 [|c2 [|c3 [|c4 [|c5 pre]]]]]; reflexivity.
Qed.

Lemma startsMatch_password (p post : string) :
  freeOf " " p -> p <> "" -> cli.startsMatch ("pass=" +:+ p +:+ post) = true.
Proof.
  intros Hp Hne. destruct p as [|v p]; [done|]. destruct Hp as [Hv _].
  change (negb (Ascii.eqb v " ") = true). by destruct (Ascii.eqb_spec v " ").
Qed.

(** Redaction forgets a password that is not empty and holds no space. *)
Lemma redactGo_password (inMatch : bool) (pre p1 p2 post : string) :
  freeOf " " p1 -> freeOf " " p2 -> p1 <> "" -> p2 <> "" ->
  cli.redactGo inMatch (pre +:+ "pass=" +:+ p1 +:+ post)
  = cli.redactGo inMatch (pre +:+ "pass=" +:+ p2 +:+ post).
Proof.
  intros H1 H2 Hn1 Hn2. revert inMatch.
  assert (forall p, freeOf " " p ->
            cli.redactGo true ("pass=" +:+ p +:+ post) = cli.redactGo true post)
    as Hdrop.
  { intros p Hp. rewrite <- append_assoc. apply redactGo_skip.
    apply freeOf_append. split; [|done]. simpl. repeat split; discriminate. }
  induction pre as [|c pre IH]; intros inMatch.
  - rewrite !append_nil_l. destruct inMatch.
    + by rewrite !Hdrop.
    + change ("pass=" +:+ p1 +:+ post) with (String "p" ("ass=" +:+ p1 +:+ post)).
      change ("pass=" +:+ p2 +:+ post) with (String "p" ("ass=" +:+ p2 +:+ post)).
      cbn [cli.redactGo].
      change (String "p" ("ass=" +:+ p1 +:+ post)) with ("pass=" +:+ p1 +:+ post).
      change (String "p" ("ass=" +:+ p2 +:+ post)) with ("pass=" +:+ p2 +:+ post).
      rewrite !startsMatch_password by done.
      f_equal.
      change ("ass=" +:+ p1 +:+ post) with (("ass=" +:+ p1) +:+ post) at 1.
      rewrite <- !append_assoc, !redactGo_skip; [done|..];
        apply freeOf_append; (split; [|done]); simpl; repeat split; discriminate.
  - rewrite !(append_cons c pre). cbn [cli.redactGo]. destruct inMatch.
    + destruct (Ascii.eqb c " "); by rewrite IH.
    + rewrite (startsMatch_window c pre (p1 +:+ post) (p2 +:+ post)).
      destruct (cli.startsMatch _); by rewrite IH.
Qed.

Lemma Join_middle (before after : list string) (sep : string) :
  exists pre post, forall x,
    Go.Join (before ++ [x] ++ after) sep = pre +:+ x +:+ post.
Proof.
  induction before as [|b before IH].
  - exists "". destruct after as [|a after].
    + exists "". intros x. by rewrite append_nil_l, append_nil_r.
    + exists (sep +:+ Go.Join (a :: after) sep). intros x. by rewrite append_nil_l.
  - destruct IH as (pre & post & IH). exists (b +:+ sep +:+ pre), post. intros x.
    assert (exists y rest, before ++ [x] ++ after = y :: rest) as (y & rest & Heq).
    { destruct before; simpl; eauto. }
    change ((b :: before) ++ [x] ++ after) with (b :: (before ++ [x] ++ after)).
    rewrite Heq, Join_cons2, <- Heq, IH. by rewrite !append_assoc.
Qed.

End redaction_facts.

(** For passwords that are not empty and hold no space the logged text
    of a command does not depend on the password given after pass=. *)
Theorem logged_command_hides_spaceless_password
    (bucardoCmd : string) (before after : list string) (p1 p2 : string) :
  freeOf " " p1 -> freeOf " " p2 -> p1 <> "" -> p2 <> "" ->
  cli.loggedCommand bucardoCmd (before ++ ["pass=" +:+ p1] ++ after)
  = cli.loggedCommand bucardoCmd (before ++ ["pass=" +:+ p2] ++ after).
Proof.
  intros H1 H2 Hn1 Hn2. unfold cli.loggedCommand, cli.redactPassword.
  destruct (Join_middle before after " ") as (pre & post & Hjoin).
  rewrite !Hjoin.
  assert (forall p, bucardoCmd +:+ " " +:+ pre +:+ ("pass=" +:+ p) +:+ post
                    = (bucardoCmd +:+ " " +:+ pre) +:+ "pass=" +:+ p +:+ post) as Hshape.
  { intros p. by rewrite !append_assoc. }
  rewrite !Hshape. by apply redactGo_password.
Qed.

Lemma logged_command_hides_spaceless_password_witness :
  freeOf " " "hunter2" /\ freeOf " " "letmein"
  /\ cli.loggedCommand "bucardo" (["add"; "db"; "db1"] ++ ["pass=" +:+ "hunter2"] ++ ["port=5432"])
     = cli.loggedCommand "bucardo" (["add"; "db"; "db1"] ++ ["pass=" +:+ "letmein"] ++ ["port=5432"]).
Proof.
  assert (freeOf " " "hunter2") as H1 by (simpl; repeat split; discriminate).
  assert (freeOf " " "letmein") as H2 by (simpl; repeat split; discriminate).
  split; [exact H1|]. split; [exact H2|].
  apply (logged_command_hides_spaceless_password "bucardo" ["add"; "db"; "db1"]
           ["port=5432"] "hunter2" "letmein" H1 H2); discriminate.
Defined.

(* ===================================================================== *)
(** ** The claims at sample inputs *)
(* ===================================================================== *)

Import scripted.

(** C1, as stated, fails: in the cycle below the undeclared database db9
    is removed (call 5) and the undeclared sync "stale" is removed (call
    9) before the declared database db1 is updated (call 11) and the
    declared sync "orders" is touched (call 17). *)
Lemma C1_pruning_runs_first :
  let config := sample.configOf [sample.orders] in
  let w := scripted.world (sample.engineWith ["public.t1"; "public.t2"])
                          (FileContent config) in
  let calls := newCalls ReloadAndRestart w in
  calls !! 5%nat = Some (CRemoveDatabase "db9")
  /\ calls !! 9%nat
     = Some (CRemoveSyncAndRelgroup "stale" "stale" "postgres" "postgres" "changeme" 5432)
  /\ calls !! 11%nat
     = Some (CExecuteBucardoCommand
               ["update"; "db"; "db1"; "dbname=app"; "host=h1"; "user=u";
                "pass=secret"; "port=5432"])
  /\ calls !! 17%nat = Some (CExecuteBucardoCommand ["update"; "sync"; "orders"])
  /\ ~ In "db9" (map dbNameOf (Databases config))
  /\ ~ In "stale" (map Name (Syncs config))
  /\ In "db1" (map dbNameOf (Databases config))
  /\ In "orders" (map Name (Syncs config)).
Proof.
  vm_compute. repeat split; try reflexivity; try tauto.
  - intros [H|[H|[]]]; discriminate.
  - intros [H|[]]; discriminate.
Qed.

Lemma C1_pruning_precedes_declared_witness :
  let config := sample.configOf [sample.orders] in
  let w := scripted.world (sample.engineWith ["public.t1"; "public.t2"])
                          (FileContent config) in
  configFile w = FileContent config
  /\ newCalls ReloadAndRestart w !! 5%nat = Some (CRemoveDatabase "db9")
  /\ isOrphanDelete config (CRemoveDatabase "db9")
  /\ (5 < 11)%nat.
Proof.
  intros config w.
  assert (newCalls ReloadAndRestart w !! 5%nat = Some (CRemoveDatabase "db9")) as H5.
  { vm_compute. reflexivity. }
  assert (isOrphanDelete config (CRemoveDatabase "db9")) as Horphan.
  { vm_compute. intros [H|[H|[]]]; discriminate. }
  split; [reflexivity|]. split; [exact H5|]. split; [exact Horphan|].
  apply (C1_pruning_precedes_declared w config eq_refl 5%nat 11%nat
           (CRemoveDatabase "db9")
           (CExecuteBucardoCommand
              ["update"; "db"; "db1"; "dbname=app"; "host=h1"; "user=u";
               "pass=secret"; "port=5432"])).
  - exact H5.
  - vm_compute. reflexivity.
  - exact Horphan.
  - exact I.
Defined.



(** C3, as stated, fails: two source/target syncs of one name whose
    members have nothing in common get the same group identity, the
    first four bytes of the two hashes being equal. *)
Lemma C3_different_members_same_group :
  let sync1 := sample.sourceTarget "orders" [169] [167] "public.t1" in
  let sync2 := sample.sourceTarget "orders" [253] [374] "public.t1" in
  memberNames sync1 = ["db169:source"; "db167:target"]
  /\ memberNames sync2 = ["db253:source"; "db374:target"]
  /\ memberKey sync1 <> memberKey sync2
  /\ dbgroupName sync1 = "sg_orders_1302fdf3"
  /\ dbgroupName sync2 = "sg_orders_1302fdf3".
Proof. vm_compute. repeat split; try reflexivity. discriminate. Qed.

Lemma C3_group_identity_witness :
  let sync1 := sample.sourceTarget "orders" [1; 3] [2; 4] "public.t1" in
  let sync2 := sample.sourceTarget "orders" [3; 1] [4; 2] "public.t1" in
  Name sync1 = Name sync2 /\ Bidirectional sync1 = [] /\ Bidirectional sync2 = []
  /\ dbgroupName sync1 = dbgroupName sync2.
Proof.
  intros sync1 sync2. split; [reflexivity|]. split; [reflexivity|].
  split; [reflexivity|].
  apply (proj1 (C3_group_identity sync1 sync2 eq_refl eq_refl eq_refl)).
  - apply perm_swap.
  - apply perm_swap.
Defined.

(** C4, as stated, fails: a bidirectional sync with one participant and a
    static-priority strategy that has no name gets the missing-name error
    and nothing else. *)
Lemma C4_nameless_sync_one_error :
  let sync := sample.bidirectional "" [1] "bucardo_source" in
  let config := sample.configOf [sync] in
  In sync (Syncs config)
  /\ length (Bidirectional sync) = 1%nat
  /\ ConflictStrategy sync = "bucardo_source"
  /\ validateConfig config = [ErrMissingName].
Proof. vm_compute. repeat split; try reflexivity. by left. Qed.

Lemma C4_single_static_bidirectional_rejected_witness :
  let sync := sample.bidirectional "pair" [1] "bucardo_source" in
  let config := sample.configOf [sync] in
  let w := scripted.world (sample.engineWith []) (FileContent config) in
  In sync (Syncs config) /\ Name sync <> ""
  /\ length (Bidirectional sync) = 1%nat
  /\ ConflictStrategy sync = "bucardo_source"
  /\ (2 <= length (validateConfig config))%nat
  /\ ReloadAndRestart w = (Some "configuration validation failed", w).
Proof.
  intros sync config w.
  assert (In sync (Syncs config)) as Hin by (by left).
  assert (Name sync <> "") as Hname by discriminate.
  pose proof (C4_single_static_bidirectional_rejected w config sync eq_refl Hin Hname
                eq_refl (or_introl eq_refl)) as (_ & _ & _ & _ & Hlen & Hgate & _).
  repeat split; try done.
Defined.

Lemma C5_completion_line_handling_witness :
  let pending : gmap string bool := {[ "orders" := true; "audit" := true ]} in
  let s := {| allSyncsAreRunOnce := true; timeoutChannel := None |} in
  let w := scripted.world (sample.engineWith []) FileMissing in
  Go.Contains sample.ordersDone "Reason: Normal exit" = true
  /\ fst (monitorSyncsEvent s pending (LogLine sample.ordersDone) w)
     = Watching {[ "audit" := true ]}
  /\ In (CExecuteBucardoCommand ["stop"; "orders"])
        (newCalls (monitorSyncsEvent s pending (LogLine sample.ordersDone)) w).
Proof.
  intros pending s w.
  assert (Go.Contains sample.ordersDone "Reason: Normal exit" = true) as Hphrase
    by (vm_compute; reflexivity).
  pose proof (C5_completion_line_handling s pending sample.ordersDone w Hphrase)
    as (_ & Hstate & Hstops).
  split; [exact Hphrase|]. split.
  - rewrite Hstate. vm_compute. reflexivity.
  - apply Hstops. split; [by exists true|]. vm_compute. reflexivity.
Defined.

Lemma C6_pending_set_emptied_witness :
  let config := sample.configOf [sample.runOnce "orders" (Some 30)] in
  let pending : gmap string bool := {[ "orders" := true ]} in
  let s := setup config (fst (runOnceOf config)) (snd (runOnceOf config)) in
  let w := scripted.world (sample.engineWith []) (FileContent config) in
  List.NoDup (map Name (Syncs config))
  /\ pendingAfter sample.ordersDone pending = ∅
  /\ fst (monitorSyncsEvent s pending (LogLine sample.ordersDone) w) = Returned
  /\ exitStatus (None, Some (fst (monitorSyncsEvent s pending (LogLine sample.ordersDone) w)))
     = Some 0.
Proof.
  intros config pending s w.
  assert (List.NoDup (map Name (Syncs config))) as Hunique.
  { repeat constructor. intros []. }
  assert (pendingAfter sample.ordersDone pending = ∅) as Hempty
    by (vm_compute; reflexivity).
  destruct (C6_pending_set_emptied config pending sample.ordersDone w Hunique Hempty)
    as [Hall _].
  destruct Hall as (Hnext & _ & Hexit).
  { intros sync [<-|[]]. reflexivity. }
  repeat split; done.
Defined.


Lemma C9_sync_names_stay_unique_witness :
  let config := sample.configOf [sample.orders] in
  let w := scripted.world (sample.engineWith []) (FileContent config) in
  configFile w = FileContent config
  /\ fst (AddSync sample.repeated w) <> None
  /\ snd (AddSync sample.repeated w) = w
  /\ fst (DeleteSync "missing" w) <> None.
Proof.
  intros config w.
  pose proof (C9_sync_names_stay_unique w config eq_refl) as (Hadd & _ & Hdel).
  destruct (proj1 (Hadd sample.repeated)) as [Herr Hw]; [by left|].
  destruct (proj1 (Hdel "missing")) as [Herr' _]; [by intros [H|[]]|].
  repeat split; done.
Defined.

(** [Service.Run] on a stored configuration with one run-once sync, whose
    completion line is the only log event: the cycle succeeds, the
    monitor returns, and the configuration it ran on is valid. *)
Lemma Run_monitors_validated_witness :
  let config := sample.configOf [sample.runOnce "orders" (Some 30)] in
  let w := scripted.world (sample.engineWith []) (FileContent config) in
  fst (Run [LogLine sample.ordersDone] w) = (None, Some Returned)
  /\ validateConfig config = []
  /\ List.NoDup (map Name (Syncs config)).
Proof.
  intros config w.
  assert (fst (Run [LogLine sample.ordersDone] w) = (None, Some Returned)) as Hrun
    by (vm_compute; reflexivity).
  destruct (Run_monitors_validated [LogLine sample.ordersDone] w Returned Hrun)
    as (config' & w1 & Hfile & Hvalid & Hunique & _).
  assert (config' = config) as -> by (simpl in Hfile; congruence).
  repeat split; done.
Defined.

(* ===================================================================== *)
(** * Further properties of the code *)
(* ===================================================================== *)

Import accepted admin_spec cycle_spec reconcile_spec monitor_run_spec.

(* ===================================================================== *)
(** ** Validation: the accepted configurations *)
(* ===================================================================== *)

Section accepted_facts.

Lemma validateDatabases_spec (dbs : list Database) errors (dbIDs : gmap Z bool) :
  let st := foldl validateDatabase (errors, dbIDs) dbs in
  (fst st = [] <->
     errors = [] /\ List.NoDup (map ID dbs)
     /\ forall db, In db dbs -> Go.mapGet dbIDs (ID db) = false)
  /\ (forall id, Go.mapGet (snd st) id = true
                 <-> Go.mapGet dbIDs id = true \/ In id (map ID dbs)).
Proof.
  revert errors dbIDs. induction dbs as [|db dbs IH]; intros errors dbIDs; cbn [foldl].
  - cbn. split; [|intros id; tauto]. split; [intros ->; repeat split; [constructor|intros ? []] | tauto].
  - destruct (IH (fst (validateDatabase (errors, dbIDs) db))
                 (snd (validateDatabase (errors, dbIDs) db))) as [IHe IHm].
    rewrite <- surjective_pairing in IHe, IHm. cbn zeta in *.
    assert (forall id, Go.mapGet (<[ID db := true]> dbIDs) id = true
                       <-> Go.mapGet dbIDs id = true \/ id = ID db) as Hins.
    { intros id. unfold Go.mapGet. destruct (decide (id = ID db)) as [->|Hne].
      - rewrite lookup_insert_eq. cbn. tauto.
      - rewrite lookup_insert_ne by congruence. tauto. }
    split.
    + rewrite IHe. unfold validateDatabase. cbn [fst snd map].
      destruct (Go.mapGet dbIDs (ID db)) eqn:Hseen; cbn [fst snd].
      * split.
        -- intros [Happ _]. by destruct errors.
        -- intros (_ & _ & Hfresh). specialize (Hfresh db (or_introl eq_refl)). congruence.
      * split.
        -- intros (-> & Hnd & Hfresh). split; [done|]. split.
           ++ constructor; [|done]. intros Hin. apply in_map_iff in Hin as (db' & Heq & Hin).
              specialize (Hfresh db' Hin). rewrite Heq in Hfresh.
              assert (Go.mapGet (<[ID db:=true]> dbIDs) (ID db) = true) as Ht
                by (apply Hins; by right).
              congruence.
           ++ intros db' [<-|Hin]; [done|]. specialize (Hfresh db' Hin).
              destruct (Go.mapGet dbIDs (ID db')) eqn:Hg; [|done].
              assert (Go.mapGet (<[ID db:=true]> dbIDs) (ID db') = true) as Ht
                by (apply Hins; by left).
              congruence.
        -- intros (-> & Hnd & Hfresh). inversion Hnd as [|? ? Hnotin Hnd']; subst.
           split; [done|]. split; [done|]. intros db' Hin.
           destruct (Go.mapGet (<[ID db:=true]> dbIDs) (ID db')) eqn:Hg; [|done].
           apply Hins in Hg as [Hg|Hg].
           ++ rewrite (Hfresh db' (or_intror Hin)) in Hg. done.
           ++ exfalso. apply Hnotin. rewrite <- Hg. by apply in_map.
    + intros id. rewrite IHm. unfold validateDatabase. cbn [snd map In].
      destruct (Go.mapGet dbIDs (ID db)); cbn [snd]; rewrite Hins; intuition congruence.
Qed.

End accepted_facts.

Section accepted_facts2.

Lemma checkBidirectionalIDs_nil dbIDs name ids :
  checkBidirectionalIDs dbIDs name [] ids = []
  <-> forall id, In id ids -> Go.mapGet dbIDs id = true.
Proof.
  induction ids as [|id ids IH].
  - cbn. split; [intros _ ? []|done].
  - unfold checkBidirectionalIDs in *. cbn [foldl].
    destruct (Go.mapGet dbIDs id) eqn:Hid; cbn [negb app].
    + rewrite IH. split.
      * intros H id' [<-|Hin]; [done|by apply H].
      * intros H id' Hin. apply H. by right.
    + fold (checkBidirectionalIDs dbIDs name [ErrBidirectionalUndefinedDb name id] ids).
      rewrite checkBidirectionalIDs_app. split; [done|].
      intros H. specialize (H id (or_introl eq_refl)). congruence.
Qed.

Lemma validStrategies_known (strategy : string) :
  Go.mapGet validStrategies strategy = true <-> In strategy knownStrategies.
Proof.
  unfold Go.mapGet, validStrategies, knownStrategies. cbn [list_to_map foldr uncurry fst snd In].
  repeat match goal with
         | |- context [<[?k := true]> _ !! strategy] =>
             destruct (decide (strategy = k)) as [->|?];
             [rewrite lookup_insert_eq; cbn; tauto | rewrite lookup_insert_ne by congruence]
         end.
  rewrite lookup_empty. cbn. split; [done|]. intuition congruence.
Qed.

Lemma app_singleton_not_nil {A} (l : list A) (x : A) : l ++ [x] <> [].
Proof. by destruct l. Qed.

Lemma validateSync_accepts dbIDs syncNames (sync : Sync) :
  fst (validateSync dbIDs ([], syncNames) sync) = []
  <-> Go.mapGet syncNames (Name sync) = false
      /\ Name sync <> ""
      /\ match Bidirectional sync with
         | [] =>
             Sources sync <> [] /\ Targets sync <> []
             /\ (Herd sync <> "" \/ Tables sync <> "")
         | ids =>
             (2 <= length ids)%nat
             /\ (forall id, In id ids -> Go.mapGet dbIDs id = true)
             /\ ConflictStrategy sync <> "bucardo_source"
             /\ ConflictStrategy sync <> "bucardo_target"
         end
      /\ (ConflictStrategy sync = "" \/ In (ConflictStrategy sync) knownStrategies).
Proof.
  unfold validateSync.
  destruct (String.eqb_spec (Name sync) "") as [Hname|Hname].
  { cbn. split; [done|]. tauto. }
  cbn [fst].
  rewrite <- validStrategies_known.
  destruct (Go.mapGet syncNames (Name sync)); cbn [app].
  { split; [|intros [? _]; done].
    repeat match goal with
           | |- context [if ?b then _ else _] => destruct b
           end; normalize_checks; cbn [app]; intros H; by inversion H. }
  destruct (Bidirectional sync) as [|id0 ids] eqn:Hbi.
  - cbn [length Nat.ltb Nat.leb].
    destruct (Sources sync) as [|s0 ss]; cbn [length Nat.eqb app];
      destruct (Targets sync) as [|t0 ts]; cbn [length Nat.eqb app];
      destruct (String.eqb_spec (Herd sync) ""); destruct (String.eqb_spec (Tables sync) "");
      destruct (String.eqb_spec (ConflictStrategy sync) ""); cbn [andb negb app];
      try destruct (Go.mapGet validStrategies (ConflictStrategy sync)); cbn [negb app];
      split; try done; try (intros H; by inversion H); intuition congruence.
  - cbn [length Nat.ltb Nat.leb].
    pose proof (checkBidirectionalIDs_nil dbIDs (Name sync) (id0 :: ids)) as Hids.
    destruct ids as [|id1 ids]; cbn [length Nat.ltb Nat.leb app].
    + split; [|intros (_ & _ & (Hlen & _) & _); cbn in Hlen; lia].
      normalize_checks.
      repeat match goal with
             | |- context [if ?b then _ else _] => destruct b
             end; cbn [app]; intros H; by inversion H.
    + destruct (checkBidirectionalIDs dbIDs (Name sync) [] (id0 :: id1 :: ids)) as [|e es] eqn:Hchk.
      * destruct Hids as [Hids _]. specialize (Hids eq_refl).
        destruct (String.eqb_spec (ConflictStrategy sync) "bucardo_source");
          destruct (String.eqb_spec (ConflictStrategy sync) "bucardo_target");
          destruct (String.eqb_spec (ConflictStrategy sync) ""); cbn [orb negb app];
          try destruct (Go.mapGet validStrategies (ConflictStrategy sync)); cbn [negb app];
          split; try done; try (intros H; by inversion H);
          try (intros _; repeat split; try done; try (cbn; lia); tauto);
          intuition congruence.
      * split.
        -- repeat match goal with
                  | |- context [if ?b then _ else _] => destruct b
                  end; cbn [app]; intros H; by inversion H.
        -- intros (_ & _ & (_ & Hall & _) & _). apply Hids in Hall. done.
Qed.

End accepted_facts2.

Section accepted_facts3.

Lemma validateSyncs_accepts dbIDs (syncs : list Sync) errors syncNames :
  fst (foldl (validateSync dbIDs) (errors, syncNames) syncs) = []
  <-> errors = []
      /\ List.NoDup (map Name syncs)
      /\ forall sync, In sync syncs ->
           fst (validateSync dbIDs ([], ∅) sync) = []
           /\ Go.mapGet syncNames (Name sync) = false.
Proof.
  revert errors syncNames. induction syncs as [|sync syncs IH]; intros errors syncNames.
  - cbn. split; [|tauto]. intros ->. split; [done|]. split; [constructor|intros ? []].
  - cbn [foldl map].
    rewrite (surjective_pairing (validateSync dbIDs (errors, syncNames) sync)).
    rewrite IH, validateSync_app.
    assert (forall names, fst (validateSync dbIDs ([], names) sync) = []
                          <-> fst (validateSync dbIDs ([], ∅) sync) = []
                              /\ Go.mapGet names (Name sync) = false) as Hnames.
    { intros names. rewrite !validateSync_accepts.
      assert (Go.mapGet (∅ : gmap string bool) (Name sync) = false) as Hempty by done.
      tauto. }
    split.
    + intros (Happ & Hnd & Hall).
      apply app_eq_nil in Happ as [-> Hsync].
      pose proof Hsync as Hsync'. apply Hnames in Hsync' as [Hclean Hfresh].
      apply validateSync_accepts in Hsync as (_ & Hname & _).
      rewrite (validateSync_seen _ _ _ _ Hname) in Hall.
      split; [done|]. split.
      * constructor; [|done]. intros Hin. apply in_map_iff in Hin as (s' & Heq & Hin).
        destruct (Hall s' Hin) as [_ Hg]. rewrite Heq in Hg.
        unfold Go.mapGet in Hg. by rewrite lookup_insert_eq in Hg.
      * intros s' [<-|Hin]; [done|]. destruct (Hall s' Hin) as [Hc Hg]. split; [done|].
        unfold Go.mapGet in *. destruct (decide (Name s' = Name sync)) as [Heq|Hne].
        -- rewrite Heq, lookup_insert_eq in Hg. done.
        -- by rewrite lookup_insert_ne in Hg.
    + intros (-> & Hnd & Hall). inversion Hnd as [|? ? Hnotin Hnd']; subst.
      destruct (Hall sync (or_introl eq_refl)) as [Hclean Hfresh].
      assert (fst (validateSync dbIDs ([], syncNames) sync) = []) as Hsync by by apply Hnames.
      rewrite Hsync. split; [done|]. split; [done|].
      apply validateSync_accepts in Hclean as (_ & Hname & _).
      rewrite (validateSync_seen _ _ _ _ Hname).
      intros s' Hin. destruct (Hall s' (or_intror Hin)) as [Hc Hg]. split; [done|].
      unfold Go.mapGet in *. rewrite lookup_insert_ne; [done|].
      intros Heq. apply Hnotin. rewrite Heq. by apply in_map.
Qed.

End accepted_facts3.

(** The configurations that [validateConfig] accepts are the well-formed
    ones: database ids and sync names are pairwise distinct, every sync
    is named, a bidirectional sync lists at least two declared databases
    and no static strategy, any other sync has a source, a target and a
    herd or a table list, and a conflict strategy is one of the six known
    ones.  Nothing is asked of the ids under [sources] and [targets]. *)
Theorem validateConfig_accepts_iff_wellFormed (config : BucardoConfig) :
  validateConfig config = [] <-> wellFormed config.
Proof.
  unfold validateConfig, wellFormed.
  destruct (validateDatabases_spec (Databases config) [] ∅) as [Herrs Hids].
  destruct (foldl validateDatabase ([], ∅) (Databases config)) as [errors dbIDs].
  cbn [fst snd] in Herrs, Hids.
  rewrite validateSyncs_accepts, Herrs, List.Forall_forall.
  assert (forall id, Go.mapGet dbIDs id = true <-> In id (map ID (Databases config))) as Hdecl.
  { intros id. rewrite Hids.
    assert (Go.mapGet (∅ : gmap Z bool) id = false) as Hempty by done.
    intuition congruence. }
  assert (forall sync, fst (validateSync dbIDs ([], ∅) sync) = []
                       <-> wellFormedSync (map ID (Databases config)) sync) as Hsync.
  { intros sync. rewrite validateSync_accepts. unfold wellFormedSync.
    assert (Go.mapGet (∅ : gmap string bool) (Name sync) = false) as Hempty by done.
    destruct (Bidirectional sync); [tauto|].
    setoid_rewrite Hdecl. tauto. }
  split.
  - intros ((_ & Hnd & _) & Hnames & Hall). split; [done|]. split; [done|].
    intros sync Hin. apply Hsync, Hall, Hin.
  - intros (Hnd & Hnames & Hall). split; [|split; [done|]].
    + split; [done|]. split; [done|]. intros db _. done.
    + intros sync Hin. split; [apply Hsync, Hall, Hin|done].
Qed.

(* ===================================================================== *)
(** ** Creation of a sync *)
(* ===================================================================== *)

Section herd_facts.
Context {E : Type} `{!Ports E}.

Lemma newCalls_record2 {A} (m : M E A) (w : World E) (c1 c2 : Call) (e1 e2 : E) (a : A) :
  m w = (a, record c2 e2 (record c1 e1 w)) -> newCalls m w = [c1; c2].
Proof.
  intros Hm. apply newCalls_spec. rewrite Hm. cbn [snd].
  rewrite !trace_record, <- app_assoc. done.
Qed.

End herd_facts.

(** A sync that names a herd but has no source (validation allows it for
    a bidirectional sync) cannot be created: its group is deleted and
    added again, then the read of [sync.Sources[0]] panics (the model
    returns the run-time error), and neither the herd commands nor
    "add sync" are issued. *)
Theorem addSync_herd_without_source {E : Type} `{!Ports E}
    (w : World E) (sync : Sync)
    (Hherd : Herd sync <> "") (Hsources : Sources sync = []) :
  let members :=
    match Bidirectional sync with
    | [] => memberNames sync
    | ids => map (fun dbID => "db" +:+ Go.fmt_d dbID +:+ ":source") ids
    end in
  fst (addSync sync w) = Some "runtime error: index out of range [0] with length 0"
  /\ newCalls (addSync sync) w
     = [CExecuteBucardoCommand ["del"; "dbgroup"; dbgroupName sync];
        CExecuteBucardoCommand (["add"; "dbgroup"; dbgroupName sync] ++ members)].
Proof.
  intros members. unfold newCalls, addSync, ExecuteBucardoCommand, bind, call.
  assert (String.eqb (Herd sync) "" = false) as -> by by apply String.eqb_neq.
  rewrite Hsources. cbn [negb].
  destruct (Bidirectional sync) as [|id0 ids] eqn:Hbi; cbn [length Nat.ltb Nat.leb];
    destruct (perform _ (engine w)) as [r1 e1]; cbn [engine record ret];
    destruct (perform _ e1) as [r2 e2]; cbn [fst snd trace ret];
    (split; [done|]); rewrite !trace_record, <- app_assoc, drop_app_length; done.
Qed.

(** A bidirectional sync of two declared databases that names a herd
    passes validation, and its creation stops at the missing source. *)
Lemma addSync_herd_without_source_witness :
  let sync :=
    {| Name := "both"; Sources := []; Targets := []; Bidirectional := [1; 2];
       Herd := "app_herd"; Tables := ""; Onetimecopy := 0; StrictChecking := None;
       ExitOnComplete := None; ExitOnCompleteTimeout := None;
       ConflictStrategy := "bucardo_latest" |} in
  let w := scripted.world (sample.engineWith []) (FileContent (sample.configOf [sync])) in
  validateConfig (sample.configOf [sync]) = []
  /\ fst (addSync sync w) = Some "runtime error: index out of range [0] with length 0".
Proof.
  intros sync w. split; [vm_compute; reflexivity|].
  apply (addSync_herd_without_source w sync); [discriminate|reflexivity].
Defined.

(* ===================================================================== *)
(** ** The stored configuration *)
(* ===================================================================== *)

Section quiet_facts.
Context {E : Type} `{!Ports E}.

Lemma leavesEngine_ret {A} (a : A) : leavesEngine (ret a : M E A).
Proof. by intros w. Qed.

Lemma leavesEngine_getWorld : leavesEngine (getWorld : M E _).
Proof. by intros w. Qed.

Lemma leavesEngine_setConfigFile f : leavesEngine (setConfigFile f : M E _).
Proof. by intros w. Qed.

Lemma leavesEngine_bind {A B} (m : M E A) (k : A -> M E B) :
  leavesEngine m -> (forall a, leavesEngine (k a)) -> leavesEngine (bind m k).
Proof.
  intros Hm Hk w. unfold bind. destruct (Hm w) as (Ht & He & Hv).
  destruct (m w) as [a w1]. cbn [snd] in *.
  destruct (Hk a w1) as (Ht' & He' & Hv'). by rewrite Ht', He', Hv'.
Qed.

End quiet_facts.

Ltac quiet_steps :=
  cbv zeta;
  repeat match goal with
         | |- leavesEngine (match ?x with _ => _ end) => destruct x
         | |- leavesEngine (if ?x then _ else _) => destruct x
         | |- leavesEngine (let '(_, _) := ?x in _) => destruct x
         | |- leavesEngine ?m =>
             lazymatch m with
             | ret _ => apply leavesEngine_ret
             | getWorld => apply leavesEngine_getWorld
             | setConfigFile _ => apply leavesEngine_setConfigFile
             | bind _ _ => apply leavesEngine_bind; [|intros ?]
             end
         end.

Section quiet_facts2.
Context {E : Type} `{!Ports E}.

Lemma LoadConfig_quiet : leavesEngine (LoadConfig : M E _).
Proof. unfold LoadConfig. quiet_steps. Qed.

Lemma UpdateConfig_quiet (config : BucardoConfig) :
  leavesEngine (UpdateConfig config : M E _).
Proof. unfold UpdateConfig, SaveConfig. quiet_steps. Qed.

End quiet_facts2.

(** The administrative operations work on the stored configuration
    only: none of them calls the engine or the credential store, so a
    change they store takes effect at the next reconciliation cycle. *)
Theorem admin_operations_leave_engine_alone {E : Type} `{!Ports E} :
  (forall config, leavesEngine (UpdateConfig config : M E _))
  /\ leavesEngine (ListSyncs : M E _)
  /\ (forall name, leavesEngine (GetSync name : M E _))
  /\ (forall sync, leavesEngine (AddSync sync : M E _))
  /\ (forall name updated, leavesEngine (UpdateSync name updated : M E _))
  /\ (forall name, leavesEngine (DeleteSync name : M E _)).
Proof.
  assert (forall A (k : option BucardoConfig * Go.error -> M E A),
            (forall r, leavesEngine (k r)) -> leavesEngine (bind LoadConfig k)) as Hload.
  { intros A k Hk. apply leavesEngine_bind; [apply LoadConfig_quiet|done]. }
  split; [apply UpdateConfig_quiet|].
  split; [apply Hload; intros [? ?]; quiet_steps|].
  split; [intros name; apply Hload; intros [? ?]; quiet_steps|].
  split; [intros sync; apply Hload; intros [? ?]; quiet_steps; apply UpdateConfig_quiet|].
  split; [intros name updated; apply Hload; intros [? ?]; quiet_steps;
          apply UpdateConfig_quiet|].
  intros name; apply Hload; intros [? ?]; quiet_steps; apply UpdateConfig_quiet.
Qed.

Section stored_facts.
Context {E : Type} `{!Ports E}.

Lemma UpdateConfig_outcome (config : BucardoConfig) (w : World E) :
  (fst (UpdateConfig config w) = None
     <-> validateConfig config = [] /\ writable w = true)
  /\ (fst (UpdateConfig config w) = None ->
        configFile (snd (UpdateConfig config w)) = FileContent config)
  /\ (fst (UpdateConfig config w) <> None -> snd (UpdateConfig config w) = w).
Proof.
  unfold UpdateConfig, SaveConfig, bind, getWorld, setConfigFile, ret.
  destruct (validateConfig config) as [|e errs]; cbn [length Nat.ltb Nat.leb].
  - destruct (writable w); cbn [fst snd configFile]; repeat split; try done.
    + by intros [_ ?].
  - cbn [fst snd]. repeat split; try done. by intros [? _].
Qed.

Lemma GetSync_content (name : string) (config : BucardoConfig) (w : World E) :
  configFile w = FileContent config ->
  fst (GetSync name w)
  = match List.find (fun sync => String.eqb (Name sync) name) (Syncs config) with
    | Some sync => (Some sync, None)
    | None => (None, Some ("sync not found: " +:+ name))
    end.
Proof.
  intros Hfile. unfold GetSync, bind. rewrite (LoadConfig_content _ _ Hfile).
  by destruct (List.find _ _).
Qed.

Lemma ListSyncs_content (config : BucardoConfig) (w : World E) :
  configFile w = FileContent config -> fst (ListSyncs w) = (Syncs config, None).
Proof.
  intros Hfile. unfold ListSyncs, bind. by rewrite (LoadConfig_content _ _ Hfile).
Qed.

Lemma find_snoc {A} (f : A -> bool) (l : list A) (x : A) :
  List.find f (l ++ [x])
  = match List.find f l with
    | Some y => Some y
    | None => if f x then Some x else None
    end.
Proof. induction l as [|a l IH]; cbn; [done|]. by destruct (f a). Qed.

Lemma find_none_existsb {A} (f : A -> bool) (l : list A) :
  existsb f l = false -> List.find f l = None.
Proof.
  induction l as [|a l IH]; cbn; [done|]. destruct (f a); cbn; [done|apply IH].
Qed.

Lemma find_filter_other (name other : string) (syncs : list Sync) :
  other <> name ->
  List.find (fun sync => String.eqb (Name sync) other)
            (List.filter (fun sync => negb (String.eqb (Name sync) name)) syncs)
  = List.find (fun sync => String.eqb (Name sync) other) syncs.
Proof.
  intros Hne. induction syncs as [|s syncs IH]; cbn; [done|].
  destruct (String.eqb_spec (Name s) name) as [Heq|Hneq]; cbn.
  - rewrite IH. destruct (String.eqb_spec (Name s) other); [congruence|done].
  - by rewrite IH.
Qed.

Lemma find_filter_same (name : string) (syncs : list Sync) :
  List.find (fun sync => String.eqb (Name sync) name)
            (List.filter (fun sync => negb (String.eqb (Name sync) name)) syncs)
  = None.
Proof.
  induction syncs as [|s syncs IH]; cbn; [done|].
  destruct (String.eqb_spec (Name s) name) as [Heq|Hneq]; cbn; [done|].
  destruct (String.eqb_spec (Name s) name); [done|apply IH].
Qed.

Lemma find_replaceFirst_same (name : string) (updated : Sync) (syncs : list Sync) :
  snd (replaceFirst name updated syncs) = true ->
  List.find (fun sync => String.eqb (Name sync) name)
            (fst (replaceFirst name updated syncs))
  = Some (withName name updated).
Proof.
  induction syncs as [|s syncs IH]; cbn; [done|].
  destruct (String.eqb_spec (Name s) name) as [Heq|Hneq]; cbn.
  - by rewrite String.eqb_refl.
  - destruct (replaceFirst name updated syncs) as [rest found]. cbn in *.
    intros Hfound. destruct (String.eqb_spec (Name s) name); [done|by apply IH].
Qed.

Lemma find_replaceFirst_other (name other : string) (updated : Sync) (syncs : list Sync) :
  other <> name ->
  List.find (fun sync => String.eqb (Name sync) other)
            (fst (replaceFirst name updated syncs))
  = List.find (fun sync => String.eqb (Name sync) other) syncs.
Proof.
  intros Hne. induction syncs as [|s syncs IH]; cbn; [done|].
  destruct (String.eqb_spec (Name s) name) as [Heq|Hneq]; cbn.
  - destruct (String.eqb_spec name other); [congruence|].
    destruct (String.eqb_spec (Name s) other); [congruence|done].
  - destruct (replaceFirst name updated syncs) as [rest found]. cbn in *.
    by rewrite IH.
Qed.

Lemma replaceFirst_length (name : string) (updated : Sync) (syncs : list Sync) :
  length (fst (replaceFirst name updated syncs)) = length syncs.
Proof.
  induction syncs as [|s syncs IH]; cbn; [done|].
  destruct (String.eqb (Name s) name); cbn; [done|].
  destruct (replaceFirst name updated syncs). cbn in *. by rewrite IH.
Qed.

End stored_facts.

(** [AddSync] stores the sync exactly when its name is free, the
    extended configuration passes validation and the file can be
    written.  The sync is then appended: [GetSync] returns it under its
    name, [ListSyncs] ends with it, and every other name resolves as
    before.  When [AddSync] fails nothing changes. *)
Theorem AddSync_then_GetSync {E : Type} `{!Ports E}
    (w : World E) (config : BucardoConfig) (sync : Sync)
    (Hfile : configFile w = FileContent config) :
  let w' := snd (AddSync sync w) in
  (fst (AddSync sync w) = None
     <-> ~ In (Name sync) (map Name (Syncs config))
         /\ validateConfig (withSyncs config (Syncs config ++ [sync])) = []
         /\ writable w = true)
  /\ (fst (AddSync sync w) = None ->
        fst (GetSync (Name sync) w') = (Some sync, None)
        /\ fst (ListSyncs w') = (Syncs config ++ [sync], None)
        /\ forall name, name <> Name sync ->
             fst (GetSync name w') = fst (GetSync name w))
  /\ (fst (AddSync sync w) <> None -> w' = w).
Proof.
  intros w'. subst w'. unfold AddSync, bind. rewrite (LoadConfig_content _ _ Hfile).
  fold (withSyncs config (Syncs config ++ [sync])).
  pose proof (existsb_name_In (Name sync) (Syncs config)) as Hex.
  destruct (existsb _ (Syncs config)) eqn:Hexb.
  - cbn [ret fst snd]. split; [|done]. split; [done|]. intros [Hnot _].
    exfalso. apply Hnot, Hex. done.
  - destruct (UpdateConfig_outcome (withSyncs config (Syncs config ++ [sync])) w)
      as (Hok & Hstored & Hfail).
    split; [|split; [|done]].
    + rewrite Hok. split; [intros [? ?]|tauto]. split; [|done].
      intros Hin%Hex. done.
    + intros Hnone. specialize (Hstored Hnone).
      rewrite (GetSync_content _ _ _ Hstored), (ListSyncs_content _ _ Hstored).
      cbn [Syncs withSyncs]. split; [|split; [done|]].
      * rewrite find_snoc, (find_none_existsb _ _ Hexb), String.eqb_refl. done.
      * intros name Hne. rewrite (GetSync_content _ _ _ Hstored), (GetSync_content _ _ _ Hfile).
        cbn [Syncs withSyncs]. rewrite find_snoc.
        destruct (List.find _ (Syncs config)); [done|].
        destruct (String.eqb_spec (Name sync) name); [congruence|done].
Qed.

(** [DeleteSync] succeeds exactly when a sync has the name, what is left
    passes validation and the file can be written.  Every sync of that
    name is then gone: [GetSync] no longer finds it, [ListSyncs] returns
    the others in their order, and every other name resolves as before.
    When [DeleteSync] fails nothing changes. *)
Theorem DeleteSync_then_GetSync {E : Type} `{!Ports E}
    (w : World E) (config : BucardoConfig) (name : string)
    (Hfile : configFile w = FileContent config) :
  let w' := snd (DeleteSync name w) in
  let others :=
    List.filter (fun sync => negb (String.eqb (Name sync) name)) (Syncs config) in
  (fst (DeleteSync name w) = None
     <-> In name (map Name (Syncs config))
         /\ validateConfig (withSyncs config others) = []
         /\ writable w = true)
  /\ (fst (DeleteSync name w) = None ->
        fst (GetSync name w') = (None, Some ("sync not found: " +:+ name))
        /\ fst (ListSyncs w') = (others, None)
        /\ forall other, other <> name ->
             fst (GetSync other w') = fst (GetSync other w))
  /\ (fst (DeleteSync name w) <> None -> w' = w).
Proof.
  intros w' others. subst w'. unfold DeleteSync, bind.
  rewrite (LoadConfig_content _ _ Hfile). cbv zeta.
  fold others. fold (withSyncs config others).
  pose proof (existsb_name_In name (Syncs config)) as Hex.
  destruct (existsb _ (Syncs config)) eqn:Hexb; cbn [negb].
  - destruct (UpdateConfig_outcome (withSyncs config others) w) as (Hok & Hstored & Hfail).
    split; [|split; [|done]].
    + rewrite Hok. split; [intros [? ?]|tauto]. split; [|done]. by apply Hex.
    + intros Hnone. specialize (Hstored Hnone).
      rewrite (GetSync_content _ _ _ Hstored), (ListSyncs_content _ _ Hstored).
      cbn [Syncs withSyncs]. unfold others. rewrite find_filter_same.
      split; [done|]. split; [done|].
      intros other Hne.
      rewrite (GetSync_content _ _ _ Hstored), (GetSync_content _ _ _ Hfile).
      cbn [Syncs withSyncs]. unfold others. by rewrite find_filter_other.
  - cbn [ret fst snd]. split; [|done]. split; [done|]. intros [Hin _].
    apply Hex in Hin. done.
Qed.

(** [UpdateSync] succeeds exactly when a sync has the name, the
    configuration with the replacement passes validation and the file
    can be written.  [GetSync] then returns the supplied sync under the
    name of the request, the number of syncs is unchanged, and every
    other name resolves as before.  When [UpdateSync] fails nothing
    changes. *)
Theorem UpdateSync_then_GetSync {E : Type} `{!Ports E}
    (w : World E) (config : BucardoConfig) (name : string) (updated : Sync)
    (Hfile : configFile w = FileContent config) :
  let w' := snd (UpdateSync name updated w) in
  let replaced := fst (replaceFirst name updated (Syncs config)) in
  (fst (UpdateSync name updated w) = None
     <-> In name (map Name (Syncs config))
         /\ validateConfig (withSyncs config replaced) = []
         /\ writable w = true)
  /\ (fst (UpdateSync name updated w) = None ->
        fst (GetSync name w') = (Some (withName name updated), None)
        /\ fst (ListSyncs w') = (replaced, None)
        /\ length replaced = length (Syncs config)
        /\ forall other, other <> name ->
             fst (GetSync other w') = fst (GetSync other w))
  /\ (fst (UpdateSync name updated w) <> None -> w' = w).
Proof.
  intros w' replaced. subst w'. unfold UpdateSync, bind.
  rewrite (LoadConfig_content _ _ Hfile).
  pose proof (replaceFirst_found name updated (Syncs config)) as Hfound.
  pose proof (find_replaceFirst_same name updated (Syncs config)) as Hsame.
  pose proof (find_replaceFirst_other name) as Hother.
  pose proof (replaceFirst_length name updated (Syncs config)) as Hlen.
  subst replaced.
  destruct (replaceFirst name updated (Syncs config)) as [syncs found] eqn:Hrep.
  cbn [fst snd] in *. fold (withSyncs config syncs).
  destruct found; cbn [negb].
  - destruct (UpdateConfig_outcome (withSyncs config syncs) w) as (Hok & Hstored & Hfail).
    split; [|split; [|done]].
    + rewrite Hok. split; [intros [? ?]|tauto]. split; [|done]. by apply Hfound.
    + intros Hnone. specialize (Hstored Hnone).
      rewrite (GetSync_content _ _ _ Hstored), (ListSyncs_content _ _ Hstored).
      cbn [Syncs withSyncs]. rewrite Hsame by done.
      split; [done|]. split; [done|]. split; [done|].
      intros other Hne.
      rewrite (GetSync_content _ _ _ Hstored), (GetSync_content _ _ _ Hfile).
      cbn [Syncs withSyncs]. specialize (Hother other updated (Syncs config) Hne).
      rewrite Hrep in Hother. cbn [fst] in Hother. by rewrite Hother.
  - cbn [ret fst snd]. split; [|done]. split; [done|]. intros [Hin _].
    apply Hfound in Hin. done.
Qed.

(** Sync "orders" added to a configuration without syncs. *)
Lemma AddSync_then_GetSync_witness :
  let config := sample.configOf [] in
  let w := scripted.world (sample.engineWith []) (FileContent config) in
  fst (AddSync sample.orders w) = None
  /\ fst (GetSync "orders" (snd (AddSync sample.orders w))) = (Some sample.orders, None).
Proof.
  intros config w.
  destruct (AddSync_then_GetSync w config sample.orders eq_refl) as (_ & Hget & _).
  assert (fst (AddSync sample.orders w) = None) as Hadd by (vm_compute; reflexivity).
  split; [exact Hadd|]. exact (proj1 (Hget Hadd)).
Defined.

(** Sync "orders" deleted from a configuration that holds it. *)
Lemma DeleteSync_then_GetSync_witness :
  let config := sample.configOf [sample.orders] in
  let w := scripted.world (sample.engineWith []) (FileContent config) in
  fst (DeleteSync "orders" w) = None
  /\ fst (GetSync "orders" (snd (DeleteSync "orders" w)))
     = (None, Some "sync not found: orders").
Proof.
  intros config w.
  destruct (DeleteSync_then_GetSync w config "orders" eq_refl) as (_ & Hget & _).
  assert (fst (DeleteSync "orders" w) = None) as Hdel by (vm_compute; reflexivity).
  split; [exact Hdel|]. exact (proj1 (Hget Hdel)).
Defined.

(** Sync "orders" replaced by a sync with another table list. *)
Lemma UpdateSync_then_GetSync_witness :
  let config := sample.configOf [sample.orders] in
  let w := scripted.world (sample.engineWith []) (FileContent config) in
  fst (UpdateSync "orders" sample.repeated w) = None
  /\ fst (GetSync "orders" (snd (UpdateSync "orders" sample.repeated w)))
     = (Some (withName "orders" sample.repeated), None).
Proof.
  intros config w.
  destruct (UpdateSync_then_GetSync w config "orders" sample.repeated eq_refl)
    as (_ & Hget & _).
  assert (fst (UpdateSync "orders" sample.repeated w) = None) as Hupd
    by (vm_compute; reflexivity).
  split; [exact Hupd|]. exact (proj1 (Hget Hupd)).
Defined.

(* ===================================================================== *)
(** ** The frame of a reconciliation cycle *)
(* ===================================================================== *)

Section bracket_facts.
Context {E : Type} `{!Ports E}.

Lemma startsEngineLast_bind {A} (m : M E A) (k : A -> M E Go.error) :
  emits (fun c => ~ isBracket c) m -> (forall a, startsEngineLast (k a)) ->
  startsEngineLast (bind m k).
Proof.
  intros Hm Hk w. unfold bind. destruct (Hm w) as (c1 & Ht1 & HP1 & _).
  destruct (m w) as [a w1]. cbn [snd] in Ht1.
  destruct (Hk a w1) as (steps & tail & Ht & HP & Htail).
  exists (c1 ++ steps), tail. split; [|split; [|done]].
  - rewrite Ht, Ht1. by rewrite <- !app_assoc.
  - by apply Forall_app.
Qed.

Lemma startsEngineLast_error (e : string) : startsEngineLast (ret (Some e) : M E _).
Proof.
  intros w. exists [], []. cbn. rewrite app_nil_r. split; [done|]. split; [done|].
  right. done.
Qed.

Lemma startsEngineLast_start : startsEngineLast (call CStartBucardo : M E _).
Proof.
  intros w. exists [], [CStartBucardo]. unfold call.
  destruct (perform CStartBucardo (engine w)) as [r e']. cbn [snd].
  rewrite trace_record. split; [done|]. split; [done|]. by left.
Qed.

Lemma removeOrphanedDbs_inside (config : BucardoConfig) :
  emits (fun c => ~ isBracket c) (removeOrphanedDbs config : M E _).
Proof.
  unfold removeOrphanedDbs. emits_steps; try tauto.
  apply emits_forRange. intros x _. emits_steps; tauto.
Qed.

Lemma removeOrphanedSyncs_inside (config : BucardoConfig) (c : Conn) :
  emits (fun c => ~ isBracket c) (removeOrphanedSyncs config c : M E _).
Proof.
  unfold removeOrphanedSyncs, RemoveSyncAndRelgroup. emits_steps; try tauto.
  apply emits_forRange. intros x _. emits_steps; tauto.
Qed.

Lemma addDatabasesToBucardo_inside (config : BucardoConfig) :
  emits (fun c => ~ isBracket c) (addDatabasesToBucardo config : M E _).
Proof.
  unfold addDatabasesToBucardo, ExecuteBucardoCommand.
  apply emits_forRange. intros x _. emits_steps; tauto.
Qed.

Lemma addSyncsToBucardo_inside (config : BucardoConfig) (c : Conn) :
  emits (fun c => ~ isBracket c) (addSyncsToBucardo config c : M E _).
Proof.
  unfold addSyncsToBucardo. apply emits_forRange. intros sync _.
  unfold reconcileSync, checkTables, RemoveSyncAndRelgroup.
  emits_steps; try tauto.
  all: first [apply addSync_emits | apply updateSync_emits]; intros args; cbn; tauto.
Qed.

End bracket_facts.

Section bracket_facts2.
Context {E : Type} `{!Ports E}.

Lemma run_getEnv (key fallback : string) (w : World E) :
  getEnv key fallback w = (default fallback (environ w key), w).
Proof. done. Qed.

(** The part of a cycle between the set-up and the clean-up of the
    credentials file. *)
Lemma reconcile_steps (config : BucardoConfig) (c : Conn) (dbName : string) :
  startsEngineLast
    (let* _ := call (CEnsureBucardoUserPassword (dbHost c) (dbUser c) (dbPass c)
                       dbName (dbPass c) (dbPort c)) in
     let* err := call (CInstallBucardo dbName (dbHost c) (dbUser c) (dbPass c)) in
     match err with
     | Some e => ret (Some e)
     | None =>
         let* _ := setLogLevel config in
         let* _ := removeOrphanedDbs config in
         let* _ := removeOrphanedSyncs config c in
         let* err := addDatabasesToBucardo config in
         match err with
         | Some e => ret (Some e)
         | None =>
             let* err := addSyncsToBucardo config c in
             match err with
             | Some e => ret (Some e)
             | None => call CStartBucardo
             end
         end
     end : M E _).
Proof.
  apply startsEngineLast_bind; [emits_steps; tauto|intros _].
  apply startsEngineLast_bind; [emits_steps; tauto|intros [e|]].
  { apply startsEngineLast_error. }
  apply startsEngineLast_bind; [unfold setLogLevel; emits_steps; tauto|intros _].
  apply startsEngineLast_bind; [apply removeOrphanedDbs_inside|intros _].
  apply startsEngineLast_bind; [apply removeOrphanedSyncs_inside|intros _].
  apply startsEngineLast_bind; [apply addDatabasesToBucardo_inside|intros [e|]].
  { apply startsEngineLast_error. }
  apply startsEngineLast_bind; [apply addSyncsToBucardo_inside|intros [e|]].
  { apply startsEngineLast_error. }
  apply startsEngineLast_start.
Qed.

Lemma reconcile_brackets (config : BucardoConfig) (w : World E) :
  let env key fallback := default fallback (environ w key) in
  let name := env "BUCARDO_DB_NAME" "bucardo" in
  let host := env "BUCARDO_DB_HOST" "postgres" in
  let user := env "BUCARDO_DB_USER" "postgres" in
  let pass := env "BUCARDO_DB_PASS" "changeme" in
  let port := Sscanf_d (env "BUCARDO_DB_PORT" "5432") in
  let system :=
    {| ID := 0; DBName := name; Host := host; User := name; Pass := pass;
       Port := Some port |} in
  let superuser :=
    {| ID := -1; DBName := name; Host := host; User := user; Pass := pass;
       Port := Some port |} in
  let setup := CSetupPgpass (system :: superuser :: Databases config) in
  let stopped := snd (perform CStopBucardo (engine w)) in
  let r := reconcile config w in
  match fst (perform setup stopped) with
  | Some e => trace (snd r) = trace w ++ [CStopBucardo; setup] /\ fst r = Some e
  | None =>
      exists steps,
        Forall (fun c => ~ isBracket c) steps
        /\ ((trace (snd r) = trace w ++ [CStopBucardo; setup] ++ steps ++ [CCleanupPgpass]
             /\ fst r <> None)
            \/ trace (snd r)
               = trace w ++ [CStopBucardo; setup] ++ steps
                 ++ [CStartBucardo; CCleanupPgpass])
  end.
Proof.
  cbv zeta. unfold reconcile.
  rewrite run_bind, run_call. cbv beta. cbn [fst snd].
  do 5 (rewrite run_bind, run_getEnv; cbv beta; cbn [fst snd]).
  cbv zeta. rewrite run_bind, run_call. cbv beta. cbn [fst snd app].
  set (w0 := record CStopBucardo _ w).
  assert (trace w0 = trace w ++ [CStopBucardo]) as Hw0 by apply trace_record.
  change (environ w0) with (environ w).
  change (engine w0) with (snd (perform CStopBucardo (engine w))).
  set (c := {| dbHost := default "postgres" (environ w "BUCARDO_DB_HOST");
               dbUser := default "postgres" (environ w "BUCARDO_DB_USER");
               dbPass := default "changeme" (environ w "BUCARDO_DB_PASS");
               dbPort := Sscanf_d (default "5432" (environ w "BUCARDO_DB_PORT")) |}).
  set (dbName := default "bucardo" (environ w "BUCARDO_DB_NAME")).
  pose proof (reconcile_steps config c dbName) as Hsteps.
  cbn [dbHost dbUser dbPass dbPort c] in Hsteps.
  destruct (perform (CSetupPgpass _) (snd (perform CStopBucardo (engine w))))
    as [[e|] e1]; cbn [fst snd].
  - cbn [ret fst snd]. rewrite trace_record, Hw0, <- app_assoc. done.
  - set (w1 := record (CSetupPgpass _) e1 w0).
    assert (trace w1 = trace w ++ [CStopBucardo; CSetupPgpass
              ({| ID := 0; DBName := dbName; Host := dbHost c; User := dbName;
                  Pass := dbPass c; Port := Some (dbPort c) |}
               :: {| ID := -1; DBName := dbName; Host := dbHost c; User := dbUser c;
                     Pass := dbPass c; Port := Some (dbPort c) |}
               :: Databases config)]) as Hw1.
    { unfold w1. rewrite trace_record, Hw0, <- app_assoc. done. }
    rewrite run_bind. cbv beta.
    destruct (Hsteps w1) as (steps & tail & Ht & HP & Htail).
    match type of Ht with
    | trace (snd ?r) = _ => set (result := r) in *
    end.
    rewrite run_bind, run_call. cbn [ret fst snd].
    match goal with
    | |- context [record CCleanupPgpass _ (snd ?r)] => change r with result
    end.
    rewrite trace_record.
    exists steps. split; [done|].
    assert (trace (snd result) ++ [CCleanupPgpass]
            = trace w1 ++ steps ++ tail ++ [CCleanupPgpass]) as Hall.
    { etransitivity; [exact (f_equal (fun l => l ++ [CCleanupPgpass]) Ht)|].
      by rewrite <- !app_assoc. }
    rewrite Hall, Hw1.
    destruct Htail as [->|[-> Herr]]; cbn [app].
    + right. by rewrite <- !app_assoc.
    + left. split; [by rewrite <- !app_assoc|done].
Qed.

End bracket_facts2.

(** A reconciliation cycle on a valid configuration first stops the
    engine and then sets up the credentials file, with the entries of
    the Bucardo system user and of the superuser, read from the
    environment, before those of the declared databases.  When the
    set-up fails, nothing else is called and its error is returned.
    When it succeeds, the clean-up of the credentials file is the last
    call whatever happens in between, and the engine is started at most
    once, as the call just before the clean-up: a cycle that ends
    without starting the engine returns an error, so a cycle that
    returns no error has started it. *)
Theorem cycle_stops_first_cleans_up_last {E : Type} `{!Ports E}
    (w : World E) (config : BucardoConfig)
    (Hfile : configFile w = FileContent config)
    (Hvalid : validateConfig config = []) :
  let calls := newCalls ReloadAndRestart w in
  let result := fst (ReloadAndRestart w) in
  let env key fallback := default fallback (environ w key) in
  let name := env "BUCARDO_DB_NAME" "bucardo" in
  let host := env "BUCARDO_DB_HOST" "postgres" in
  let user := env "BUCARDO_DB_USER" "postgres" in
  let pass := env "BUCARDO_DB_PASS" "changeme" in
  let port := Sscanf_d (env "BUCARDO_DB_PORT" "5432") in
  let system :=
    {| ID := 0; DBName := name; Host := host; User := name; Pass := pass;
       Port := Some port |} in
  let superuser :=
    {| ID := -1; DBName := name; Host := host; User := user; Pass := pass;
       Port := Some port |} in
  let setup := CSetupPgpass (system :: superuser :: Databases config) in
  let stopped := snd (perform CStopBucardo (engine w)) in
  match fst (perform setup stopped) with
  | Some e => calls = [CStopBucardo; setup] /\ result = Some e
  | None =>
      exists steps,
        Forall (fun c => ~ isBracket c) steps
        /\ ((calls = [CStopBucardo; setup] ++ steps ++ [CCleanupPgpass]
             /\ result <> None)
            \/ calls = [CStopBucardo; setup] ++ steps
                       ++ [CStartBucardo; CCleanupPgpass])
  end.
Proof.
  intros calls result. subst calls result. cbv zeta.
  assert (ReloadAndRestart w = reconcile config w) as Hrun.
  { unfold ReloadAndRestart, bind, getWorld. rewrite Hfile.
    rewrite (LoadConfig_content _ _ Hfile), Hvalid. done. }
  pose proof (reconcile_brackets config w) as Hframe. cbv zeta in Hframe.
  rewrite <- Hrun in Hframe.
  destruct (fst (perform (CSetupPgpass _) (snd (perform CStopBucardo (engine w)))))
    as [e|].
  - destruct Hframe as [Ht Hres]. split; [|done]. by apply newCalls_spec.
  - destruct Hframe as (steps & HP & [[Ht Hres]|Ht]); exists steps; (split; [done|]).
    + left. split; [|done]. by apply newCalls_spec.
    + right. by apply newCalls_spec.
Qed.

(** A cycle that succeeds on the scripted engine. *)
Lemma cycle_stops_first_cleans_up_last_witness :
  let config := sample.configOf [sample.orders] in
  let w := scripted.world (sample.engineWith []) (FileContent config) in
  let system :=
    {| ID := 0; DBName := "bucardo"; Host := "postgres"; User := "bucardo";
       Pass := "changeme"; Port := Some 5432 |} in
  let superuser :=
    {| ID := -1; DBName := "bucardo"; Host := "postgres"; User := "postgres";
       Pass := "changeme"; Port := Some 5432 |} in
  validateConfig config = []
  /\ fst (ReloadAndRestart w) = None
  /\ exists steps,
       Forall (fun c => ~ isBracket c) steps
       /\ newCalls ReloadAndRestart w
          = [CStopBucardo; CSetupPgpass (system :: superuser :: Databases config)]
            ++ steps ++ [CStartBucardo; CCleanupPgpass].
Proof.
  intros config w system superuser.
  assert (validateConfig config = []) as Hvalid by (vm_compute; reflexivity).
  assert (fst (ReloadAndRestart w) = None) as Hnone by (vm_compute; reflexivity).
  pose proof (cycle_stops_first_cleans_up_last w config eq_refl Hvalid) as Hcycle.
  cbv zeta in Hcycle.
  match type of Hcycle with
  | match ?setupErr with _ => _ end => change setupErr with (@None string) in Hcycle
  end.
  destruct Hcycle as (steps & Hsteps & [[_ Herr]|Hcalls]);
    [exact (False_ind _ (Herr Hnone))|].
  split; [exact Hvalid|]. split; [exact Hnone|].
  exists steps. split; [exact Hsteps|exact Hcalls].
Defined.

(* ===================================================================== *)
(** ** Reconciliation of the databases *)
(* ===================================================================== *)

Section pruning_facts.
Context {E : Type} `{!Ports E}.

Lemma configDbs_lookup (dbs : list Database) (m : gmap string bool) (name : string) :
  Go.mapGet (foldl (fun m db => <[("db" +:+ Go.fmt_d (ID db)) := true]> m) m dbs) name = true
  <-> Go.mapGet m name = true \/ name ∈ map dbNameOf dbs.
Proof.
  revert m. induction dbs as [|db dbs IH]; intros m; cbn [foldl map].
  - rewrite elem_of_nil. tauto.
  - rewrite IH, elem_of_cons. unfold Go.mapGet, dbNameOf.
    destruct (decide (name = "db" +:+ Go.fmt_d (ID db))) as [->|Hne].
    + rewrite lookup_insert_eq. cbn. tauto.
    + rewrite lookup_insert_ne by congruence. tauto.
Qed.

Lemma pruneDbs_run (P : string -> bool) (listed : list string) (w : World E) :
  let body := fun name : string =>
    if P name then (let* _ := call (CRemoveDatabase name) in ret None) else ret None in
  fst (forRange listed body w) = None
  /\ trace (snd (forRange listed body w))
     = trace w ++ map CRemoveDatabase (List.filter P listed).
Proof.
  intros body.
  assert (forall name w,
            body name w
            = if P name
              then (None, record (CRemoveDatabase name)
                            (snd (perform (CRemoveDatabase name) (engine w))) w)
              else (None, w)) as Hbody.
  { intros name w'. unfold body. destruct (P name); [|done].
    by rewrite run_bind, run_call. }
  clearbody body. revert w. induction listed as [|name listed IH]; intros w.
  - cbn. by rewrite app_nil_r.
  - cbn [forRange List.filter]. rewrite run_bind, Hbody.
    destruct (P name); cbn [fst snd].
    + destruct (IH (record (CRemoveDatabase name)
                      (snd (perform (CRemoveDatabase name) (engine w))) w)) as [Hr Ht].
      split; [done|]. rewrite Ht, trace_record, <- app_assoc. done.
    + apply IH.
Qed.

End pruning_facts.

(** Orphan pruning of databases removes every database the engine lists
    that the configuration does not declare, in the order of the
    listing, and nothing else; a removal that fails does not stop it
    and is not reported.  When the listing itself fails nothing is
    removed and the failure is returned. *)
Theorem removeOrphanedDbs_prunes_exactly {E : Type} `{!Ports E}
    (w : World E) (config : BucardoConfig)
    (listed : list string) (err : Go.error) (e1 : E)
    (Hlist : perform CListDatabases (engine w) = ((listed, err), e1)) :
  match err with
  | None =>
      fst (removeOrphanedDbs config w) = None
      /\ newCalls (removeOrphanedDbs config) w
         = CListDatabases
           :: map CRemoveDatabase (filter (undeclaredDb config) listed)
  | Some e =>
      fst (removeOrphanedDbs config w)
      = Some ("could not list existing Bucardo databases for cleanup: " +:+ e)
      /\ newCalls (removeOrphanedDbs config) w = [CListDatabases]
  end.
Proof.
  unfold newCalls, removeOrphanedDbs. rewrite run_bind, run_call, Hlist.
  cbn [fst snd]. destruct err as [e|].
  - cbn [ret fst snd]. rewrite trace_record, drop_app_length. done.
  - match goal with
    | |- context [forRange listed ?body] =>
        pose proof (pruneDbs_run
                      (fun name => negb (Go.mapGet
                         (foldl (fun m db => <[("db" +:+ Go.fmt_d (ID db)) := true]> m)
                                (∅ : gmap string bool) (Databases config)) name))
                      listed (record CListDatabases e1 w)) as [Hr Ht]
    end.
    cbv zeta in Hr, Ht. split; [exact Hr|].
    etransitivity; [exact (f_equal (drop (length (trace w))) Ht)|].
    rewrite trace_record, <- app_assoc, drop_app_length. cbn [app]. f_equal. f_equal.
    clear Hlist Hr Ht. induction listed as [|name listed IH]; [done|].
    cbn [List.filter]. rewrite filter_cons.
    pose proof (configDbs_lookup (Databases config) ∅ name) as Hlook.
    assert (Go.mapGet (∅ : gmap string bool) name = false) as Hempty by done.
    destruct (decide (undeclaredDb config name)) as [Hun|Hdecl];
      unfold undeclaredDb in Hun || unfold undeclaredDb in Hdecl.
    + destruct (Go.mapGet _ name) eqn:Hg in |- *.
      * exfalso. apply Hun. apply Hlook in Hg as [Hg|Hg]; [congruence|done].
      * cbn [negb]. f_equal. exact IH.
    + destruct (Go.mapGet _ name) eqn:Hg in |- *.
      * cbn [negb]. exact IH.
      * exfalso. apply Hdecl. intros Hin.
        assert (Go.mapGet
                  (foldl (fun m db => <[("db" +:+ Go.fmt_d (ID db)) := true]> m)
                         (∅ : gmap string bool) (Databases config)) name = true) as Ht'
          by (apply Hlook; by right).
        congruence.
Qed.

(** The scripted engine lists db9 and db1; the configuration declares
    db1 and db2. *)
Lemma removeOrphanedDbs_prunes_exactly_witness :
  let config := sample.configOf [sample.orders] in
  let w := scripted.world (sample.engineWith []) (FileContent config) in
  newCalls (removeOrphanedDbs config) w = [CListDatabases; CRemoveDatabase "db9"].
Proof.
  intros config w.
  exact (proj2 (removeOrphanedDbs_prunes_exactly w config ["db9"; "db1"] None
                  (engine w) eq_refl)).
Defined.

Section databases_facts.
Context {E : Type} `{!Ports E}.

Lemma environ_record (c : Call) (e' : E) (w : World E) :
  environ (record c e' w) = environ w.
Proof. done. Qed.

Lemma forRange_cons {A} (x : A) (l : list A) (body : A -> M E Go.error) (w : World E) :
  forRange (x :: l) body w
  = match fst (body x w) with
    | Some e => (Some e, snd (body x w))
    | None => forRange l body (snd (body x w))
    end.
Proof. cbn [forRange]. rewrite run_bind. by destruct (fst (body x w)). Qed.

(** One iteration of the loop of [addDatabasesToBucardo] that does not
    return an error. *)
Lemma reconcileDatabase_run (db : Database) (w : World E) :
  let body := fun db : Database =>
    addDatabasesToBucardo {| Databases := [db]; Syncs := []; LogLevel := "" |} in
  fst (body db w) = None ->
  exists verb,
    (verb = "add" \/ verb = "update")
    /\ snd (orchestrator.getDbPassword (environ w) db) = None
    /\ trace (snd (body db w))
       = trace w ++ [CDatabaseExists (dbNameOf db);
                     CExecuteBucardoCommand
                       (dbArgs verb (fst (orchestrator.getDbPassword (environ w) db)) db)]
    /\ environ (snd (body db w)) = environ w.
Proof.
  cbv zeta. unfold addDatabasesToBucardo, ExecuteBucardoCommand. cbn [Databases].
  rewrite forRange_cons. rewrite run_bind, run_call.
  destruct (perform (CDatabaseExists _) (engine w)) as [[exists_ [e|]] e1]; cbn [fst snd].
  { done. }
  rewrite run_bind. cbn [getWorld fst snd]. rewrite environ_record.
  destruct (orchestrator.getDbPassword (environ w) db) as [password [e|]]; cbn [fst snd].
  { done. }
  rewrite run_bind, run_call.
  destruct (perform (CExecuteBucardoCommand _) _) as [[e|] e2] eqn:Hexec; cbn [fst snd ret].
  { done. }
  intros _. exists (if exists_ then "update" else "add").
  split; [destruct exists_; tauto|]. split; [done|].
  cbn [forRange ret snd]. rewrite !trace_record, <- app_assoc. split; [|done].
  unfold dbArgs, dbNameOf. destruct exists_; destruct (Port db); done.
Qed.

End databases_facts.

Section databases_facts2.
Context {E : Type} `{!Ports E}.

Lemma reconcileDatabases_run (dbs : list Database) (w : World E) :
  let only := fun dbs : list Database =>
    addDatabasesToBucardo {| Databases := dbs; Syncs := []; LogLevel := "" |} in
  fst (only dbs w) = None ->
  exists verbs,
    length verbs = length dbs
    /\ Forall (fun verb => verb = "add" \/ verb = "update") verbs
    /\ Forall (fun db => snd (orchestrator.getDbPassword (environ w) db) = None) dbs
    /\ trace (snd (only dbs w))
       = trace w
         ++ concat (zip_with
              (fun verb db =>
                 [CDatabaseExists (dbNameOf db);
                  CExecuteBucardoCommand
                    (dbArgs verb (fst (orchestrator.getDbPassword (environ w) db)) db)])
              verbs dbs).
Proof.
  cbv zeta. revert w. induction dbs as [|db dbs IH]; intros w.
  - intros _. exists []. cbn. by rewrite app_nil_r.
  - pose proof (reconcileDatabase_run db w) as Hone. cbv zeta in Hone.
    unfold addDatabasesToBucardo in *. cbn [Databases] in *.
    match goal with
    | |- context [forRange (db :: dbs) ?b] => set (body := b) in *
    end.
    rewrite forRange_cons. rewrite forRange_cons in Hone.
    match goal with
    | |- context [match ?x with Some _ => _ | None => _ end] =>
        destruct x as [e|] eqn:Hfst; [done|]
    end.
    cbn [forRange ret fst snd] in Hone.
    destruct (Hone eq_refl) as (verb & Hverb & Hpw & Ht & Henv).
    intros Hrest. destruct (IH _ Hrest) as (verbs & Hlen & Hverbs & Hpws & Htr).
    exists (verb :: verbs). cbn [length zip_with concat].
    split; [by rewrite Hlen|]. split; [by constructor|].
    rewrite Henv in Hpws, Htr. split; [by constructor|].
    rewrite Htr, Ht, <- app_assoc. done.
Qed.

End databases_facts2.

(** When the reconciliation of the declared databases returns no error,
    it has issued exactly one command for each declared database, in the
    order of the configuration, each after a check of its existence: an
    "add" or an "update" that carries the database's connection settings
    and its resolved password. *)
Theorem addDatabasesToBucardo_one_command_each {E : Type} `{!Ports E}
    (w : World E) (config : BucardoConfig)
    (Hok : fst (addDatabasesToBucardo config w) = None) :
  exists verbs,
    length verbs = length (Databases config)
    /\ Forall (fun verb => verb = "add" \/ verb = "update") verbs
    /\ Forall (fun db => snd (orchestrator.getDbPassword (environ w) db) = None)
              (Databases config)
    /\ newCalls (addDatabasesToBucardo config) w
       = concat (zip_with
           (fun verb db =>
              [CDatabaseExists (dbNameOf db);
               CExecuteBucardoCommand
                 (dbArgs verb (fst (orchestrator.getDbPassword (environ w) db)) db)])
           verbs (Databases config)).
Proof.
  destruct (reconcileDatabases_run (Databases config) w Hok)
    as (verbs & Hlen & Hverbs & Hpws & Ht).
  exists verbs. split; [done|]. split; [done|]. split; [done|].
  apply newCalls_spec. exact Ht.
Qed.

(** The two declared databases of the sample configuration. *)
Lemma addDatabasesToBucardo_one_command_each_witness :
  let config := sample.configOf [sample.orders] in
  let w := scripted.world (sample.engineWith []) (FileContent config) in
  fst (addDatabasesToBucardo config w) = None
  /\ exists verbs,
       length verbs = 2%nat
       /\ newCalls (addDatabasesToBucardo config) w
          = concat (zip_with
              (fun verb db =>
                 [CDatabaseExists (dbNameOf db);
                  CExecuteBucardoCommand
                    (dbArgs verb (fst (orchestrator.getDbPassword (environ w) db)) db)])
              verbs (Databases config)).
Proof.
  intros config w.
  assert (fst (addDatabasesToBucardo config w) = None) as Hok by (vm_compute; reflexivity).
  destruct (addDatabasesToBucardo_one_command_each w config Hok)
    as (verbs & Hlen & _ & _ & Hcalls).
  split; [exact Hok|]. exists verbs. split; [exact Hlen|exact Hcalls].
Defined.

(* ===================================================================== *)
(** ** Group names *)
(* ===================================================================== *)

Section group_name_facts.

Lemma length_append (s t : string) :
  String.length (s +:+ t) = (String.length s + String.length t)%nat.
Proof. induction s as [|a s IH]; [done|]. rewrite append_cons. cbn. by rewrite IH. Qed.

Lemma append_inj_suffix (n1 n2 s1 s2 : string) :
  String.length s1 = String.length s2 ->
  n1 +:+ s1 = n2 +:+ s2 -> n1 = n2 /\ s1 = s2.
Proof.
  intros Hlen. revert n2. induction n1 as [|a n1 IH]; intros [|b n2] Heq.
  - by rewrite !append_nil_l in Heq.
  - exfalso. apply (f_equal String.length) in Heq.
    rewrite append_nil_l, length_append in Heq. cbn in Heq. lia.
  - exfalso. apply (f_equal String.length) in Heq.
    rewrite append_nil_l, length_append in Heq. cbn in Heq. lia.
  - rewrite !append_cons in Heq. injection Heq as -> Heq.
    destruct (IH _ Heq) as [-> ->]. done.
Qed.

Lemma length_bytesBE (n : nat) (x : N) : length (SHA1.bytesBE n x) = n.
Proof. induction n as [|n IH]; cbn; [done|]. by rewrite IH. Qed.

Lemma length_Sum (data : list N) : length (SHA1.Sum data) = 20%nat.
Proof.
  unfold SHA1.Sum. destruct (SHA1.blocks _ _ _) as [[[[h0 h1] h2] h3] h4].
  rewrite !length_app, !length_bytesBE. done.
Qed.

Lemma length_fmt_x (bs : list N) : String.length (Go.fmt_x bs) = (2 * length bs)%nat.
Proof. induction bs as [|b bs IH]; cbn; [done|]. rewrite IH. lia. Qed.

Lemma length_group_hash (key : string) :
  String.length (Go.fmt_x (firstn 4 (SHA1.Sum (SHA1.bytesOfString key)))) = 8%nat.
Proof. rewrite length_fmt_x, length_firstn, length_Sum. done. Qed.

End group_name_facts.

(** The group of a sync tells its name and its kind: two syncs whose
    group names are equal have the same name, and either both are
    bidirectional or neither is.  So the groups of syncs with different
    names are different, and deleting and adding the group of one sync
    never touches the group of another. *)
Theorem dbgroupName_tells_syncs_apart (sync1 sync2 : Sync)
    (Hsame : dbgroupName sync1 = dbgroupName sync2) :
  Name sync1 = Name sync2
  /\ (Bidirectional sync1 = [] <-> Bidirectional sync2 = []).
Proof.
  unfold dbgroupName in Hsame.
  destruct (Bidirectional sync1) as [|a1 ids1], (Bidirectional sync2) as [|a2 ids2];
    cbn [length Nat.ltb Nat.leb] in Hsame.
  - split; [|done].
    change ("sg_" +:+ ?n +:+ ?r) with (String "s" (String "g" (String "_" (n +:+ r)))) in Hsame.
    injection Hsame as Hsame.
    rewrite <- !append_assoc in Hsame.
    apply append_inj_suffix in Hsame; [|by rewrite !length_group_hash].
    destruct Hsame as [Hsame _].
    apply (append_inj_suffix _ _ "_" "_") in Hsame; [tauto|done].
  - exfalso. rewrite !append_cons in Hsame. discriminate Hsame.
  - exfalso. rewrite !append_cons in Hsame. discriminate Hsame.
  - split; [|done]. rewrite !append_cons, !append_nil_l in Hsame. by injection Hsame.
Qed.

(** Two syncs of one name with the same members and different tables. *)
Lemma dbgroupName_tells_syncs_apart_witness :
  dbgroupName sample.orders = dbgroupName sample.repeated
  /\ Name sample.orders = Name sample.repeated.
Proof.
  assert (dbgroupName sample.orders = dbgroupName sample.repeated) as Hsame
    by (vm_compute; reflexivity).
  split; [exact Hsame|].
  exact (proj1 (dbgroupName_tells_syncs_apart sample.orders sample.repeated Hsame)).
Defined.

(* ===================================================================== *)
(** ** The run-once monitor *)
(* ===================================================================== *)

Section monitor_run_facts.
Context {E : Type} `{!Ports E}.

Lemma completedBy_spec (line : string) (pending : gmap string bool) (name : string) :
  In name (completedBy line pending)
  <-> is_Some (pending !! name)
      /\ Go.Contains line "Reason: Normal exit" = true /\ names line name = true.
Proof.
  unfold completedBy. destruct (Go.Contains line "Reason: Normal exit").
  - rewrite filter_In, in_map_iff. split.
    + intros ((kv & <- & Hkv) & Hn). apply list_elem_of_In in Hkv.
      destruct kv as [k v]. apply elem_of_map_to_list in Hkv. cbn. eauto.
    + intros ([v Hv] & _ & Hn). split; [|done]. exists (name, v). split; [done|].
      by apply list_elem_of_In, elem_of_map_to_list.
  - cbn. split; [done|]. by intros (_ & ? & _).
Qed.

Lemma completedBy_NoDup (line : string) (pending : gmap string bool) :
  List.NoDup (completedBy line pending).
Proof.
  unfold completedBy. destruct (Go.Contains line "Reason: Normal exit"); [|constructor].
  apply List.NoDup_filter, NoDup_ListNoDup.
  exact (NoDup_fst_map_to_list pending).
Qed.

Lemma pendingAfter_lookup (line : string) (pending : gmap string bool) (name : string) :
  pendingAfter line pending !! name
  = if decide (name ∈ completedBy line pending) then None else pending !! name.
Proof.
  pose proof (completedBy_spec line pending name) as Hspec.
  rewrite <- list_elem_of_In in Hspec.
  unfold pendingAfter. destruct (Go.Contains line "Reason: Normal exit") eqn:Hphrase.
  - apply option_eq. intros v. rewrite map_lookup_filter_Some. cbn [fst].
    case_decide as Hin.
    + apply Hspec in Hin as (_ & _ & Hn). split; [|done]. intros [_ ?]. congruence.
    + split; [tauto|]. intros Hv. split; [done|].
      destruct (names line name) eqn:Hn; [|done]. exfalso. apply Hin, Hspec. eauto.
  - case_decide as Hin; [|done]. apply Hspec in Hin as (_ & ? & _). done.
Qed.

Lemma runEvents_done (s : Setup) (st : MonitorState) (events : list Event) (w : World E) :
  match st with Returned | Exited _ => True | _ => False end ->
  runEvents s st events w = (st, w).
Proof.
  intros Hst. induction events as [|ev events IH]; [done|].
  cbn [runEvents]. rewrite run_bind. destruct st; try done; cbn [onEvent ret fst snd]; apply IH.
Qed.

Lemma stopBucardo_run (w : World E) :
  stopBucardoFunc w = (tt, record CStopBucardo (snd (perform CStopBucardo (engine w))) w).
Proof. unfold stopBucardoFunc. by rewrite run_bind, run_call. Qed.

Lemma runEvents_steady (s : Setup) (events : list Event) (w : World E) :
  (fst (runEvents s SteadyState events w) = SteadyState
   /\ trace (snd (runEvents s SteadyState events w)) = trace w)
  \/ (fst (runEvents s SteadyState events w) = Returned
      /\ trace (snd (runEvents s SteadyState events w)) = trace w ++ [CStopBucardo]).
Proof.
  revert w. induction events as [|ev events IH]; intros w; [by left|].
  cbn [runEvents]. rewrite run_bind. cbn [onEvent].
  destruct ev; cbn [monitorBucardoEvent ret fst snd]; try apply IH.
  all: rewrite run_bind, stopBucardo_run; cbn [ret fst snd];
    rewrite runEvents_done by done; right; cbn [fst snd]; by rewrite trace_record.
Qed.

End monitor_run_facts.

Section monitor_run_facts2.
Context {E : Type} `{!Ports E}.

(** One log line in the watching state, as a run. *)
Lemma LogLine_run (s : Setup) (pending : gmap string bool) (line : string) (w : World E) :
  let pending' := pendingAfter line pending in
  let next := fst (monitorSyncsEvent s pending (LogLine line) w) in
  next = (if (size pending' =? 0)%nat
          then if allSyncsAreRunOnce s then Returned else SteadyState
          else Watching pending')
  /\ trace (snd (monitorSyncsEvent s pending (LogLine line) w))
     = trace w ++ map stopCommand (completedBy line pending)
       ++ match next with Returned => [CStopBucardo] | _ => [] end.
Proof.
  cbv zeta. unfold completedBy, pendingAfter, monitorSyncsEvent.
  rewrite run_bind.
  assert (exists w1,
            (if Go.Contains line "Reason: Normal exit"
             then rangeRunOnce line (map fst (map_to_list pending)) pending
             else ret pending) w
            = (if Go.Contains line "Reason: Normal exit"
               then filter (fun kv => names line (fst kv) = false) pending
               else pending, w1)
            /\ trace w1
               = trace w ++ map stopCommand
                   (if Go.Contains line "Reason: Normal exit"
                    then List.filter (names line) (map fst (map_to_list pending))
                    else [])) as (w1 & -> & Ht1).
  { destruct (Go.Contains line "Reason: Normal exit").
    - destruct (rangeRunOnce_spec line (map fst (map_to_list pending)) pending w)
        as [Hfst Hsnd].
      destruct (rangeRunOnce _ _ _ _) as [m w1]. cbn [fst snd] in *.
      exists w1. by rewrite Hfst, foldl_dropNamed_keys.
    - exists w. cbn. by rewrite app_nil_r. }
  cbn [fst snd].
  destruct (size _ =? 0)%nat.
  - destruct (allSyncsAreRunOnce s).
    + rewrite run_bind, stopBucardo_run. cbn [ret fst snd].
      split; [done|]. by rewrite trace_record, Ht1, <- app_assoc.
    + cbn [ret fst snd]. split; [done|]. by rewrite Ht1, app_nil_r.
  - cbn [ret fst snd]. split; [done|]. by rewrite Ht1, app_nil_r.
Qed.

Lemma runEvents_watching (s : Setup) (events : list Event)
    (pending : gmap string bool) (w : World E) :
  exists stopped engineStop,
    trace (snd (runEvents s (Watching pending) events w))
    = trace w ++ map stopCommand stopped ++ engineStop
    /\ List.NoDup stopped
    /\ (forall name, In name stopped -> is_Some (pending !! name))
    /\ match fst (runEvents s (Watching pending) events w) with
       | Watching pending' =>
           engineStop = []
           /\ forall name, pending' !! name
                           = if decide (name ∈ stopped) then None else pending !! name
       | SteadyState => engineStop = []
       | Returned => engineStop = [] \/ engineStop = [CStopBucardo]
       | Exited code => code = 1 /\ engineStop = [CStopBucardo]
       end.
Proof.
  revert pending w. induction events as [|ev events IH]; intros pending w.
  { exists [], []. cbn. rewrite app_nil_r. split; [done|]. split; [constructor|].
    split; [by intros ? []|]. split; [done|].
    intros name. case_decide as Hin; [|done]. by apply elem_of_nil in Hin. }
  cbn [runEvents]. rewrite run_bind. cbn [onEvent].
  assert (forall w1,
            trace w1 = trace w ->
            exists stopped engineStop,
              trace (snd (runEvents s (Watching pending) events w1))
              = trace w ++ map stopCommand stopped ++ engineStop
              /\ List.NoDup stopped
              /\ (forall name, In name stopped -> is_Some (pending !! name))
              /\ match fst (runEvents s (Watching pending) events w1) with
                 | Watching pending' =>
                     engineStop = []
                     /\ forall name, pending' !! name
                          = if decide (name ∈ stopped) then None else pending !! name
                 | SteadyState => engineStop = []
                 | Returned => engineStop = [] \/ engineStop = [CStopBucardo]
                 | Exited code => code = 1 /\ engineStop = [CStopBucardo]
                 end) as Hskip.
  { intros w1 Hw1. destruct (IH pending w1) as (stopped & engineStop & Ht & Hrest).
    exists stopped, engineStop. by rewrite Ht, Hw1. }
  assert (forall st w1 tail,
            match st with Returned | Exited _ => True | _ => False end ->
            trace w1 = trace w ++ tail ->
            match st with
            | Returned => tail = [] \/ tail = [CStopBucardo]
            | Exited code => code = 1 /\ tail = [CStopBucardo]
            | _ => False
            end ->
            exists stopped engineStop,
              trace (snd (runEvents s st events w1))
              = trace w ++ map stopCommand stopped ++ engineStop
              /\ List.NoDup stopped
              /\ (forall name, In name stopped -> is_Some (pending !! name))
              /\ match fst (runEvents s st events w1) with
                 | Watching pending' =>
                     engineStop = []
                     /\ forall name, pending' !! name
                          = if decide (name ∈ stopped) then None else pending !! name
                 | SteadyState => engineStop = []
                 | Returned => engineStop = [] \/ engineStop = [CStopBucardo]
                 | Exited code => code = 1 /\ engineStop = [CStopBucardo]
                 end) as Hend.
  { intros st w1 tail Hst Hw1 Htail. rewrite (runEvents_done s st events w1 Hst).
    exists [], tail. cbn [fst snd map app]. split; [done|]. split; [constructor|].
    split; [by intros ? []|]. by destruct st. }
  destruct ev as [line| | | |].
  - (* a log line *)
    destruct (LogLine_run s pending line w) as [Hnext Ht]. cbv zeta in Hnext, Ht.
    set (w1 := snd (monitorSyncsEvent s pending (LogLine line) w)) in *.
    set (next := fst (monitorSyncsEvent s pending (LogLine line) w)) in *.
    pose proof (completedBy_NoDup line pending) as Hnd.
    pose proof (completedBy_spec line pending) as Hspec.
    pose proof (pendingAfter_lookup line pending) as Hlook.
    destruct (size (pendingAfter line pending) =? 0)%nat.
    + destruct (allSyncsAreRunOnce s); rewrite Hnext in *.
      * rewrite (runEvents_done s Returned events w1 I).
        exists (completedBy line pending), [CStopBucardo]. cbn [fst snd].
        split; [done|]. split; [done|]. split; [|by right].
        intros name Hin%Hspec. tauto.
      * rewrite app_nil_r in Ht.
        exists (completedBy line pending).
        destruct (runEvents_steady s events w1) as [[-> Hs]|[-> Hs]].
        -- exists []. rewrite Hs, Ht, app_nil_r. split; [done|]. split; [done|].
           split; [|done]. intros name Hin%Hspec. tauto.
        -- exists [CStopBucardo]. rewrite Hs, Ht, <- app_assoc. split; [done|].
           split; [done|]. split; [|by right]. intros name Hin%Hspec. tauto.
    + rewrite Hnext in *. rewrite app_nil_r in Ht.
      destruct (IH (pendingAfter line pending) w1)
        as (later & engineStop & Hlater & Hndl & Hinl & Hfinal).
      exists (completedBy line pending ++ later), engineStop.
      assert (forall name, In name later -> ~ In name (completedBy line pending)) as Hsep.
      { intros name Hin Hnow. apply Hinl in Hin as [v Hv]. rewrite Hlook in Hv.
        apply list_elem_of_In in Hnow. by rewrite decide_True in Hv. }
      split; [by rewrite Hlater, Ht, map_app, <- !app_assoc|].
      split.
      { apply NoDup_ListNoDup, NoDup_app. split; [by apply NoDup_ListNoDup|].
        split; [|by apply NoDup_ListNoDup].
        intros name Hnow%list_elem_of_In Hin%list_elem_of_In. by apply (Hsep name). }
      split.
      { intros name [Hin|Hin]%in_app_or.
        - apply Hspec in Hin. tauto.
        - apply Hinl in Hin as [v Hv]. rewrite Hlook in Hv.
          case_decide; [done|]. eauto. }
      destruct (fst (runEvents s (Watching (pendingAfter line pending)) events w1));
        try done.
      destruct Hfinal as [-> Hfinal]. split; [done|]. intros name.
      rewrite Hfinal, Hlook.
      destruct (decide (name ∈ later)) as [Hl|Hl],
               (decide (name ∈ completedBy line pending)) as [Hc|Hc],
               (decide (name ∈ completedBy line pending ++ later)) as [Ha|Ha];
        try done; exfalso; rewrite elem_of_app in Ha; tauto.
  - (* the log stream is closed *)
    cbn [monitorSyncsEvent ret fst snd].
    apply (Hend Returned w []); [done|by rewrite app_nil_r|by left].
  - (* the deadline *)
    cbn [monitorSyncsEvent]. destruct (timeoutChannel s).
    + rewrite run_bind, stopBucardo_run. cbn [ret fst snd].
      apply (Hend (Exited 1) _ [CStopBucardo]); [done|by rewrite trace_record|done].
    + cbn [ret fst snd]. by apply Hskip.
  - (* cancellation *)
    cbn [monitorSyncsEvent]. rewrite run_bind, stopBucardo_run. cbn [ret fst snd].
    apply (Hend Returned _ [CStopBucardo]); [done|by rewrite trace_record|by right].
  - (* a signal *)
    cbn [monitorSyncsEvent ret fst snd]. by apply Hskip.
Qed.

End monitor_run_facts2.

(** When the tail of the engine's log cannot be started, the run-once
    monitor exits with status 1 at once: it calls nothing, so the engine
    is not stopped.  Otherwise, whatever events it receives, the calls
    it makes are stop commands for pending syncs, each sync at most
    once, followed by at most one stop of the engine, after which
    nothing is called.  While it is still watching, the pending syncs
    are those it was given less the ones it has stopped, and from its
    loop it exits with status 1 only after stopping the engine. *)
Theorem MonitorSyncs_stops_each_sync_once {E : Type} `{!Ports E}
    (config : BucardoConfig) (runOnceSyncs : gmap string bool)
    (maxTimeout : option Z) (events : list Event) (w : World E) :
  let run := MonitorSyncs config runOnceSyncs maxTimeout events in
  match tailStart w with
  | Some _ => fst (run w) = Exited 1 /\ newCalls run w = []
  | None =>
      exists stopped engineStop,
        newCalls run w = map stopCommand stopped ++ engineStop
        /\ List.NoDup stopped
        /\ (forall name, In name stopped -> is_Some (runOnceSyncs !! name))
        /\ match fst (run w) with
           | Watching pending =>
               engineStop = []
               /\ forall name,
                    pending !! name
                    = if decide (name ∈ stopped) then None else runOnceSyncs !! name
           | SteadyState => engineStop = []
           | Returned => engineStop = [] \/ engineStop = [CStopBucardo]
           | Exited code => code = 1 /\ engineStop = [CStopBucardo]
           end
  end.
Proof.
  intros run. subst run.
  assert (MonitorSyncs config runOnceSyncs maxTimeout events w
          = match tailStart w with
            | Some _ => (Exited 1, w)
            | None =>
                runEvents (setup config runOnceSyncs maxTimeout) (Watching runOnceSyncs)
                          events w
            end) as Hrun.
  { unfold MonitorSyncs, bind, getWorld. by destruct (tailStart w). }
  destruct (tailStart w) as [e|].
  - rewrite Hrun. split; [done|]. apply newCalls_spec. rewrite Hrun. cbn [snd].
    by rewrite app_nil_r.
  - destruct (runEvents_watching (setup config runOnceSyncs maxTimeout) events
                runOnceSyncs w) as (stopped & engineStop & Ht & Hrest).
    exists stopped, engineStop. rewrite Hrun. split; [|done].
    apply newCalls_spec. by rewrite Hrun.
Qed.

(* ===================================================================== *)
(** ** The command-line adapter *)
(* ===================================================================== *)

Section executor_properties.
Import regexp executor.

Section regexp_facts.

Lemma keep_Some (inGroup : bool) (c : ascii) (r : option Match) (group rest : string) :
  keep inGroup c r = Some (group, rest) ->
  exists group', r = Some (group', rest)
                 /\ group = if inGroup then String c group' else group'.
Proof. destruct r as [[g r']|]; cbn; [|done]. intros [= <- <-]. eauto. Qed.

Lemma allOf_append cls (s t : string) : allOf cls (s +:+ t) <-> allOf cls s /\ allOf cls t.
Proof.
  induction s as [|a s IH]; [rewrite append_nil_l; cbn; tauto|].
  rewrite append_cons. cbn. rewrite IH. tauto.
Qed.

(** A greedy repetition inside the group puts a non-empty run of the
    class at the head of the group. *)
Lemma oneOrMore_group cls (k : string -> option Match) (s group rest : string) :
  oneOrMore cls true k s = Some (group, rest) ->
  exists run group' s',
    group = run +:+ group' /\ run <> "" /\ allOf cls run
    /\ s = run +:+ s' /\ k s' = Some (group', rest).
Proof.
  revert group. induction s as [|c s IH]; intros group; cbn [oneOrMore]; [done|].
  destruct (cls c) eqn:Hc; [|done].
  destruct (oneOrMore cls true k s) as [[g r]|] eqn:Hmore.
  - intros (g' & [= <- <-] & ->)%keep_Some.
    destruct (IH _ eq_refl) as (run & group' & s' & -> & Hne & Hall & -> & Hk).
    exists (String c run), group', s'. rewrite !append_cons. by repeat split.
  - intros (g' & Hk & ->)%keep_Some.
    exists (String c ""), g', s. rewrite !append_cons, !append_nil_l. by repeat split.
Qed.

Lemma oneOrMore_outside cls (k : string -> option Match) (s group rest : string) :
  oneOrMore cls false k s = Some (group, rest) ->
  exists run s', run <> "" /\ allOf cls run /\ s = run +:+ s' /\ k s' = Some (group, rest).
Proof.
  induction s as [|c s IH]; cbn [oneOrMore]; [done|].
  destruct (cls c) eqn:Hc; [|done].
  destruct (oneOrMore cls false k s) as [[g r]|] eqn:Hmore.
  - intros (g' & [= <- <-] & ->)%keep_Some.
    destruct (IH eq_refl) as (run & s' & Hne & Hall & -> & Hk).
    exists (String c run), s'. rewrite !append_cons. by repeat split.
  - intros (g' & Hk & ->)%keep_Some.
    exists (String c ""), s. rewrite !append_cons, !append_nil_l. by repeat split.
Qed.

(** A literal prefix outside the group consumes itself. *)
Lemma matchAt_literal (lit : string) (re : list Item) (s : string) (m : Match) :
  matchAt (literal lit ++ re) false s = Some m ->
  exists s', s = lit +:+ s' /\ matchAt re false s' = Some m.
Proof.
  revert s. induction lit as [|c lit IH]; intros s.
  - unfold literal. cbn [list_ascii_of_string map app]. intros Hm. exists s.
    by rewrite append_nil_l.
  - unfold literal. cbn [list_ascii_of_string map app matchAt]. fold (literal lit).
    destruct s as [|a s]; [done|]. destruct (Ascii.eqb_spec a c) as [->|]; [|done].
    destruct m as [group rest]. intros (g' & Hm & ->)%keep_Some.
    destruct (IH _ Hm) as (s' & -> & Hre). exists s'. by rewrite append_cons.
Qed.

Lemma findAll_Forall (P : string -> Prop) (re : list Item) (skip : nat) (s : string) :
  (forall s' group rest, matchAt re false s' = Some (group, rest) -> P group) ->
  Forall P (findAll re skip s).
Proof.
  intros HP. revert skip. induction s as [|c s IH]; intros skip; cbn [findAll]; [done|].
  destruct skip; [|apply IH].
  destruct (matchAt re false (String c s)) as [[group rest]|] eqn:Hm; [|apply IH].
  constructor; [by eapply HP|apply IH].
Qed.

Lemma findFirst_Some (re : list Item) (s group : string) :
  findFirst re s = Some group ->
  exists before s' rest, s = before +:+ s' /\ matchAt re false s' = Some (group, rest).
Proof.
  induction s as [|c s IH]; cbn [findFirst]; [done|].
  destruct (matchAt re false (String c s)) as [[g rest]|] eqn:Hm.
  - intros [= <-]. exists "", (String c s), rest. by rewrite append_nil_l.
  - intros (before & s' & rest & -> & Hre)%IH.
    exists (String c before), s', rest. by rewrite append_cons.
Qed.

(** The group of [Database: (\S+)] and of [Relgroup: (\S+)]. *)
Lemma group_after_label (label : string) (s group rest : string) :
  matchAt (literal label ++ [Open; OneOrMore nonSpace; Close]) false s = Some (group, rest) ->
  group <> "" /\ allOf nonSpace group /\ s = label +:+ group +:+ rest.
Proof.
  intros (s' & -> & Hre)%matchAt_literal. cbn [matchAt] in Hre.
  apply oneOrMore_group in Hre as (run & group' & s'' & -> & Hne & Hall & -> & Hk).
  injection Hk as <- <-. rewrite !append_nil_r. done.
Qed.

(** The group of the expression of [ListSyncs]: the text between two
    double quotes. *)
Lemma group_of_reSync (s group rest : string) :
  matchAt reSync false s = Some (group, rest) ->
  group <> "" /\ allOf (notByte quote) group.
Proof.
  unfold reSync. intros (s' & -> & Hre)%matchAt_literal. cbn [matchAt] in Hre.
  destruct s' as [|a s']; [done|]. destruct (Ascii.eqb a quote); [|done].
  apply keep_Some in Hre as (g' & Hre & ->).
  apply oneOrMore_group in Hre as (run & group' & s'' & -> & Hne & Hall & -> & Hk).
  destruct s'' as [|b s'']; [done|]. destruct (Ascii.eqb b quote); [|done].
  apply keep_Some in Hk as (g'' & [= <- <-] & ->). by rewrite append_nil_r.
Qed.

(** The group of [\s+(\S+\.\S+)]. *)
Lemma group_of_reTable (s group rest : string) :
  matchAt reTable false s = Some (group, rest) ->
  group <> "" /\ allOf nonSpace group.
Proof.
  unfold reTable. cbn [matchAt].
  intros (ws & s' & _ & _ & -> & Hre)%oneOrMore_outside.
  apply oneOrMore_group in Hre as (run & group' & s'' & -> & Hne & Hall & -> & Hk).
  split; [by destruct run|]. apply allOf_append. split; [done|].
  destruct s'' as [|b s'']; [done|]. destruct (Ascii.eqb_spec b ".") as [->|]; [|done].
  apply keep_Some in Hk as (g' & Hk & ->).
  apply oneOrMore_group in Hk as (run2 & g2 & s3 & -> & _ & Hall2 & -> & Hk).
  injection Hk as <- <-. rewrite append_nil_r. by split.
Qed.

End regexp_facts.

Section listing_facts.
Context {H : Type} `{!Host H}.

Lemma runBucardoCommandWithOutput_run (e : CLIExecutor) (args : list string)
    (s : Machine H) :
  let cmdStr := bucardoCmd e +:+ " " +:+ Go.Join args " " in
  fst (runBucardoCommandWithOutput e args s)
  = combinedOutput (fst (run (su e cmdStr) (host s)))
  /\ ran (snd (runBucardoCommandWithOutput e args s)) = ran s ++ [su e cmdStr]
  /\ host (snd (runBucardoCommandWithOutput e args s))
     = snd (run (su e cmdStr) (host s))
  /\ stderrOut (snd (runBucardoCommandWithOutput e args s)) = stderrOut s.
Proof.
  cbv zeta. unfold runBucardoCommandWithOutput, CombinedOutput, start, log.
  cbn [host ran logs stderrOut].
  destruct (run _ (host s)) as [o h']. done.
Qed.

End listing_facts.

(** The names the adapter reads off the engine's listings are never
    empty; a database name holds no white space and a sync name no
    double quote.  A listing that fails returns no name, and it is not
    an error when the engine says that there is nothing to list.
    [DatabaseExists] reports a database exactly when the listing names
    it, so never for a name with white space in it. *)
Theorem listed_names_are_wellformed {H : Type} `{!Host H}
    (e : CLIExecutor) (s : Machine H) :
  let dbs := fst (ListDatabases e s) in
  let syncs := fst (ListSyncs e s) in
  let listing what := combinedOutput (fst (run (su e (bucardoCmd e +:+ " list " +:+ what))
                                              (host s))) in
  Forall (fun name => name <> "" /\ allOf nonSpace name) (fst dbs)
  /\ Forall (fun name => name <> "" /\ allOf (notByte quote) name) (fst syncs)
  /\ (snd (listing "dbs") <> None ->
        fst dbs = []
        /\ (snd dbs = None <-> Go.Contains (fst (listing "dbs")) "No databases found" = true))
  /\ (snd (listing "syncs") <> None ->
        fst syncs = []
        /\ (snd syncs = None <-> Go.Contains (fst (listing "syncs")) "No syncs found" = true))
  /\ (forall dbName,
        fst (DatabaseExists e dbName s)
        = (bool_decide (dbName ∈ fst dbs), snd dbs)
           )
  /\ ran (snd (ListDatabases e s)) = ran s ++ [su e (bucardoCmd e +:+ " list dbs")]
  /\ ran (snd (ListSyncs e s)) = ran s ++ [su e (bucardoCmd e +:+ " list syncs")].
Proof.
  cbv zeta.
  destruct (runBucardoCommandWithOutput_run e ["list"; "dbs"] s) as (Hd & Hdran & _).
  destruct (runBucardoCommandWithOutput_run e ["list"; "syncs"] s) as (Hs & Hsran & _).
  cbv zeta in Hd, Hdran, Hs, Hsran.
  change (Go.Join ["list"; "dbs"] " ") with ("list" +:+ " " +:+ "dbs") in *.
  change (Go.Join ["list"; "syncs"] " ") with ("list" +:+ " " +:+ "syncs") in *.
  assert (forall x what, x +:+ " " +:+ "list" +:+ " " +:+ what = x +:+ " list " +:+ what)
    as Hcmd.
  { intros x what. f_equal. }
  rewrite !Hcmd in *.
  unfold DatabaseExists, ListDatabases, ListSyncs.
  destruct (runBucardoCommandWithOutput e ["list"; "dbs"] s) as [[outd errd] sd].
  destruct (runBucardoCommandWithOutput e ["list"; "syncs"] s) as [[outs errs] ss].
  cbn [fst snd] in *. rewrite <- Hd, <- Hs. cbn [fst snd].
  split; [|split; [|split; [|split; [|split; [|split]]]]].
  - destruct errd; [by destruct (Go.Contains outd _)|]. cbn [fst].
    apply findAll_Forall. intros s' group rest Hm.
    apply group_after_label in Hm. tauto.
  - destruct errs; [by destruct (Go.Contains outs _)|]. cbn [fst].
    apply findAll_Forall. intros s' group rest Hm. by apply group_of_reSync in Hm.
  - destruct errd; [|done]. intros _. destruct (Go.Contains outd _); cbn; split; done.
  - destruct errs; [|done]. intros _. destruct (Go.Contains outs _); cbn; split; done.
  - intros dbName. destruct errd as [err|].
    + destruct (Go.Contains outd _); cbn [fst snd log].
      * cbn. f_equal; try (symmetry; apply bool_decide_eq_false; by intros ?%elem_of_nil).
      * cbn. f_equal; try (symmetry; apply bool_decide_eq_false; by intros ?%elem_of_nil).
    + cbn [fst snd]. f_equal. apply eq_true_iff_eq.
      rewrite existsb_exists, bool_decide_eq_true, list_elem_of_In. split.
      * intros (x & Hin & ->%String.eqb_eq). done.
      * intros Hin. exists dbName. split; [done|apply String.eqb_refl].
  - destruct errd; [destruct (Go.Contains outd _)|]; done.
  - destruct errs; [destruct (Go.Contains outs _)|]; done.
Qed.

Section relgroup_facts.

(** A greedy repetition takes a whole run of its class when what
    follows the run is no byte of the class. *)
Lemma oneOrMore_greedy cls (k : string -> option Match) (run after group rest : string) :
  run <> "" -> allOf cls run ->
  match after with EmptyString => True | String c _ => cls c = false end ->
  k after = Some (group, rest) ->
  oneOrMore cls true k (run +:+ after) = Some (run +:+ group, rest).
Proof.
  intros Hne Hall Hafter Hk. induction run as [|c run IH]; [done|].
  destruct Hall as [Hc Hall]. rewrite !append_cons. cbn [oneOrMore]. rewrite Hc.
  destruct run as [|c' run].
  - rewrite !append_nil_l.
    assert (oneOrMore cls true k after = None) as ->.
    { destruct after as [|a after]; [done|]. cbn. by rewrite Hafter. }
    rewrite Hk. done.
  - rewrite IH by done. done.
Qed.

Lemma matchAt_literal_intro (lit : string) (re : list Item) (s : string) :
  matchAt (literal lit ++ re) false (lit +:+ s) = matchAt re false s.
Proof.
  induction lit as [|c lit IH]; [by rewrite append_nil_l|].
  unfold literal. cbn [list_ascii_of_string map app]. fold (literal lit).
  rewrite append_cons. cbn [matchAt]. rewrite Ascii.eqb_refl, IH.
  by destruct (matchAt re false s) as [[? ?]|].
Qed.

End relgroup_facts.

(** [GetSyncRelgroup] returns the text that follows the first
    "Relgroup: " of the sync details up to the next white space: the
    name it returns is not empty, holds no white space and stands in the
    details behind that label.  Details that begin with the label and a
    name are parsed back to that name.  Without such a place in the
    details the result is an error and the empty name. *)
Theorem GetSyncRelgroup_result (syncDetailsOutput : string) :
  (forall relgroup,
     GetSyncRelgroup syncDetailsOutput = (relgroup, None) ->
     relgroup <> "" /\ allOf nonSpace relgroup
     /\ exists before after,
          syncDetailsOutput = before +:+ "Relgroup: " +:+ relgroup +:+ after)
  /\ (snd (GetSyncRelgroup syncDetailsOutput) <> None ->
      GetSyncRelgroup syncDetailsOutput
      = ("", Some "could not find relgroup in sync details")
      /\ forall before after,
           syncDetailsOutput = before +:+ "Relgroup: " +:+ after ->
           match after with EmptyString => True | String c _ => space c = true end)
  /\ (forall relgroup after,
        relgroup <> "" -> allOf nonSpace relgroup ->
        match after with EmptyString => True | String c _ => space c = true end ->
        GetSyncRelgroup ("Relgroup: " +:+ relgroup +:+ after) = (relgroup, None)).
Proof.
  unfold GetSyncRelgroup. split; [|split].
  - intros relgroup. destruct (findFirst reRelgroup syncDetailsOutput) as [g|] eqn:Hf; [|done].
    intros [= ->].
    apply findFirst_Some in Hf as (before & s' & rest & -> & Hm).
    apply group_after_label in Hm as (Hne & Hall & ->). eauto.
  - destruct (findFirst reRelgroup syncDetailsOutput) as [g|] eqn:Hf; [done|].
    intros _. split; [done|].
    intros before after ->.
    assert (forall before s, findFirst reRelgroup (before +:+ s) = None ->
                             matchAt reRelgroup false s = None) as Hnone.
    { clear. intros before s. induction before as [|c before IH].
      - rewrite append_nil_l. destruct s as [|c s]; [done|]. cbn [findFirst].
        by destruct (matchAt reRelgroup false (String c s)) as [[? ?]|].
      - rewrite append_cons. cbn [findFirst].
        destruct (matchAt reRelgroup false (String c (before +:+ s))) as [[? ?]|];
          [done|apply IH]. }
    apply Hnone in Hf. unfold reRelgroup in Hf. rewrite matchAt_literal_intro in Hf.
    cbn [matchAt] in Hf.
    destruct after as [|c after]; [done|]. cbn [oneOrMore] in Hf.
    unfold nonSpace in Hf at 1. destruct (space c); [done|]. cbn [negb] in Hf.
    destruct (oneOrMore nonSpace true _ _) as [[? ?]|]; cbn [keep matchAt] in Hf; done.
  - intros relgroup after Hne Hall Hafter.
    assert (findFirst reRelgroup ("Relgroup: " +:+ relgroup +:+ after) = Some relgroup) as ->;
      [|done].
    assert (matchAt reRelgroup false ("Relgroup: " +:+ relgroup +:+ after)
            = Some (relgroup, after)) as Hm.
    { unfold reRelgroup. rewrite matchAt_literal_intro. cbn [matchAt].
      rewrite (oneOrMore_greedy nonSpace _ relgroup after "" after); try done.
      - by rewrite append_nil_r.
      - destruct after as [|c after]; [done|]. unfold nonSpace. by rewrite Hafter. }
    change ("Relgroup: " +:+ relgroup +:+ after)
      with (String "R" ("elgroup: " +:+ relgroup +:+ after)) in *.
    cbn [findFirst]. by rewrite Hm.
Qed.

Section tables_result_facts.

Lemma allOf_nonSpace_free (s : string) :
  allOf nonSpace s
  <-> Forall (fun c => freeOf c s) [" "; "009"; "010"; "012"; "013"]%char.
Proof.
  induction s as [|a s IH].
  - cbn. split; [|done]. intros _. repeat constructor.
  - cbn [allOf freeOf]. rewrite IH, !Forall_cons. unfold nonSpace, space.
    cbn [existsb]. rewrite negb_true_iff, !orb_false_iff, !Ascii.eqb_neq.
    rewrite !Forall_nil. tauto.
Qed.

Lemma SplitGo_pieces_free c sep (cur s : string) :
  freeOf c cur -> freeOf c s -> Forall (freeOf c) (Go.SplitGo sep cur s).
Proof.
  revert cur. induction s as [|a s IH]; intros cur Hcur Hs; cbn [Go.SplitGo].
  - constructor; [|done]. by apply freeOf_rev.
  - destruct Hs as [Ha Hs]. destruct (Ascii.eqb a sep).
    + constructor; [by apply freeOf_rev|]. by apply IH.
    + apply IH; [|done]. by split.
Qed.

Lemma TrimRight_free c cut (s : string) : freeOf c s -> freeOf c (Go.TrimRight s cut).
Proof.
  intros Hs. unfold Go.TrimRight, Go.TrimRightFunc.
  by apply freeOf_rev, TrimLeftFunc_free, freeOf_rev.
Qed.

Lemma hd_Forall {A} (P : A -> Prop) (d : A) (l : list A) :
  l <> [] -> Forall P l -> P (hd d l).
Proof. destruct l; [done|]. intros _ Hall. by inversion Hall. Qed.

(** The name [GetSyncTables] makes of one match. *)
Lemma table_of_match (m : string) :
  allOf nonSpace m ->
  let tableName := Go.TrimSpace (hd "" (Go.Split (Go.TrimRight m ",") "(")) in
  allOf nonSpace tableName /\ freeOf "(" tableName.
Proof.
  intros Hm. cbv zeta. split.
  - apply allOf_nonSpace_free. apply allOf_nonSpace_free in Hm.
    eapply Forall_impl; [exact Hm|]. intros c Hc. cbn beta in *.
    apply TrimSpace_free. apply hd_Forall; [apply SplitGo_nonempty|].
    apply SplitGo_pieces_free; [done|]. by apply TrimRight_free.
  - apply TrimSpace_free. apply hd_Forall; [apply SplitGo_nonempty|].
    by apply SplitGo_free.
Qed.

Lemma tablesOfMatches_clean (submatches : list string) :
  Forall (allOf nonSpace) submatches ->
  Forall (fun t => t <> "" /\ allOf nonSpace t /\ freeOf "(" t)
         (cli.tablesOfMatches submatches).
Proof.
  intros Hall. unfold cli.tablesOfMatches. rewrite sortStrings_Permutation.
  assert (forall acc,
            Forall (fun t => t <> "" /\ allOf nonSpace t /\ freeOf "(" t) acc ->
            Forall (fun t => t <> "" /\ allOf nonSpace t /\ freeOf "(" t)
              (foldl (fun tables m =>
                        let tableName := Go.TrimRight m "," in
                        let tableName := Go.TrimSpace (hd "" (Go.Split tableName "(")) in
                        if negb (String.eqb tableName "") then tables ++ [tableName]
                        else tables) acc submatches)) as Hfold.
  { induction Hall as [|m ms Hm Hms IH]; intros acc Hacc; cbn [foldl]; [done|].
    apply IH. cbv zeta.
    destruct (String.eqb_spec (Go.TrimSpace (hd "" (Go.Split (Go.TrimRight m ",") "("))) "")
      as [Heq|Hne]; cbn [negb]; [done|].
    apply Forall_app. split; [done|]. constructor; [|done].
    split; [done|]. by apply table_of_match. }
  by apply Hfold.
Qed.

End tables_result_facts.

(** [GetSyncTables] runs no command for the empty relgroup name and
    returns no table then, and none when the listing fails.  The tables
    it returns are sorted; none is empty, and none holds white space or
    an opening parenthesis. *)
Theorem GetSyncTables_result {H : Type} `{!Host H}
    (e : CLIExecutor) (relgroupName : string) (s : Machine H) :
  let result := fst (GetSyncTables e relgroupName s) in
  (relgroupName = "" -> GetSyncTables e relgroupName s = ([], None, s))
  /\ (relgroupName <> "" ->
        ran (snd (GetSyncTables e relgroupName s))
        = ran s ++ [su e (bucardoCmd e +:+ " list relgroup " +:+ relgroupName
                          +:+ " --verbose")])
  /\ (snd result <> None -> fst result = [])
  /\ Sorted String.le (fst result)
  /\ Forall (fun table => table <> "" /\ allOf nonSpace table /\ freeOf "(" table)
            (fst result).
Proof.
  cbv zeta. unfold GetSyncTables.
  destruct (String.eqb_spec relgroupName "") as [->|Hne].
  { cbn [fst snd]. split; [done|]. split; [done|]. split; [done|].
    split; constructor. }
  destruct (runBucardoCommandWithOutput_run e ["list"; "relgroup"; relgroupName; "--verbose"] s)
    as (_ & Hran & _).
  cbv zeta in Hran.
  destruct (runBucardoCommandWithOutput e _ s) as [[output err] s1]. cbn [fst snd] in *.
  split; [done|]. split.
  { intros _. destruct err; cbn [snd]; rewrite Hran; do 3 f_equal. }
  destruct err as [err|]; cbn [fst snd].
  - split; [done|]. split; constructor.
  - split; [done|]. split; [apply tablesOfMatches_sorted|].
    apply tablesOfMatches_clean. apply findAll_Forall.
    intros s' group rest Hm. apply group_of_reTable in Hm. tauto.
Qed.

Section command_facts.
Context {H : Type} `{!Host H}.

Lemma command_line_not_empty (cmd rest : string) :
  String.eqb (cmd +:+ " " +:+ rest) "" = false.
Proof. destruct cmd; [by rewrite append_nil_l|by rewrite append_cons]. Qed.

(** What [runBucardoCommand] leaves on the machine. *)
Lemma runBucardoCommand_run (e : CLIExecutor) (args : list string) (s : Machine H) :
  let cmdStr := bucardoCmd e +:+ " " +:+ Go.Join args " " in
  let o := fst (run (su e cmdStr) (host s)) in
  let r := runBucardoCommand e args s in
  fst r = match o with
          | StartFailed err => Some ("failed to start command: " +:+ err)
          | Ran _ _ _ exit => exit
          end
  /\ ran (snd r) = ran s ++ [su e cmdStr]
  /\ host (snd r) = snd (run (su e cmdStr) (host s))
  /\ logs (snd r)
     = logs s ++ [{| level := LevelInfo; msg := "Running command";
                     attrs := [("component", "command_runner");
                               ("command", cli.loggedCommand (bucardoCmd e) args)] |}]
  /\ stderrOut (snd r)
     = stderrOut s
       ++ match o with
          | StartFailed _ => []
          | Ran _ stderr _ _ =>
              List.filter (fun line => negb (harmless line)) (scanLines stderr)
          end.
Proof.
  cbv zeta. unfold runBucardoCommand, runCommand, start, log, printStderr, su,
    cli.loggedCommand.
  rewrite command_line_not_empty. cbn [host ran logs stderrOut].
  destruct (run _ (host s)) as [[err|out err_ comb exit] h']; cbn [fst snd host ran logs stderrOut].
  - by rewrite app_nil_r.
  - done.
Qed.

End command_facts.

(** Every engine command is run as it is and logged with its password
    replaced: the one log entry of [runBucardoCommand] carries the
    redacted command line.  Of what the command writes to its standard
    error, the lines that begin with "No such dbgroup:" or "No such
    sync:" are dropped and all others are passed on in their order.  The
    error returned is that of the command, or says that it could not be
    started. *)
Theorem runBucardoCommand_logs_redacted {H : Type} `{!Host H}
    (e : CLIExecutor) (args : list string) (s : Machine H) :
  let cmdStr := bucardoCmd e +:+ " " +:+ Go.Join args " " in
  let o := fst (run (su e cmdStr) (host s)) in
  let r := runBucardoCommand e args s in
  ran (snd r) = ran s ++ [["su"; "-"; bucardoUser e; "-c"; cmdStr]]
  /\ (exists entry,
        logs (snd r) = logs s ++ [entry]
        /\ level entry = LevelInfo
        /\ attrs entry = [("component", "command_runner");
                          ("command", cli.redactPassword cmdStr)])
  /\ (forall line, In line (stderrOut (snd r)) ->
        In line (stderrOut s)
        \/ (Go.HasPrefix line "No such dbgroup:" = false
            /\ Go.HasPrefix line "No such sync:" = false))
  /\ match o with
     | StartFailed err =>
         fst r = Some ("failed to start command: " +:+ err)
         /\ stderrOut (snd r) = stderrOut s
     | Ran _ stderr _ exit =>
         fst r = exit
         /\ stderrOut (snd r)
            = stderrOut s
              ++ List.filter (fun line => negb (harmless line)) (scanLines stderr)
     end.
Proof.
  cbv zeta. destruct (runBucardoCommand_run e args s) as (Hr & Hran & _ & Hlogs & Herr).
  cbv zeta in Hr, Hran, Hlogs, Herr.
  split; [done|]. split; [eexists; split; [exact Hlogs|done]|]. split.
  - intros line. rewrite Herr. intros [Hin|Hin]%in_app_or; [by left|]. right.
    destruct (fst (run _ (host s))) as [err|out err_ comb exit]; [done|].
    apply filter_In in Hin as [_ Hh]. unfold harmless in Hh.
    by apply negb_true_iff, orb_false_iff in Hh.
  - destruct (fst (run _ (host s))) as [err|out err_ comb exit].
    + split; [done|]. by rewrite Herr, app_nil_r.
    + done.
Qed.

(** [RemoveSyncAndRelgroup] first deletes the sync on the command line
    and falls back to SQL only when that fails.  When the deletion
    succeeds, or fails and the SQL fallback succeeds, the clean-up of
    the relgroup is the last command and no error is returned, whatever
    the clean-up answers.  When the deletion and the fallback both fail,
    the error of the deletion is returned and the clean-up is not
    run. *)
Theorem RemoveSyncAndRelgroup_fails_when_both_fail {H : Type} `{!Host H}
    (e : CLIExecutor) (syncName relgroupName dbHost dbUser dbPass : string)
    (dbPort : Z) (s : Machine H) :
  let r := RemoveSyncAndRelgroup e syncName relgroupName dbHost dbUser dbPass dbPort s in
  let del := su e (bucardoCmd e +:+ " del sync " +:+ syncName +:+ " --force") in
  let sql :=
    su e ("PGPASSWORD=" +:+ dbPass +:+ " psql -h " +:+ dbHost +:+ " -p " +:+ Go.fmt_d dbPort
          +:+ " -U " +:+ dbUser +:+ " -d bucardo -c "
          +:+ String quote ("DELETE FROM bucardo.sync WHERE name = '" +:+ syncName
                            +:+ "'; DELETE FROM bucardo.herd WHERE name = '"
                            +:+ relgroupName +:+ "';")
          +:+ String quote EmptyString) in
  let cleanup := su e (bucardoCmd e +:+ " del relgroup " +:+ relgroupName) in
  let o1 := run del (host s) in
  let o2 := run sql (snd o1) in
  let cliErr :=
    match fst o1 with
    | StartFailed err => Some ("failed to start command: " +:+ err)
    | Ran _ _ _ exit => exit
    end in
  let sqlErr := snd (combinedOutput (fst o2)) in
  match cliErr, sqlErr with
  | None, _ => fst r = None /\ ran (snd r) = ran s ++ [del; cleanup]
  | Some _, None => fst r = None /\ ran (snd r) = ran s ++ [del; sql; cleanup]
  | Some _, Some _ => fst r = cliErr /\ ran (snd r) = ran s ++ [del; sql]
  end.
Proof.
  cbv zeta. unfold RemoveSyncAndRelgroup.
  destruct (runBucardoCommand_run e ["del"; "sync"; syncName; "--force"] s)
    as (Hfst1 & Hran1 & Hhost1 & _).
  cbv zeta in Hfst1, Hran1, Hhost1.
  change (Go.Join ["del"; "sync"; syncName; "--force"] " ")
    with ("del" +:+ " " +:+ "sync" +:+ " " +:+ syncName +:+ " " +:+ "--force")
    in Hfst1, Hran1, Hhost1.
  assert (forall x, x +:+ " " +:+ "del" +:+ " " +:+ "sync" +:+ " " +:+ syncName
                      +:+ " " +:+ "--force"
                    = x +:+ " del sync " +:+ syncName +:+ " --force") as Hcmd1.
  { intros x. f_equal. }
  rewrite Hcmd1 in Hfst1, Hran1, Hhost1.
  destruct (runBucardoCommand e ["del"; "sync"; syncName; "--force"] s) as [cliErr s1].
  destruct (run (su e (bucardoCmd e +:+ " del sync " +:+ syncName +:+ " --force"))
              (host s)) as [o1 h1].
  cbn [fst snd] in *.
  assert (forall s2 : Machine H,
            ran (snd (runBucardoCommand e ["del"; "relgroup"; relgroupName] s2))
            = ran s2 ++ [su e (bucardoCmd e +:+ " del relgroup " +:+ relgroupName)]) as Hclean.
  { intros s2. destruct (runBucardoCommand_run e ["del"; "relgroup"; relgroupName] s2)
      as (_ & Hr & _). cbv zeta in Hr. rewrite Hr. do 2 f_equal. }
  destruct o1 as [err|out err_ comb [exit|]]; subst cliErr; cbn [fst snd].
  3: { specialize (Hclean s1).
       destruct (runBucardoCommand e ["del"; "relgroup"; relgroupName] s1) as [r3 s3].
       cbn [fst snd] in *. rewrite Hclean, Hran1, <- app_assoc. done. }
  all: unfold CombinedOutput, start, log; cbn [host ran logs stderrOut]; rewrite Hhost1;
    destruct (run _ h1) as [o h2]; cbn [fst snd];
    destruct (combinedOutput o) as [output [sqlErr|]]; cbn [fst snd ran];
    [ split; [done|]; rewrite Hran1, <- app_assoc; reflexivity
    | match goal with
      | |- context [runBucardoCommand ?ex ["del"; "relgroup"; ?name] ?s2] =>
          specialize (Hclean s2);
          destruct (runBucardoCommand ex ["del"; "relgroup"; name] s2) as [r3 s3]
      end;
      cbn [fst snd ran] in *; rewrite Hclean, Hran1, <- !app_assoc; done ].
Qed.

(** [InstallBucardo] installs nothing on an engine that answers
    "list dbs": the check is the only command it runs then.  Otherwise
    it runs the installer once, with the password in the environment of
    the command, and returns no error exactly when the installer
    succeeds, or fails saying "already exists" while a second check
    succeeds. *)
Theorem InstallBucardo_skips_when_operational {H : Type} `{!Host H}
    (e : CLIExecutor) (dbname host_ user pass : string) (s : Machine H) :
  let check := su e (bucardoCmd e +:+ " list dbs") in
  let install :=
    su e ("PGPASSWORD=" +:+ pass +:+ " bucardo install --batch --dbname=" +:+ dbname
          +:+ " --dbhost=" +:+ host_ +:+ " --dbuser=" +:+ user) in
  let r := InstallBucardo e dbname host_ user pass s in
  let o1 := run check (host s) in
  let o2 := run install (snd o1) in
  let o3 := run check (snd o2) in
  let failed (o : Outcome) := snd (combinedOutput o) <> None in
  let alreadyExists := Go.Contains (fst (combinedOutput (fst o2))) "already exists" = true in
  (~ failed (fst o1) -> fst r = None /\ ran (snd r) = ran s ++ [check])
  /\ (failed (fst o1) ->
        (fst r = None <-> ~ failed (fst o2) \/ (alreadyExists /\ ~ failed (fst o3)))
        /\ ran (snd r)
           = ran s ++ [check; install]
             ++ (if bool_decide (failed (fst o2) /\ alreadyExists) then [check] else [])).
Proof.
  cbv zeta. unfold InstallBucardo.
  assert (forall s0 : Machine H,
            runBucardoCommandWithOutput e ["list"; "dbs"] s0
            = (combinedOutput (fst (run (su e (bucardoCmd e +:+ " list dbs")) (host s0))),
               snd (runBucardoCommandWithOutput e ["list"; "dbs"] s0))
            /\ ran (snd (runBucardoCommandWithOutput e ["list"; "dbs"] s0))
               = ran s0 ++ [su e (bucardoCmd e +:+ " list dbs")]
            /\ host (snd (runBucardoCommandWithOutput e ["list"; "dbs"] s0))
               = snd (run (su e (bucardoCmd e +:+ " list dbs")) (host s0))) as Hlist.
  { intros s0. destruct (runBucardoCommandWithOutput_run e ["list"; "dbs"] s0)
      as (Hr & Hran & Hhost & _). cbv zeta in Hr, Hran, Hhost.
    change (Go.Join ["list"; "dbs"] " ") with ("list" +:+ " " +:+ "dbs") in *.
    assert (bucardoCmd e +:+ " " +:+ "list" +:+ " " +:+ "dbs" = bucardoCmd e +:+ " list dbs")
      as Hcmd by (f_equal).
    rewrite Hcmd in *. split; [|done].
    rewrite <- Hr. by destruct (runBucardoCommandWithOutput e _ s0). }
  destruct (Hlist s) as (Hr1 & Hran1 & Hhost1). rewrite Hr1.
  set (s1 := snd (runBucardoCommandWithOutput e ["list"; "dbs"] s)) in *.
  destruct (combinedOutput (fst (run _ (host s)))) as [out1 [err1|]]; cbn [fst snd].
  - split; [intros Hnf; exfalso; by apply Hnf|]. intros _.
    unfold CombinedOutput, start, log. cbn [host ran logs stderrOut].
    rewrite Hhost1.
    destruct (run _ (snd (run _ (host s)))) as [o2 h2]. cbn [fst snd].
    destruct (combinedOutput o2) as [out2 [err2|]]; cbn [fst snd].
    + destruct (Go.Contains out2 "already exists") eqn:Hexists.
      * match goal with
        | |- context [runBucardoCommandWithOutput e ["list"; "dbs"] ?s3] =>
            destruct (Hlist s3) as (Hr3 & Hran3 & Hhost3); rewrite Hr3;
            set (s4 := snd (runBucardoCommandWithOutput e ["list"; "dbs"] s3)) in *
        end.
        cbn [host ran] in *.
        rewrite bool_decide_eq_true_2 by done.
        destruct (combinedOutput (fst (run _ h2))) as [out3 [err3|]]; cbn [fst snd ran].
        -- split; [|by rewrite Hran3, Hran1, <- !app_assoc].
           split; [done|]. intros [Hok|[_ Hok]]; exfalso; by apply Hok.
        -- split; [|by rewrite Hran3, Hran1, <- !app_assoc].
           split; [|done]. intros _. right. split; [done|]. by intros Hf.
      * rewrite bool_decide_eq_false_2 by (intros [_ ?]; done).
        cbn [ran]. rewrite Hran1, <- !app_assoc. split; [|done].
        split; [done|]. intros [Hok|[? _]]; [exfalso; by apply Hok|done].
    + cbn [ran]. rewrite bool_decide_eq_false_2 by (intros [? _]; done).
      rewrite Hran1, <- !app_assoc. split; [|done]. split; [|done]. intros _. left.
      by intros Hf.
  - split; [|done]. intros _. cbn [ran]. done.
Qed.

End executor_properties.

(* ===================================================================== *)
(** ** Log writers *)
(* ===================================================================== *)

Section writer_properties.
Import logger broadcaster entrypoint.

Section writer_facts.
Context {S : Type}.

Lemma Write_cons (w : Writer S) (rest : list (Writer S)) (p : list N) (s : S) :
  (accepts w p s -> logger.Write (w :: rest) p s = logger.Write rest p (snd (w p s)))
  /\ (~ accepts w p s ->
        snd (logger.Write (w :: rest) p s) = snd (w p s)
        /\ snd (fst (logger.Write (w :: rest) p s)) <> None
        /\ logger.Write (w :: rest) p s = logger.Write [w] p s).
Proof.
  unfold accepts. cbn [logger.Write]. destruct (w p s) as [[n [e|]] s1]; cbn [fst snd].
  - split; [done|]. done.
  - destruct (Z.eqb_spec n (len p)) as [->|Hne]; cbn [negb].
    + split; [done|]. intros Hn. by exfalso.
    + split; [intros [= ?]; done|]. done.
Qed.

Lemma stateAt_cons (w : Writer S) (rest : list (Writer S)) (p : list N) (s : S) (i : nat) :
  stateAt (w :: rest) p s (Datatypes.S i) = stateAt rest p (snd (w p s)) i.
Proof. done. Qed.

End writer_facts.

(** [MultiWriter.Write] reports a complete write exactly when every
    writer, reached in turn, takes all of the bytes.  It stops at the
    first writer that returns an error or takes fewer bytes: the
    writers behind that one are not run, the error is returned (a short
    write as [io.ErrShortWrite]), and the writers before it keep what
    they were given. *)
Theorem MultiWriter_stops_at_first_failure {S : Type}
    (writers : list (Writer S)) (p : list N) (s : S) :
  (fst (logger.Write writers p s) = (len p, None)
     <-> forall i w, writers !! i = Some w -> accepts w p (stateAt writers p s i))
  /\ (forall before w after,
        writers = before ++ w :: after ->
        (forall i w', before !! i = Some w' -> accepts w' p (stateAt writers p s i)) ->
        ~ accepts w p (stateAt writers p s (length before)) ->
        logger.Write writers p s = logger.Write (before ++ [w]) p s
        /\ snd (logger.Write writers p s) = snd (w p (stateAt writers p s (length before)))
        /\ snd (fst (logger.Write writers p s)) <> None).
Proof.
  split.
  - revert s. induction writers as [|w rest IH]; intros s.
    + cbn. split; [intros _ i w Hw; by rewrite lookup_nil in Hw|done].
    + destruct (Write_cons w rest p s) as [Hyes Hno]. split.
      * intros Hok. assert (accepts w p s) as Hw.
        { destruct (decide (fst (w p s) = (len p, None))) as [|Hn]; [done|].
          destruct (Hno Hn) as (_ & Herr & _). rewrite Hok in Herr. done. }
        rewrite (Hyes Hw) in Hok. intros [|i] w' Hlook.
        -- cbn in Hlook. injection Hlook as <-. exact Hw.
        -- rewrite stateAt_cons. by apply (IH (snd (w p s))).
      * intros Hall. assert (accepts w p s) as Hw by apply (Hall 0%nat w eq_refl).
        rewrite (Hyes Hw). apply IH. intros i w' Hlook.
        rewrite <- stateAt_cons. by apply (Hall (Datatypes.S i)).
  - intros before w after -> . revert s. induction before as [|b before IH]; intros s Hbefore Hw.
    + cbn [app length] in *. unfold stateAt in Hw. cbn in Hw.
      destruct (Write_cons w after p s) as [_ Hno]. destruct (Hno Hw) as (Hs & He & Heq).
      done.
    + cbn [app length] in *.
      assert (accepts b p s) as Hb by apply (Hbefore 0%nat b eq_refl).
      destruct (Write_cons b (before ++ w :: after) p s) as [Hyes _].
      destruct (Write_cons b (before ++ [w]) p s) as [Hyes' _].
      rewrite (Hyes Hb), (Hyes' Hb), stateAt_cons. apply IH.
      * intros i w' Hlook. rewrite <- stateAt_cons. by apply (Hbefore (Datatypes.S i)).
      * by rewrite <- stateAt_cons.
Qed.

Section broadcaster_facts.

Lemma received_app (conn : nat) (sent sent' : list (nat * list N)) :
  received conn (sent ++ sent') = received conn sent ++ received conn sent'.
Proof. unfold received. by rewrite List.filter_app, map_app. Qed.

Lemma received_once (conn : nat) (message : list N) (conns : list nat) :
  List.NoDup conns ->
  received conn (map (fun c => (c, message)) conns) = []
  \/ received conn (map (fun c => (c, message)) conns) = [message].
Proof.
  intros Hnd. induction Hnd as [|c conns Hnotin Hnd IH]; [by left|].
  unfold received in *. cbn [map List.filter fst].
  destruct (Nat.eqb_spec c conn) as [->|Hne]; [|exact IH].
  cbn [map snd]. right. f_equal.
  clear IH Hnd. induction conns as [|c' conns IH]; [done|].
  cbn [map List.filter fst]. destruct (Nat.eqb_spec c' conn) as [->|Hne].
  - exfalso. apply Hnotin. by left.
  - apply IH. intros Hin. apply Hnotin. by right.
Qed.

Lemma runActions_cons (b : LogBroadcaster) (ev : Action) (events : list Action) :
  broadcaster.runActions b (ev :: events)
  = (fst (broadcaster.runActions (fst (act b ev)) events),
     snd (act b ev) ++ snd (broadcaster.runActions (fst (act b ev)) events)).
Proof.
  cbn [broadcaster.runActions]. destruct (act b ev) as [b' sent]. cbn [fst snd].
  by destruct (broadcaster.runActions b' events).
Qed.

Lemma broadcaster_run (events : list Action) (b : LogBroadcaster) (conn : nat) :
  (length (broadcast b) <= capacity)%nat ->
  (length (broadcast (fst (broadcaster.runActions b events))) <= capacity)%nat
  /\ sublist (received conn (snd (broadcaster.runActions b events))
              ++ broadcast (fst (broadcaster.runActions b events)))
             (broadcast b ++ written events).
Proof.
  revert b. induction events as [|ev events IH]; intros b Hcap.
  { cbn. split; [done|]. by rewrite app_nil_r. }
  rewrite runActions_cons. cbn [fst snd]. rewrite received_app.
  destruct ev as [p|failed|c|c]; cbn [act fst snd written omap].
  - unfold broadcaster.Write. cbn [snd].
    destruct (Nat.ltb_spec (length (broadcast b)) capacity) as [Hlt|Hge].
    + destruct (IH {| clients := clients b; broadcast := broadcast b ++ [p] |}) as [Hc Hs].
      { cbn. rewrite length_app. cbn. lia. }
      split; [done|]. cbn [broadcast] in Hs. by rewrite <- app_assoc in Hs.
    + destruct (IH b Hcap) as [Hc Hs]. split; [done|].
      cbn [app]. etransitivity; [exact Hs|]. apply sublist_app; [done|].
      by apply sublist_cons.
  - destruct (broadcast b) as [|message rest] eqn:Hq.
    + cbn [fst snd app]. destruct (IH b) as [Hc Hs]; [by rewrite Hq|].
      rewrite Hq in Hs. done.
    + cbn [fst snd].
      destruct (IH {| clients := clients b ∖ failed; broadcast := rest |}) as [Hc Hs].
      { cbn in *. lia. }
      split; [done|]. cbn [broadcast] in Hs.
      destruct (received_once conn message (elements (clients b ∖ failed)))
        as [-> | ->]; [apply NoDup_ListNoDup, NoDup_elements| |]; cbn [app].
      * by apply sublist_cons.
      * by apply sublist_skip.
  - destruct (IH {| clients := {[c]} ∪ clients b; broadcast := broadcast b |} Hcap)
      as [Hc Hs]. done.
  - destruct (IH {| clients := clients b ∖ {[c]}; broadcast := broadcast b |} Hcap)
      as [Hc Hs]. done.
Qed.

End broadcaster_facts.

(** The broadcaster never blocks a writer and never reports a failure:
    [Write] always claims the whole message, and queues it only while
    fewer than 256 messages wait.  In every run from a new broadcaster
    the queue holds at most 256 messages, and what a client is sent,
    followed by what still waits, is a selection of the written
    messages in the order they were written: messages may be dropped,
    never repeated or reordered. *)
Theorem broadcaster_drops_but_keeps_order (events : list Action) :
  let final := fst (broadcaster.runActions NewLogBroadcaster events) in
  let sent := snd (broadcaster.runActions NewLogBroadcaster events) in
  (length (broadcast final) <= 256)%nat
  /\ (forall conn, sublist (received conn sent ++ broadcast final) (written events))
  /\ (forall p b,
        fst (broadcaster.Write p b) = (len p, None)
        /\ clients (snd (broadcaster.Write p b)) = clients b
        /\ broadcast (snd (broadcaster.Write p b))
           = if (length (broadcast b) <? 256)%nat then broadcast b ++ [p]
             else broadcast b).
Proof.
  cbv zeta. split; [|split].
  - apply (broadcaster_run events NewLogBroadcaster 0%nat). cbn. unfold capacity. lia.
  - intros conn. apply (broadcaster_run events NewLogBroadcaster conn).
    cbn. unfold capacity. lia.
  - intros p b. unfold broadcaster.Write. cbn [fst snd]. unfold capacity.
    by destruct (length (broadcast b) <? 256)%nat.
Qed.

(** In the process, log output goes to standard output first and to the
    broadcaster second: a line is offered to the broadcaster exactly
    when standard output has taken all of it, and the broadcaster never
    turns a successful write into a failure. *)
Theorem log_line_reaches_clients_after_stdout {O : Type}
    (stdout : Writer O) (p : list N) (o : O) (b : LogBroadcaster) :
  let r := logger.Write (multiWriter stdout) p (o, b) in
  fst (snd r) = snd (stdout p o)
  /\ (accepts stdout p o ->
        fst r = (len p, None) /\ snd (snd r) = snd (broadcaster.Write p b))
  /\ (~ accepts stdout p o -> snd (fst r) <> None /\ snd (snd r) = b).
Proof.
  cbv zeta. unfold multiWriter, accepts. cbn [logger.Write fst snd].
  destruct (stdout p o) as [[n [e|]] o1]; cbn [fst snd].
  - split; [done|]. split; [done|]. done.
  - destruct (Z.eqb_spec n (len p)) as [->|Hne]; cbn [negb fst snd].
    + unfold broadcaster.Write. cbn [fst snd]. rewrite Z.eqb_refl.
      cbn [negb fst snd]. split; [done|]. split; [done|].
      intros Hn. by exfalso.
    + split; [done|]. split; [intros [= ?]; done|]. done.
Qed.

End writer_properties.

(* ===================================================================== *)
(** ** The credentials file *)
(* ===================================================================== *)

Section pgpass_facts.
Import pgpass.

Lemma appendAll_run (environ : string -> option string) (dbs : list Database) (d : Disk) :
  openError d = None -> writeError d = None ->
  let r := appendAll environ dbs d in
  (fst r = None <-> Forall (fun db => resolves environ db = true) dbs)
  /\ pgpassFile (snd r)
     = match dbs with
       | db :: _ =>
           if resolves environ db
           then Some (default "" (pgpassFile d) +:+ resolvedEntries environ dbs)
           else pgpassFile d
       | [] => pgpassFile d
       end
  /\ openError (snd r) = None /\ writeError (snd r) = None.
Proof.
  cbv zeta. revert d. induction dbs as [|db dbs IH]; intros d Hopen Hwrite.
  - cbn. split; [split; [constructor|done]|done].
  - cbn [appendAll resolvedEntries]. unfold resolves at 2 3.
    destruct (postgres.getDbPassword environ db) as [password [err|]] eqn:Hpw; cbn [fst snd].
    + rewrite bool_decide_eq_false_2 by done. cbn [fst snd].
      split; [|done]. split; [done|]. intros Hall. inversion Hall as [|? ? Hres]; subst.
      unfold resolves in Hres. rewrite Hpw in Hres. cbn in Hres. done.
    + rewrite bool_decide_eq_true_2 by done.
      unfold appendPgpassEntry. rewrite Hopen, Hwrite.
      set (d1 := {| pgpassFile := Some (default "" (pgpassFile d) +:+ pgpassEntry db password);
                    openError := None; writeError := None |}).
      destruct (IH d1 eq_refl eq_refl) as (Hres & Hfile & Ho & Hw).
      cbn [fst snd].
      split; [|split; [|done]].
      * rewrite Hres. split.
        -- intros Hall. constructor; [|done]. unfold resolves. rewrite Hpw.
           by apply bool_decide_eq_true.
        -- intros Hall. by inversion Hall.
      * rewrite Hfile. subst d1. cbn [pgpassFile default].
        destruct dbs as [|db' dbs']; [by rewrite append_nil_r|].
        cbn [resolvedEntries]. destruct (resolves environ db'); [|by rewrite append_nil_r].
        unfold id. by rewrite append_assoc.
Qed.

End pgpass_facts.

(** When the file can be opened and written, [SetupPgpass] replaces
    the credentials file by the entries of the databases up to the
    first one whose password cannot be resolved: nothing of the old
    file is kept, and a set-up that fails leaves the entries written so
    far behind.  It returns no error exactly when every password
    resolves.  [CleanupPgpass] removes the file and fails only when
    there is none. *)
Theorem SetupPgpass_writes_resolved_entries
    (environ : string -> option string) (dbs : list Database) (d : pgpass.Disk)
    (Hopen : pgpass.openError d = None) (Hwrite : pgpass.writeError d = None) :
  let r := pgpass.SetupPgpass environ dbs d in
  (fst r = None <-> Forall (fun db => pgpass.resolves environ db = true) dbs)
  /\ pgpass.pgpassFile (snd r)
     = match dbs with
       | db :: _ =>
           if pgpass.resolves environ db
           then Some (pgpass.resolvedEntries environ dbs)
           else None
       | [] => None
       end
  /\ (fst (pgpass.CleanupPgpass (snd r)) = None <-> pgpass.pgpassFile (snd r) <> None)
  /\ pgpass.pgpassFile (snd (pgpass.CleanupPgpass (snd r))) = None.
Proof.
  cbv zeta. unfold pgpass.SetupPgpass.
  assert (exists d0, snd (pgpass.Remove d) = d0 /\ pgpass.pgpassFile d0 = None
                     /\ pgpass.openError d0 = None /\ pgpass.writeError d0 = None)
    as (d0 & Hd0 & Hnone & Ho & Hw).
  { unfold pgpass.Remove. destruct (pgpass.pgpassFile d) eqn:Hf; eexists; split; done. }
  destruct (pgpass.Remove d) as [e0 d0']. cbn [snd] in Hd0. subst d0'.
  destruct (appendAll_run environ dbs d0 Ho Hw) as (Hres & Hfile & _).
  cbv zeta in Hres, Hfile. rewrite Hnone in Hfile. cbn [default] in Hfile.
  split; [done|]. split.
  { rewrite Hfile. destruct dbs as [|db dbs']; [done|].
    destruct (pgpass.resolves environ db); [|done]. by rewrite append_nil_l. }
  unfold pgpass.CleanupPgpass, pgpass.Remove.
  destruct (pgpass.pgpassFile (snd (pgpass.appendAll environ dbs d0))) eqn:Hleft; cbn;
    (split; [split; intros; congruence|done]).
Qed.

(** The two databases of the sample configuration, written over an
    older file. *)
Lemma SetupPgpass_writes_resolved_entries_witness :
  let d := {| pgpass.pgpassFile := Some "stale"; pgpass.openError := None;
              pgpass.writeError := None |} in
  let r := pgpass.SetupPgpass (fun _ => None) [sample.db1; sample.db2] d in
  fst r = None
  /\ pgpass.pgpassFile (snd r)
     = Some ("h1:5432:app:u:secret" +:+ String "010" ("h2:*:app:u:secret"
             +:+ String "010" "")).
Proof.
  intros d r.
  destruct (SetupPgpass_writes_resolved_entries (fun _ => None) [sample.db1; sample.db2] d
              eq_refl eq_refl) as (Hres & Hfile & _).
  split; [apply Hres; repeat constructor|]. exact Hfile.
Defined.
